(** * VRM add-on for Blender: humanoid schema, JSON access, skin weights
      and the basic-armature synthesizer

    A shallow embedding of [io_scene_vrm/vrm_types.py] and
    [misc/make_armature.py].

    - Python [str] is [string]; a [dict] is an association list in insertion
      order (the literal's items are kept apart from the dict they build, so
      that repeated keys stay visible).
    - Python exceptions are the [Err] results of a small error monad.
    - [float] in [normalize_weights_compatible_with_gl_float] is IEEE 754
      binary64 as specified by the Standard Library's [SpecFloat]; the
      32-bit transport format is binary32 in the same specification.
    - The armature synthesizer computes bone positions with idealised real
      numbers ([R]): the geometric identities are stated exactly, where the
      program meets them up to rounding.

    The first part holds the embedding, one module per source unit; the
    second part, the theorems, one module of facts per module of
    definitions. *)

From Stdlib Require Import List String Ascii Bool ZArith Lia.

From Stdlib Require Import Floats.SpecFloat.

From Stdlib Require Import Reals Lra Psatz.

Import ListNotations.

Local Open Scope string_scope.

Local Open Scope list_scope.

(** ** Python results *)

Inductive py_error : Type :=
| IndexError
| KeyError
| ZeroDivisionError
| OverflowError
| ValueError
| DuplicateNameError
| ParameterRangeError.

Inductive result (A : Type) : Type :=
| Ok (a : A)
| Err (e : py_error).

Arguments Ok {A} a.

Arguments Err {A} e.

Definition bind {A B : Type} (m : result A) (k : A -> result B) : result B :=
  match m with
  | Ok a => k a
  | Err e => Err e
  end.

Declare Scope py_scope.

Delimit Scope py_scope with py.

Notation "x <- m ;; k" := (bind m (fun x => k))
  (at level 61, m at next level, right associativity) : py_scope.

Notation "' p <- m ;; k" := (bind m (fun p => k))
  (at level 61, p pattern, m at next level, right associativity) : py_scope.

(** ** Python dicts with [str] keys *)

Module Dict.

Section WithValue.

Context {V : Type}.

Definition t := list (string * V).

Fixpoint get (d : t) (k : string) : option V :=
  match d with
  | [] => None
  | (k', v) :: d' => if String.eqb k' k then Some v else get d' k
  end.

(** [d[k] = v]: an existing key keeps its place and takes the new value,
    a new key goes to the end. *)
Fixpoint set (d : t) (k : string) (v : V) : t :=
  match d with
  | [] => [(k, v)]
  | (k', v') :: d' =>
      if String.eqb k' k then (k', v) :: d' else (k', v') :: set d' k v
  end.

Definition keys (d : t) : list string := map fst d.

Definition mem (d : t) (k : string) : bool :=
  match get d k with
  | Some _ => true
  | None => false
  end.

(** [d.update(items)], also the meaning of a dict display or a dict
    comprehension that yields [items] in order. *)
Definition update (d : t) (items : list (string * V)) : t :=
  fold_left (fun acc kv => set acc (fst kv) (snd kv)) items d.

Definition of_items (items : list (string * V)) : t := update [] items.

(** The keys after [d[k] = v], from the keys before. *)
Definition add_key (ks : list string) (k : string) : list string :=
  if existsb (String.eqb k) ks then ks else ks ++ [k].

End WithValue.

Arguments t V : clear implicits.

End Dict.

(** ** [vrm_types.HumanBones]: the humanoid bone vocabulary *)

Module HumanBones.

Definition center_req : list string :=
  ["hips"; "spine"; "chest"; "neck"; "head"].

Definition left_leg_req : list string :=
  ["leftUpperLeg"; "leftLowerLeg"; "leftFoot"].

Definition left_arm_req : list string :=
  ["leftUpperArm"; "leftLowerArm"; "leftHand"].

Definition right_leg_req : list string :=
  ["rightUpperLeg"; "rightLowerLeg"; "rightFoot"].

Definition right_arm_req : list string :=
  ["rightUpperArm"; "rightLowerArm"; "rightHand"].

Definition requires : list string :=
  center_req ++ left_leg_req ++ right_leg_req ++ left_arm_req ++ right_arm_req.

Definition left_arm_def : list string :=
  [ "leftShoulder";
    "leftThumbProximal"; "leftThumbIntermediate"; "leftThumbDistal";
    "leftIndexProximal"; "leftIndexIntermediate"; "leftIndexDistal";
    "leftMiddleProximal"; "leftMiddleIntermediate"; "leftMiddleDistal";
    "leftRingProximal"; "leftRingIntermediate"; "leftRingDistal";
    "leftLittleProximal"; "leftLittleIntermediate"; "leftLittleDistal" ].

Definition right_arm_def : list string :=
  [ "rightShoulder";
    "rightThumbProximal"; "rightThumbIntermediate"; "rightThumbDistal";
    "rightIndexProximal"; "rightIndexIntermediate"; "rightIndexDistal";
    "rightMiddleProximal"; "rightMiddleIntermediate"; "rightMiddleDistal";
    "rightRingProximal"; "rightRingIntermediate"; "rightRingDistal";
    "rightLittleProximal"; "rightLittleIntermediate"; "rightLittleDistal" ].

Definition center_def : list string := ["upperChest"; "jaw"].

Definition left_leg_def : list string := ["leftToes"].

Definition right_leg_def : list string := ["rightToes"].

Definition defines : list string :=
  ["leftEye"; "rightEye"]
    ++ center_def ++ left_leg_def ++ right_leg_def
    ++ left_arm_def ++ right_arm_def.

(** The items of the [hierarchy] dict display, child first, in source
    order. *)
Definition hierarchy_items : list (string * string) :=
  [ ("leftEye", "head");
    ("rightEye", "head");
    ("jaw", "head");
    ("head", "neck");
    ("neck", "upperChest");
    ("upperChest", "chest");
    ("chest", "spine");
    ("spine", "hips");
    ("rightShoulder", "chest");
    ("rightUpperArm", "rightShoulder");
    ("rightLowerArm", "rightUpperArm");
    ("rightHand", "rightLowerArm");
    ("rightThumbProximal", "rightHand");
    ("rightThumbIntermediate", "rightThumbProximal");
    ("rightThumbDistal", "rightThumbIntermediate");
    ("rightIndexProximal", "rightHand");
    ("rightIndexIntermediate", "rightIndexProximal");
    ("rightIndexDistal", "rightIndexIntermediate");
    ("rightMiddleProximal", "rightHand");
    ("rightMiddleIntermediate", "rightMiddleProximal");
    ("rightMiddleDistal", "rightMiddleIntermediate");
    ("rightRingProximal", "rightHand");
    ("rightRingIntermediate", "rightRingProximal");
    ("rightRingDistal", "rightRingIntermediate");
    ("rightLittleProximal", "rightHand");
    ("rightLittleIntermediate", "rightLittleProximal");
    ("rightLittleDistal", "rightLittleIntermediate");
    ("leftShoulder", "chest");
    ("leftUpperArm", "leftShoulder");
    ("leftLowerArm", "leftUpperArm");
    ("leftHand", "leftLowerArm");
    ("leftThumbProximal", "leftHand");
    ("leftThumbIntermediate", "leftThumbProximal");
    ("leftThumbDistal", "leftThumbIntermediate");
    ("leftIndexProximal", "leftHand");
    ("leftIndexIntermediate", "leftIndexProximal");
    ("leftIndexDistal", "leftIndexIntermediate");
    ("leftMiddleProximal", "leftHand");
    ("leftMiddleIntermediate", "leftMiddleProximal");
    ("leftMiddleDistal", "leftMiddleIntermediate");
    ("leftRingProximal", "leftHand");
    ("leftRingIntermediate", "leftRingProximal");
    ("leftRingDistal", "leftRingIntermediate");
    ("leftLittleProximal", "leftHand");
    ("leftLittleIntermediate", "leftLittleProximal");
    ("leftLittleDistal", "leftLittleIntermediate");
    ("leftUpperLeg", "hips");
    ("leftLowerLeg", "leftUpperLeg");
    ("leftFoot", "leftLowerLeg");
    ("leftToes", "leftFoot");
    ("rightUpperLeg", "hips");
    ("rightLowerLeg", "rightUpperLeg");
    ("rightFoot", "rightLowerLeg");
    ("rightToes", "rightFoot") ].

Definition hierarchy : Dict.t string := Dict.of_items hierarchy_items.

(** The names the schema knows: [requires] and [defines] together. *)
Definition schema_names : list string := requires ++ defines.

Definition is_schema_name (n : string) : bool :=
  existsb (String.eqb n) schema_names.

(** How often [n] is written as a key in the dict display. *)
Definition times_as_key (n : string) : nat :=
  count_occ string_dec (map fst hierarchy_items) n.

(** One parent link of the table. *)
Definition parent_of (child parent : string) : Prop :=
  Dict.get hierarchy child = Some parent.

(** [ascends n a]: following parent links from [n] arrives at [a] after
    finitely many steps (none, when [a] is [n]). *)
Inductive ascends : string -> string -> Prop :=
| ascends_here (n : string) : ascends n n
| ascends_up (c p a : string) : parent_of c p -> ascends p a -> ascends c a.

(** [on_cycle n]: at least one parent link leads from [n] back to [n]. *)
Definition on_cycle (n : string) : Prop :=
  exists p, parent_of n p /\ ascends p n.

(** The ancestor [k] links above [n], when the table has that many. *)
Fixpoint nth_ancestor (k : nat) (n : string) : option string :=
  match k with
  | O => Some n
  | S k' =>
      match Dict.get hierarchy n with
      | Some p => nth_ancestor k' p
      | None => None
      end
  end.

(** Number of links from [n] up to "hips", searched within [fuel] links. *)
Fixpoint depth_below_hips (fuel : nat) (n : string) : option nat :=
  if String.eqb n "hips" then Some O
  else
    match fuel with
    | O => None
    | S fuel' =>
        match Dict.get hierarchy n with
        | Some p => option_map S (depth_below_hips fuel' p)
        | None => None
        end
    end.

Definition well_placed (n : string) : bool :=
  (String.eqb n "hips" || Nat.eqb (times_as_key n) 1)
  && match depth_below_hips (List.length hierarchy_items) n with
     | Some _ => true
     | None => false
     end.

(** *** Notions about the vocabulary *)

(** The same bone on the other side of the body: "left..." and "right..."
    exchanged, any other name kept. *)
Definition other_side (n : string) : string :=
  if String.prefix "left" n then "right" ++ substring 4 (String.length n - 4) n
  else if String.prefix "right" n
       then "left" ++ substring 5 (String.length n - 5) n
       else n.

Definition has_item (c p : string) : bool :=
  existsb (fun kv => String.eqb (fst kv) c && String.eqb (snd kv) p)
          hierarchy_items.

Fixpoint no_repeat (l : list string) : bool :=
  match l with
  | [] => true
  | x :: l' => negb (existsb (String.eqb x) l') && no_repeat l'
  end.

End HumanBones.

(** ** [vrm_types.nested_json_value_getter] *)

Module Json.

(** A decoded JSON document as Python holds it. *)
#[local] Set Warnings "-register-all".

Inductive json : Type :=
| JNone
| JBool (b : bool)
| JInt (z : Z)
| JFloat (f : spec_float)
| JStr (s : string)
| JList (items : list json)
| JDict (items : list (string * json)).

(** One element of an attribute path: [Union[int, str]]. *)
Inductive attr : Type :=
| AInt (i : Z)
| AStr (s : string).

(** Every [isinstance] branch returns [v] itself, and so does the
    fall-through after the warning. *)
Definition make_json_return_value (v : json) : json :=
  match v with
  | JNone => JNone
  | JInt _ => v
  | JFloat _ => v
  | JBool _ => v
  | JStr _ => v
  | JList _ => v
  | JDict _ => v
  end.

(** [json[attr]] for a list, under the guard [0 <= attr < len(json)]. *)
Definition list_item (items : list json) (i : Z) : option json :=
  if ((0 <=? i)%Z && (i <? Z.of_nat (List.length items))%Z)%bool
  then nth_error items (Z.to_nat i)
  else None.

(** The recursion is on the path: [attrs.pop(0)] takes its first element
    off, raising [IndexError] when the list is empty, and the recursive
    calls receive the rest. *)
Fixpoint nested_json_value_getter
    (j : json) (attrs : list attr) (default : json) {struct attrs}
  : result json :=
  match j with
  | JNone => Ok default
  | _ =>
      match attrs with
      | [] => Err IndexError
      | a :: attrs' =>
          let found :=
            match j, a with
            | JList items, AInt i => list_item items i
            | JDict items, AStr k => Dict.get items k
            | _, _ => None
            end in
          match found with
          | Some v =>
              match attrs' with
              | [] => Ok (make_json_return_value v)
              | _ :: _ => nested_json_value_getter v attrs' default
              end
          | None => Ok default
          end
      end
  end.

(** [nested_json_list_getter]: the value when it is a list, else the
    default. *)
Definition nested_json_list_getter
    (j : json) (attrs : list attr) (default : list json)
  : result (list json) :=
  (r <- nested_json_value_getter j attrs (JList default) ;;
   match r with
   | JList l => Ok l
   | _ => Ok default
   end)%py.

(** *** What a path denotes

    One step of a path matches when the container is a list and the
    attribute an index in range, or the container is a dict and the
    attribute one of its keys; [None] (the Python value), scalars, an index
    out of range, an absent key and an attribute of the wrong kind do not
    match. *)
Definition path_step (j : json) (a : attr) : option json :=
  match j, a with
  | JList items, AInt i =>
      if (i <? 0)%Z then None
      else if (Z.of_nat (List.length items) <=? i)%Z then None
      else nth_error items (Z.to_nat i)
  | JDict items, AStr k => Dict.get items k
  | _, _ => None
  end.

(** The value at the end of the path, when every step matches. *)
Fixpoint path_value (j : json) (attrs : list attr) : option json :=
  match attrs with
  | [] => Some j
  | a :: attrs' =>
      match path_step j a with
      | Some v => path_value v attrs'
      | None => None
      end
  end.

End Json.

(** ** [vrm_types.Vrm0]: the metadata vocabulary *)

Module Vrm0.

Definition METAS : list string :=
  [ "version"; "author"; "contactInformation"; "reference"; "title";
    "otherPermissionUrl"; "otherLicenseUrl" ].

Definition REQUIRED_METAS : Dict.t string :=
  Dict.of_items
    [ ("allowedUserName", "OnlyAuthor");
      ("violentUssageName", "Disallow");
      ("sexualUssageName", "Disallow");
      ("commercialUssageName", "Disallow");
      ("licenseName", "Redistribution_Prohibited") ].

End Vrm0.

(** ** [misc/make_armature.py]: the basic-armature operator *)

Module Armature.

Local Open Scope R_scope.

(** *** Numbers

    Python's [float] is idealised as a real number.  A division by a
    literal constant cannot fail and is written [/]; a division by a
    computed quantity raises [ZeroDivisionError] on a zero divisor. *)
Definition py_div (x y : R) : result R :=
  if Req_dec_T y 0 then Err ZeroDivisionError else Ok (x / y).

(** [math.radians] *)
Definition radians (deg : R) : R := deg * PI / 180.

(** *** [mathutils]: vectors and the matrices the operator builds *)

Record vec3 : Type := Vec { vx : R; vy : R; vz : R }.

Record mat3 : Type := Mat3 { row1 : vec3; row2 : vec3; row3 : vec3 }.

(** A 4x4 matrix whose last row is (0, 0, 0, 1): its 3x3 block and its
    translation column.  [Matrix.Translation], [Matrix.Rotation] and their
    inverses all have this shape. *)
Record Matrix : Type := Mat4 { block : mat3; translation : vec3 }.

Definition dot (a b : vec3) : R := vx a * vx b + vy a * vy b + vz a * vz b.

Definition vadd (a b : vec3) : vec3 :=
  Vec (vx a + vx b) (vy a + vy b) (vz a + vz b).

Definition mat3_apply (m : mat3) (v : vec3) : vec3 :=
  Vec (dot (row1 m) v) (dot (row2 m) v) (dot (row3 m) v).

(** [matrix @ point] *)
Definition Matrix_apply (m : Matrix) (v : vec3) : vec3 :=
  vadd (mat3_apply (block m) v) (translation m).

Definition identity3 : mat3 := Mat3 (Vec 1 0 0) (Vec 0 1 0) (Vec 0 0 1).

Definition Matrix_Translation (v : vec3) : Matrix := Mat4 identity3 v.

(** [Matrix.Rotation(angle, 4, "Z")] *)
Definition Matrix_Rotation_Z (angle : R) : Matrix :=
  Mat4 (Mat3 (Vec (cos angle) (- sin angle) 0)
             (Vec (sin angle) (cos angle) 0)
             (Vec 0 0 1))
       (Vec 0 0 0).

Definition det3 (m : mat3) : R :=
  let a := row1 m in let b := row2 m in let c := row3 m in
  vx a * (vy b * vz c - vz b * vy c)
  - vy a * (vx b * vz c - vz b * vx c)
  + vz a * (vx b * vy c - vy b * vx c).

Definition adjugate3 (m : mat3) : mat3 :=
  let a := row1 m in let b := row2 m in let c := row3 m in
  Mat3 (Vec (vy b * vz c - vz b * vy c)
            (vz a * vy c - vy a * vz c)
            (vy a * vz b - vz a * vy b))
       (Vec (vz b * vx c - vx b * vz c)
            (vx a * vz c - vz a * vx c)
            (vz a * vx b - vx a * vz b))
       (Vec (vx b * vy c - vy b * vx c)
            (vy a * vx c - vx a * vy c)
            (vx a * vy b - vy a * vx b)).

Definition vscale (k : R) (v : vec3) : vec3 :=
  Vec (k * vx v) (k * vy v) (k * vz v).

Definition mat3_scale (k : R) (m : mat3) : mat3 :=
  Mat3 (vscale k (row1 m)) (vscale k (row2 m)) (vscale k (row3 m)).

(** [matrix.inverted()]: [ValueError] when the matrix has no inverse. *)
Definition inverted (m : Matrix) : result Matrix :=
  let d := det3 (block m) in
  if Req_dec_T d 0 then Err ValueError
  else
    let inv := mat3_scale (1 / d) (adjugate3 (block m)) in
    Ok (Mat4 inv (vscale (-1) (mat3_apply inv (translation m)))).

(** *** Bones and the armature under construction *)

(** An edit bone.  [name] is the name asked of [edit_bones.new] (Blender
    suffixes it when the armature already has a bone so named); [parent]
    refers to another bone of the same armature by its position in
    [edit_bones]; [roll] is in radians. *)
Record EditBone : Type := Bone {
  name : string;
  head : vec3;
  tail : vec3;
  head_radius : R;
  tail_radius : R;
  envelope_distance : R;
  roll : R;
  parent : option nat
}.

(** The state [make_armature] works on: the armature's edit bones in
    creation order ([armature.data.edit_bones], kept here as the edit
    session left them once it is over), the local [bone_dic] from names
    to bones, and the bones the armature has in object mode
    ([armature.data.bones]), which leaving edit mode makes of the edit
    bones. *)
Record Rig : Type := MkRig {
  edit_bones : list EditBone;
  bone_dic : Dict.t nat;
  bones : list EditBone
}.

Definition empty_rig : Rig := MkRig [] [] [].

Definition null_bone : EditBone :=
  Bone EmptyString (Vec 0 0 0) (Vec 0 0 0) 0 0 0 0 None.

(** The bone a reference points at. *)
Definition bone_at (rig : Rig) (b : nat) : EditBone :=
  nth b (edit_bones rig) null_bone.

(** The squared distance from head to tail, and the bone's length. *)
Definition length_squared (b : EditBone) : R :=
  (vx (tail b) - vx (head b)) * (vx (tail b) - vx (head b))
  + (vy (tail b) - vy (head b)) * (vy (tail b) - vy (head b))
  + (vz (tail b) - vz (head b)) * (vz (tail b) - vz (head b)).

Definition bone_length (b : EditBone) : R := sqrt (length_squared b).

(** Replace the bone a reference points at (bones are mutable objects). *)
Fixpoint replace_nth {A : Type} (n : nat) (x : A) (l : list A) : list A :=
  match l with
  | [] => []
  | y :: l' =>
      match n with
      | O => x :: l'
      | S n' => y :: replace_nth n' x l'
      end
  end.

Definition update_bone (b : nat) (f : EditBone -> EditBone) (rig : Rig) : Rig :=
  MkRig (replace_nth b (f (bone_at rig b)) (edit_bones rig)) (bone_dic rig)
        (bones rig).

(** *** The construction monad: state and exceptions *)

Definition M (A : Type) : Type := Rig -> result (A * Rig).

Definition ret {A : Type} (a : A) : M A := fun rig => Ok (a, rig).

Definition bindM {A B : Type} (m : M A) (k : A -> M B) : M B :=
  fun rig =>
    match m rig with
    | Ok (a, rig') => k a rig'
    | Err e => Err e
    end.

Definition lift {A : Type} (r : result A) : M A :=
  fun rig =>
    match r with
    | Ok a => Ok (a, rig)
    | Err e => Err e
    end.

Declare Scope arm_scope.

Delimit Scope arm_scope with arm.

Notation "x <- m ;; k" := (bindM m (fun x => k))
  (at level 61, m at next level, right associativity) : arm_scope.

Notation "' p <- m ;; k" := (bindM m (fun p => k))
  (at level 61, p pattern, m at next level, right associativity) : arm_scope.

Notation "m ;;; k" := (bindM m (fun _ => k))
  (at level 61, right associativity) : arm_scope.

(** Reading a field of a bone. *)
Definition read {A : Type} (field : EditBone -> A) (b : nat) : M A :=
  fun rig => Ok (field (bone_at rig b), rig).

(** Mutating a bone in place. *)
Definition modify (b : nat) (f : EditBone -> EditBone) : M unit :=
  fun rig => Ok (tt, update_bone b f rig).

(** *** The operator and its declared properties *)

(** [bpy.props.FloatProperty]: default, hard minimum and hard maximum as
    the class body declares them. *)
Record FloatProperty : Type := FloatProp {
  default : R;
  min : option R;
  max : option R
}.

Definition tall_prop := FloatProp 1.70 (Some 0.3) None.

Definition head_ratio_prop := FloatProp 8.0 (Some 4) None.

Definition head_width_ratio_prop := FloatProp (2 / 3) (Some 0.3) (Some 1.2).

Definition aging_ratio_prop := FloatProp 0.5 (Some 0) (Some 1).

Definition eye_depth_prop := FloatProp (-0.03) (Some (-0.1)) (Some 0).

Definition shoulder_in_width_prop := FloatProp 0.05 (Some 0.01) None.

Definition shoulder_width_prop := FloatProp 0.08 (Some 0.01) None.

Definition arm_length_ratio_prop := FloatProp 1 (Some 0.5) None.

Definition hand_ratio_prop := FloatProp 1 (Some 0.5) (Some 2.0).

Definition finger_1_2_ratio_prop := FloatProp 0.75 (Some 0.5) (Some 1).

Definition finger_2_3_ratio_prop := FloatProp 0.75 (Some 0.5) (Some 1).

Definition leg_length_ratio_prop := FloatProp 0.5 (Some 0.3) (Some 0.6).

Definition leg_width_ratio_prop := FloatProp 1 (Some 0.01) None.

Definition leg_size_prop := FloatProp 0.26 (Some 0.05) None.

(** The field values of one operator instance ([self]). *)
Record ICYP_OT_MAKE_ARMATURE : Type := Operator {
  WIP_with_template_mesh : bool;
  tall : R;
  head_ratio : R;
  head_width_ratio : R;
  aging_ratio : R;
  eye_depth : R;
  shoulder_in_width : R;
  shoulder_width : R;
  arm_length_ratio : R;
  hand_ratio : R;
  finger_1_2_ratio : R;
  finger_2_3_ratio : R;
  nail_bone : bool;
  leg_length_ratio : R;
  leg_width_ratio : R;
  leg_size : R
}.

(** The operator with every property at its default. *)
Definition default_operator : ICYP_OT_MAKE_ARMATURE :=
  Operator false
    (default tall_prop) (default head_ratio_prop)
    (default head_width_ratio_prop) (default aging_ratio_prop)
    (default eye_depth_prop) (default shoulder_in_width_prop)
    (default shoulder_width_prop) (default arm_length_ratio_prop)
    (default hand_ratio_prop) (default finger_1_2_ratio_prop)
    (default finger_2_3_ratio_prop) false
    (default leg_length_ratio_prop) (default leg_width_ratio_prop)
    (default leg_size_prop).

(** A declaration whose minimum does not exceed its maximum. *)
Definition well_declared (p : FloatProperty) : Prop :=
  match min p, max p with
  | Some lo, Some hi => lo <= hi
  | _, _ => True
  end.

(** [v] lies within the declared bounds of [p]. *)
Definition within (p : FloatProperty) (v : R) : Prop :=
  match min p with Some lo => lo <= v | None => True end /\
  match max p with Some hi => v <= hi | None => True end.

(** Every float field lies within its declared bounds. *)
Definition in_declared_range (self : ICYP_OT_MAKE_ARMATURE) : Prop :=
  within tall_prop (tall self) /\
  within head_ratio_prop (head_ratio self) /\
  within head_width_ratio_prop (head_width_ratio self) /\
  within aging_ratio_prop (aging_ratio self) /\
  within eye_depth_prop (eye_depth self) /\
  within shoulder_in_width_prop (shoulder_in_width self) /\
  within shoulder_width_prop (shoulder_width self) /\
  within arm_length_ratio_prop (arm_length_ratio self) /\
  within hand_ratio_prop (hand_ratio self) /\
  within finger_1_2_ratio_prop (finger_1_2_ratio self) /\
  within finger_2_3_ratio_prop (finger_2_3_ratio self) /\
  within leg_length_ratio_prop (leg_length_ratio self) /\
  within leg_width_ratio_prop (leg_width_ratio self) /\
  within leg_size_prop (leg_size self).

Definition head_size (self : ICYP_OT_MAKE_ARMATURE) : result R :=
  py_div (tall self) (head_ratio self).

Definition hand_size (self : ICYP_OT_MAKE_ARMATURE) : result R :=
  (hs <- head_size self ;; Ok (hs * 0.75 * hand_ratio self))%py.

(** *** The local helpers of [make_armature] *)

Definition bone_add (name : string) (head_pos tail_pos : vec3)
    (parent_bone : option nat) (radius : R) (roll : R) : M nat :=
  fun rig =>
    let added_bone := List.length (edit_bones rig) in
    let bone :=
      Bone name head_pos tail_pos radius radius 0.01 (radians roll)
           parent_bone in
    Ok (added_bone,
        MkRig (edit_bones rig ++ [bone])
              (Dict.update (bone_dic rig) [(name, added_bone)])
              (bones rig)).

(** [[pos * axis for pos, axis in zip(p, (-1, 1, 1))]] *)
Definition x_mirrored (p : vec3) : vec3 :=
  Vec (vx p * -1) (vy p * 1) (vz p * 1).

Definition x_mirror_bones_add (base_name : string)
    (right_head_pos right_tail_pos : vec3) (parent_bones : nat * nat)
    (radius : R) (bone_type : string) : M (nat * nat) :=
  (let right_roll := 0 in
   let left_roll := 0 in
   let '(right_roll, left_roll) :=
     if String.eqb bone_type "arm" then (180, left_roll)
     else if String.eqb bone_type "leg" then (90, 90)
     else (right_roll, left_roll) in
   left_bone <- bone_add (base_name ++ "_L") right_head_pos right_tail_pos
                  (Some (fst parent_bones)) radius left_roll ;;
   right_bone <- bone_add (base_name ++ "_R")
                   (x_mirrored right_head_pos) (x_mirrored right_tail_pos)
                   (Some (snd parent_bones)) radius right_roll ;;
   ret (left_bone, right_bone))%arm.

Definition x_add (pos_a : vec3) (add_x : R) : vec3 :=
  Vec (vx pos_a + add_x) (vy pos_a + 0) (vz pos_a + 0).

Definition y_add (pos_a : vec3) (add_y : R) : vec3 :=
  Vec (vx pos_a + 0) (vy pos_a + add_y) (vz pos_a + 0).

Definition z_add (pos_a : vec3) (add_z : R) : vec3 :=
  Vec (vx pos_a + 0) (vy pos_a + 0) (vz pos_a + add_z).

(** The three segment lengths [fingers] derives from the length budget:
    proximal, intermediate, distal. *)
Definition finger_lens (self : ICYP_OT_MAKE_ARMATURE) (finger_len_sum : R)
  : result (R * R * R) :=
  (finger_normalize <-
     py_div 1 (finger_1_2_ratio self * finger_2_3_ratio self
               + finger_1_2_ratio self + 1) ;;
   let proximal_finger_len := finger_len_sum * finger_normalize in
   let intermediate_finger_len :=
     finger_len_sum * finger_normalize * finger_1_2_ratio self in
   let distal_finger_len :=
     finger_len_sum * finger_normalize * finger_1_2_ratio self
     * finger_2_3_ratio self in
   Ok (proximal_finger_len, intermediate_finger_len, distal_finger_len))%py.

Definition fingers (self : ICYP_OT_MAKE_ARMATURE) (hands : nat * nat)
    (finger_name : string) (proximal_pos : vec3) (finger_len_sum : R)
  : M ((nat * nat) * (nat * nat) * (nat * nat)) :=
  ('(proximal_finger_len, intermediate_finger_len, distal_finger_len) <-
     lift (finger_lens self finger_len_sum) ;;
   radius <- lift (hs <- hand_size self ;; Ok (hs / 18))%py ;;
   proximal_bones <-
     x_mirror_bones_add (finger_name ++ "_proximal") proximal_pos
       (x_add proximal_pos proximal_finger_len) hands radius "arm" ;;
   proximal_tail <- read tail (fst proximal_bones) ;;
   radius <- lift (hs <- hand_size self ;; Ok (hs / 18))%py ;;
   intermediate_bones <-
     x_mirror_bones_add (finger_name ++ "_intermediate") proximal_tail
       (x_add proximal_tail intermediate_finger_len) proximal_bones
       radius "arm" ;;
   intermediate_tail <- read tail (fst intermediate_bones) ;;
   radius <- lift (hs <- hand_size self ;; Ok (hs / 18))%py ;;
   distal_bones <-
     x_mirror_bones_add (finger_name ++ "_distal") intermediate_tail
       (x_add intermediate_tail distal_finger_len) intermediate_bones
       radius "arm" ;;
   (if nail_bone self then
      distal_tail <- read tail (fst distal_bones) ;;
      radius <- lift (hs <- hand_size self ;; Ok (hs / 20))%py ;;
      x_mirror_bones_add (finger_name ++ "_nail") distal_tail
        (x_add distal_tail distal_finger_len) distal_bones radius "arm" ;;;
      ret tt
    else ret tt) ;;;
   ret (proximal_bones, intermediate_bones, distal_bones))%arm.

(** [matrix.median_scale]: the length the matrix gives to the unit vector
    along the diagonal (1, 1, 1). *)
Definition median_scale (m : Matrix) : R :=
  let unit_vec :=
    mat3_apply (block m) (Vec (1 / sqrt 3) (1 / sqrt 3) (1 / sqrt 3)) in
  sqrt (dot unit_vec unit_vec).

(** [bone.transform(matrix)] moves head and tail and multiplies both radii
    by the scale of the matrix.  (Blender also re-derives the roll, which
    the caller overwrites.) *)
Definition transform (m : Matrix) (b : EditBone) : EditBone :=
  let scalar := median_scale m in
  Bone (name b) (Matrix_apply m (head b)) (Matrix_apply m (tail b))
       (head_radius b * scalar) (tail_radius b * scalar)
       (envelope_distance b) (roll b) (parent b).

Definition set_roll (r : R) (b : EditBone) : EditBone :=
  Bone (name b) (head b) (tail b) (head_radius b) (tail_radius b)
       (envelope_distance b) r (parent b).

(** [pair[i]] for [i] in 0, 1 *)
Definition pick {A : Type} (pair : A * A) (i : nat) : A :=
  match i with
  | O => fst pair
  | _ => snd pair
  end.

(** [finger[j]] for [j] in 0, 1, 2: the proximal, intermediate and distal
    pairs *)
Definition segment {A : Type} (finger : A * A * A) (j : nat) : A :=
  match j with
  | O => fst (fst finger)
  | S O => snd (fst finger)
  | _ => snd finger
  end.

Fixpoint for_each {A : Type} (items : list A) (body : A -> M unit) : M unit :=
  match items with
  | [] => ret tt
  | x :: rest => (body x ;;; for_each rest body)%arm
  end.

Definition enumerate {A : Type} (items : list A) : list (nat * A) :=
  combine (seq 0 (List.length items)) items.

(** The thumb correction: each thumb bone is turned about the Z axis
    through the head of its side's proximal bone, by -45 degrees on the
    left and +45 degrees on the right, and its roll is reset. *)
Definition thumb_correction
    (thumbs : (nat * nat) * (nat * nat) * (nat * nat)) : M unit :=
  (origin_l <- read head (pick (segment thumbs 0) 0) ;;
   origin_r <- read head (pick (segment thumbs 0) 1) ;;
   let mats := (Matrix_Translation origin_l, Matrix_Translation origin_r) in
   for_each (seq 0 3) (fun j =>
     for_each (enumerate [-45; 45]) (fun '(n, angle) =>
       inv <- lift (inverted (pick mats n)) ;;
       modify (pick (segment thumbs j) n) (transform inv) ;;;
       modify (pick (segment thumbs j) n)
              (transform (Matrix_Rotation_Z (radians angle))) ;;;
       modify (pick (segment thumbs j) n) (transform (pick mats n)) ;;;
       modify (pick (segment thumbs j) n)
              (set_roll (pick (0, radians 180) n)))))%arm.

(** The bones [make_armature] keeps in local variables. *)
Record Skeleton : Type := MkSkeleton {
  root : nat;
  hips : nat;
  spine : nat;
  chest : nat;
  neck : nat;
  head_bone : nat;
  eyes : nat * nat;
  upside_legs : nat * nat;
  lower_legs : nat * nat;
  foots : nat * nat;
  toes : nat * nat;
  shoulders : nat * nat;
  arms : nat * nat;
  forearms : nat * nat;
  hands : nat * nat;
  thumbs : (nat * nat) * (nat * nat) * (nat * nat);
  index_fingers : (nat * nat) * (nat * nat) * (nat * nat);
  middle_fingers : (nat * nat) * (nat * nat) * (nat * nat);
  ring_fingers : (nat * nat) * (nat * nat) * (nat * nat);
  little_fingers : (nat * nat) * (nat * nat) * (nat * nat)
}.

(** *** The name table *)

Definition body_dict (rig : Rig) (sk : Skeleton) : Dict.t string :=
  Dict.of_items
    [ ("hips", name (bone_at rig (hips sk)));
      ("spine", name (bone_at rig (spine sk)));
      ("chest", name (bone_at rig (chest sk)));
      ("neck", name (bone_at rig (neck sk)));
      ("head", name (bone_at rig (head_bone sk))) ].

Definition left_right_body_items (rig : Rig) (sk : Skeleton)
  : list (string * string) :=
  flat_map
    (fun '(bone_name, bones) =>
       map (fun '(lr, left_right) =>
              ((left_right ++ bone_name)%string, name (bone_at rig (pick bones lr))))
           (enumerate ["left"; "right"]))
    (Dict.of_items
       [ ("Eye", eyes sk);
         ("UpperLeg", upside_legs sk);
         ("LowerLeg", lower_legs sk);
         ("Foot", foots sk);
         ("Toes", toes sk);
         ("Shoulder", shoulders sk);
         ("UpperArm", arms sk);
         ("LowerArm", forearms sk);
         ("Hand", hands sk) ]).

Definition left_right_body_dict (rig : Rig) (sk : Skeleton) : Dict.t string :=
  Dict.of_items (left_right_body_items rig sk).

Definition fingers_items (rig : Rig) (sk : Skeleton)
  : list (string * string) :=
  flat_map
    (fun '(finger_name, finger) =>
       flat_map
         (fun '(i, position) =>
            map (fun '(lr, left_right) =>
                   ((left_right ++ finger_name ++ position)%string,
                    name (bone_at rig (pick (segment finger i) lr))))
                (enumerate ["left"; "right"]))
         (enumerate ["Proximal"; "Intermediate"; "Distal"]))
    (combine
       ["Thumb"; "Index"; "Middle"; "Ring"; "Little"]
       [ thumbs sk; index_fingers sk; middle_fingers sk; ring_fingers sk;
         little_fingers sk ]).

Definition fingers_dict (rig : Rig) (sk : Skeleton) : Dict.t string :=
  Dict.of_items (fingers_items rig sk).

(** [bone_name_all_dict]: VRM bone name to Blender bone name. *)
Definition bone_name_all_dict (rig : Rig) (sk : Skeleton) : Dict.t string :=
  let d := [] in
  let d := Dict.update d (body_dict rig sk) in
  let d := Dict.update d (left_right_body_dict rig sk) in
  Dict.update d (fingers_dict rig sk).

(** *** [make_armature]

    The bones, in the order the method creates them. *)
Definition make_bones (self : ICYP_OT_MAKE_ARMATURE) : M Skeleton :=
  (root <- bone_add "root" (Vec 0 0 0) (Vec 0 0 0.3) None 0.1 0 ;;
   head_size_ <- lift (head_size self) ;;
   let eight_upside_ratio := 1 - leg_length_ratio self in
   let four_upside_ratio :=
     (2.5 / 4) * (1 - aging_ratio self)
     + (1 - leg_length_ratio self) * aging_ratio self in
   let hip_up_down_ratio :=
     eight_upside_ratio * (1 - (8 - head_ratio self) / 4)
     + four_upside_ratio * (8 - head_ratio self) / 4 in
   let body_separate := tall self * (1 - hip_up_down_ratio) in
   let neck_len := head_size_ * 2 / 3 in
   let hips_tall := body_separate + head_size_ * 3 / 4 in
   let backbone_len := tall self - hips_tall - head_size_ - neck_len / 2 in
   let chest_len := backbone_len * 12 / 17 in
   let spine_len := backbone_len * 5 / 17 in
   hips <- bone_add "Hips" (Vec 0 0 body_separate) (Vec 0 0 hips_tall)
             (Some root) 0.1 90 ;;
   hips_tail <- read tail hips ;;
   spine <- bone_add "Spine" hips_tail (z_add hips_tail spine_len)
              (Some hips) 0.1 (-90) ;;
   spine_tail <- read tail spine ;;
   hips_tail <- read tail hips ;;
   chest <- bone_add "Chest" spine_tail (z_add hips_tail backbone_len)
              (Some spine) 0.1 (-90) ;;
   neck <- bone_add "Neck"
             (Vec 0 0 (tall self - head_size_ - neck_len / 2))
             (Vec 0 0 (tall self - head_size_ + neck_len / 2))
             (Some chest) 0.1 (-90) ;;
   head_bone <- bone_add "Head"
                  (Vec 0 0 (tall self - head_size_ + neck_len / 2))
                  (Vec 0 0 (tall self))
                  (Some neck) 0.1 (-90) ;;
   let eye_depth_ := eye_depth self in
   eyes <- x_mirror_bones_add "eye"
             (Vec (head_size_ * head_width_ratio self / 5) 0
                  (tall self - head_size_ / 2))
             (Vec (head_size_ * head_width_ratio self / 5) eye_depth_
                  (tall self - head_size_ / 2))
             (head_bone, head_bone) 0.1 "other" ;;
   let leg_width := head_size_ / 4 * leg_width_ratio self in
   let leg_size_ := leg_size self in
   let leg_bone_length :=
     (body_separate + head_size_ * 3 / 8 - tall self * 0.05) / 2 in
   upside_legs <- x_mirror_bones_add "Upper_Leg"
                    (x_add (Vec 0 0 (body_separate + head_size_ * 3 / 8))
                           leg_width)
                    (x_add (z_add (Vec 0 0 (body_separate + head_size_ * 3 / 8))
                                  (- leg_bone_length))
                           leg_width)
                    (hips, hips) (leg_width * 0.9) "leg" ;;
   upside_tail <- read tail (pick upside_legs 0) ;;
   lower_legs <- x_mirror_bones_add "Lower_Leg" upside_tail
                   (Vec leg_width 0 (tall self * 0.05))
                   upside_legs (leg_width * 0.9) "leg" ;;
   lower_tail <- read tail (pick lower_legs 0) ;;
   foots <- x_mirror_bones_add "Foot" lower_tail
              (Vec leg_width (- leg_size_ * (2 / 3)) 0)
              lower_legs (leg_width * 0.9) "leg" ;;
   foot_tail <- read tail (pick foots 0) ;;
   toes <- x_mirror_bones_add "Toes" foot_tail
             (Vec leg_width (- leg_size_) 0)
             foots (leg_width * 0.5) "leg" ;;
   let shoulder_in_pos := shoulder_in_width self / 2 in
   let shoulder_parent := chest in
   parent_tail <- read tail shoulder_parent ;;
   hand_size_ <- lift (hand_size self) ;;
   shoulders <- x_mirror_bones_add "shoulder"
                  (x_add parent_tail shoulder_in_pos)
                  (x_add parent_tail (shoulder_in_pos + shoulder_width self))
                  (shoulder_parent, shoulder_parent)
                  (hand_size_ * 0.4) "arm" ;;
   let arm_length :=
     head_size_
     * (1 * (1 - (head_ratio self - 6) / 2)
        + 1.5 * ((head_ratio self - 6) / 2))
     * arm_length_ratio self in
   shoulder_tail <- read tail (pick shoulders 0) ;;
   hand_size_ <- lift (hand_size self) ;;
   arms <- x_mirror_bones_add "Arm" shoulder_tail
             (x_add shoulder_tail arm_length)
             shoulders (hand_size_ * 0.4) "arm" ;;
   hand_size_ <- lift (hand_size self) ;;
   let forearm_length := Rmax (arm_length - hand_size_ / 2) (arm_length * 0.8) in
   arm_tail <- read tail (pick arms 0) ;;
   hand_size_ <- lift (hand_size self) ;;
   forearms <- x_mirror_bones_add "forearm" arm_tail
                 (x_add arm_tail forearm_length)
                 arms (hand_size_ * 0.4) "arm" ;;
   forearm_tail <- read tail (pick forearms 0) ;;
   hand_size_ <- lift (hand_size self) ;;
   hands <- x_mirror_bones_add "hand" forearm_tail
              (x_add forearm_tail (hand_size_ / 2))
              forearms (hand_size_ / 4) "arm" ;;
   hand_size_ <- lift (hand_size self) ;;
   let finger_y_offset := - hand_size_ / 16 in
   hand_head <- read head (pick hands 0) ;;
   thumbs <- fingers self hands "finger_thumbs"
               (y_add hand_head (finger_y_offset * 3)) (hand_size_ / 2) ;;
   thumb_correction thumbs ;;;
   hand_tail <- read tail (pick hands 0) ;;
   index_fingers <- fingers self hands "finger_index"
                      (y_add hand_tail (finger_y_offset * 3))
                      ((hand_size_ / 2) - (1 / 2.3125) * (hand_size_ / 2) / 3) ;;
   middle_fingers <- fingers self hands "finger_middle"
                       (y_add hand_tail finger_y_offset) (hand_size_ / 2) ;;
   ring_fingers <- fingers self hands "finger_ring"
                     (y_add hand_tail (- finger_y_offset))
                     ((hand_size_ / 2) - (1 / 2.3125) * (hand_size_ / 2) / 3) ;;
   little_fingers <- fingers self hands "finger_little"
                       (y_add hand_tail (- finger_y_offset * 3))
                       (((hand_size_ / 2) - (1 / 2.3125) * (hand_size_ / 2) / 3)
                        * ((1 / 2.3125) + (1 / 2.3125) * 0.75)) ;;
   ret (MkSkeleton root hips spine chest neck head_bone eyes upside_legs
          lower_legs foots toes shoulders arms forearms hands thumbs
          index_fingers middle_fingers ring_fingers little_fingers))%arm.

(** *** Leaving edit mode

    [bpy.ops.object.mode_set(mode="OBJECT")] writes the edit bones to the
    armature.  Blender walks them in order and frees every bone whose
    squared length is at most the square of 0.000001; the children of a
    freed bone take its parent. *)
Definition zero_sized (b : EditBone) : bool :=
  if Rle_dec (length_squared b) (0.000001 * 0.000001) then true else false.

Definition set_parent (p : option nat) (b : EditBone) : EditBone :=
  Bone (name b) (head b) (tail b) (head_radius b) (tail_radius b)
       (envelope_distance b) (roll b) p.

Fixpoint remove_nth {A : Type} (n : nat) (l : list A) {struct l}
  : list A :=
  match l with
  | [] => []
  | y :: l' =>
      match n with
      | O => l'
      | S n' => y :: remove_nth n' l'
      end
  end.

(** Where position [j] is found once position [i] is gone. *)
Definition shifted (i j : nat) : nat :=
  if Nat.ltb i j then Nat.pred j else j.

(** The parent link [q] once bone [i], whose own parent was [p], is
    gone. *)
Definition relinked (i : nat) (p q : option nat) : option nat :=
  match q with
  | None => None
  | Some j =>
      if Nat.eqb j i then option_map (shifted i) p else Some (shifted i j)
  end.

Definition bone_free (i : nat) (l : list EditBone) : list EditBone :=
  let p := parent (nth i l null_bone) in
  map (fun b => set_parent (relinked i p (parent b)) b) (remove_nth i l).

(** The walk over the bones: [i] is the position looked at, [n] bounds
    the number of steps. *)
Fixpoint from_edit (n i : nat) (l : list EditBone) : list EditBone :=
  match n with
  | O => l
  | S n' =>
      match nth_error l i with
      | None => l
      | Some b =>
          if zero_sized b then from_edit n' i (bone_free i l)
          else from_edit n' (S i) l
      end
  end.

Definition mode_set_OBJECT (rig : Rig) : Rig :=
  MkRig (edit_bones rig) (bone_dic rig)
        (from_edit (List.length (edit_bones rig)) 0 (edit_bones rig)).

(** [make_armature]: a fresh armature, its bones, the name table, and
    back to object mode. *)
Definition make_armature (self : ICYP_OT_MAKE_ARMATURE)
  : result (Rig * Dict.t string) :=
  match make_bones self empty_rig with
  | Ok (sk, rig) =>
      let bone_name_all_dict := bone_name_all_dict rig sk in
      Ok (mode_set_OBJECT rig, bone_name_all_dict)
  | Err e => Err e
  end.

(** [setup_as_vrm]: the custom properties written on the armature data,
    one per row of the name table. *)
Definition setup_as_vrm (compare_dict : Dict.t string) : Dict.t string :=
  Dict.update [] compare_dict.

(** [execute]: build, attach the name table, make the template mesh when
    the flag asks for it, report "FINISHED".  The mesh maker is code of
    another module and is taken as a parameter: what it does with the
    operator and the armature, and whether it returns. *)
Definition execute
    (IcypTemplateMeshMaker : ICYP_OT_MAKE_ARMATURE -> Rig -> result unit)
    (self : ICYP_OT_MAKE_ARMATURE)
  : result (string * Rig * Dict.t string) :=
  ('(armature_obj, compare_dict) <- make_armature self ;;
   let props := setup_as_vrm compare_dict in
   _mesh <- (if WIP_with_template_mesh self
         then IcypTemplateMeshMaker self armature_obj
         else Ok tt) ;;
   Ok ("FINISHED", armature_obj, props))%py.

(** *** Setting the properties

    [bpy.props.FloatProperty(min=..., max=...)] declares hard limits: a
    value assigned beyond one is stored as that limit, and nothing is
    raised. *)
Definition assigned (p : FloatProperty) (v : R) : R :=
  let v := match min p with Some lo => Rmax lo v | None => v end in
  match max p with Some hi => Rmin hi v | None => v end.

(** The operator Blender sets up from the values supplied for its
    properties. *)
Definition with_properties (supplied : ICYP_OT_MAKE_ARMATURE)
  : ICYP_OT_MAKE_ARMATURE :=
  Operator (WIP_with_template_mesh supplied)
    (assigned tall_prop (tall supplied))
    (assigned head_ratio_prop (head_ratio supplied))
    (assigned head_width_ratio_prop (head_width_ratio supplied))
    (assigned aging_ratio_prop (aging_ratio supplied))
    (assigned eye_depth_prop (eye_depth supplied))
    (assigned shoulder_in_width_prop (shoulder_in_width supplied))
    (assigned shoulder_width_prop (shoulder_width supplied))
    (assigned arm_length_ratio_prop (arm_length_ratio supplied))
    (assigned hand_ratio_prop (hand_ratio supplied))
    (assigned finger_1_2_ratio_prop (finger_1_2_ratio supplied))
    (assigned finger_2_3_ratio_prop (finger_2_3_ratio supplied))
    (nail_bone supplied)
    (assigned leg_length_ratio_prop (leg_length_ratio supplied))
    (assigned leg_width_ratio_prop (leg_width_ratio supplied))
    (assigned leg_size_prop (leg_size supplied)).

(** Calling the operator with values for its properties. *)
Definition invoke
    (IcypTemplateMeshMaker : ICYP_OT_MAKE_ARMATURE -> Rig -> result unit)
    (supplied : ICYP_OT_MAKE_ARMATURE)
  : result (string * Rig * Dict.t string) :=
  execute IcypTemplateMeshMaker (with_properties supplied).

(** *** Notions the theorems are stated with *)

(** The rigs that a sequence of [bone_add] calls builds from nothing. *)
Inductive built : Rig -> Prop :=
| built_empty : built empty_rig
| built_add (rig rig' : Rig) (name : string) (head_pos tail_pos : vec3)
            (parent_bone : option nat) (radius roll : R) (b : nat) :
    built rig ->
    bone_add name head_pos tail_pos parent_bone radius roll rig = Ok (b, rig') ->
    built rig'.

(** *** The names Blender gives

    [edit_bones.new(name)] gives the bone the name asked when no bone of
    the armature has it, and else a name that no bone has ("root.001" for
    a second "root").  How that name is chosen is Blender's business and
    is taken as a parameter. *)
Section BoneNames.

Variable unique_name : list string -> string -> string.

(** The names the bones [l] have in Blender: each bone is named as it is
    created, against the names of the bones before it. *)
Definition blender_names (l : list EditBone) : list string :=
  fold_left (fun used b => used ++ [unique_name used (name b)]) l [].

End BoneNames.

(** All of [l], one after the other. *)
Fixpoint joined (l : list string) : string :=
  match l with
  | [] => EmptyString
  | s :: l' => (s ++ joined l')%string
  end.

(** One way of choosing names: a name in use is followed by a dot and by
    all the names in use. *)
Definition dotted (used : list string) (n : string) : string :=
  if existsb (String.eqb n) used then (n ++ "." ++ joined used)%string else n.

(** [may_raise allowed m]: from every rig, [m] returns or raises an
    exception among [allowed]. *)
Definition may_raise {A : Type} (allowed : py_error -> Prop) (m : M A) : Prop :=
  forall rig,
    match m rig with
    | Ok _ => True
    | Err e => allowed e
    end.

Definition nothing : py_error -> Prop := fun _ => False.

Definition only_ZeroDivisionError : py_error -> Prop :=
  fun e => e = ZeroDivisionError.

(** The normalising divisor of [fingers]. *)
Definition finger_divisor (self : ICYP_OT_MAKE_ARMATURE) : R :=
  finger_1_2_ratio self * finger_2_3_ratio self + finger_1_2_ratio self + 1.

(** [keeps_lengths m]: [m] returns, and leaves the number of bones and
    the squared length of every bone as they were. *)
Definition keeps_lengths (m : M unit) : Prop :=
  forall rig,
    exists rig',
      m rig = Ok (tt, rig') /\
      List.length (edit_bones rig') = List.length (edit_bones rig) /\
      forall b, length_squared (bone_at rig' b) = length_squared (bone_at rig b).

(** The keys of the name table, in insertion order. *)
Definition bone_name_all_keys : list string :=
  [ "hips"; "spine"; "chest"; "neck"; "head";
    "leftEye"; "rightEye"; "leftUpperLeg"; "rightUpperLeg";
    "leftLowerLeg"; "rightLowerLeg"; "leftFoot"; "rightFoot";
    "leftToes"; "rightToes"; "leftShoulder"; "rightShoulder";
    "leftUpperArm"; "rightUpperArm"; "leftLowerArm"; "rightLowerArm";
    "leftHand"; "rightHand";
    "leftThumbProximal"; "rightThumbProximal";
    "leftThumbIntermediate"; "rightThumbIntermediate";
    "leftThumbDistal"; "rightThumbDistal";
    "leftIndexProximal"; "rightIndexProximal";
    "leftIndexIntermediate"; "rightIndexIntermediate";
    "leftIndexDistal"; "rightIndexDistal";
    "leftMiddleProximal"; "rightMiddleProximal";
    "leftMiddleIntermediate"; "rightMiddleIntermediate";
    "leftMiddleDistal"; "rightMiddleDistal";
    "leftRingProximal"; "rightRingProximal";
    "leftRingIntermediate"; "rightRingIntermediate";
    "leftRingDistal"; "rightRingDistal";
    "leftLittleProximal"; "rightLittleProximal";
    "leftLittleIntermediate"; "rightLittleIntermediate";
    "leftLittleDistal"; "rightLittleDistal" ].

(** The default values, but for a [tall] of 10 cm: below the declared
    minimum of [tall], 0.3. *)
Definition short_operator : ICYP_OT_MAKE_ARMATURE :=
  Operator false
    0.1 (default head_ratio_prop)
    (default head_width_ratio_prop) (default aging_ratio_prop)
    (default eye_depth_prop) (default shoulder_in_width_prop)
    (default shoulder_width_prop) (default arm_length_ratio_prop)
    (default hand_ratio_prop) (default finger_1_2_ratio_prop)
    (default finger_2_3_ratio_prop) false
    (default leg_length_ratio_prop) (default leg_width_ratio_prop)
    (default leg_size_prop).

(** *** Notions about the synthesized rig *)

(** The outline of a rig: name and parent of each bone, in creation
    order. *)
Definition outline (rig : Rig) : list (string * option nat) :=
  map (fun b => (name b, parent b)) (edit_bones rig).

(** Every entry from position [i] on has a parent at an earlier position,
    but for the entry at position 0, which has none. *)
Fixpoint parents_earlier (i : nat) (l : list (string * option nat)) : bool :=
  match l with
  | [] => true
  | (_, p) :: l' =>
      match p with
      | None => Nat.eqb i 0
      | Some q => Nat.ltb q i
      end && parents_earlier (S i) l'
  end.

(** In the bones [l], following parent links from bone [i] arrives at
    bone 0. *)
Inductive reaches_root (l : list EditBone) : nat -> Prop :=
| reaches_root_here : reaches_root l 0
| reaches_root_up (i p : nat) (b : EditBone) :
    nth_error l i = Some b ->
    parent b = Some p ->
    reaches_root l p ->
    reaches_root l i.

(** The first bone of [l] has no parent, and every other bone has a
    parent that comes before it. *)
Definition parents_first (l : list EditBone) : Prop :=
  forall i b,
    nth_error l i = Some b ->
    match parent b with
    | None => i = 0%nat
    | Some p => (p < i)%nat
    end.

(** A bone without its parent link. *)
Definition unlinked (b : EditBone) : EditBone := set_parent None b.

(** The bones of [l] that leaving edit mode does not free. *)
Definition kept (l : list EditBone) : list EditBone :=
  filter (fun b => negb (zero_sized b)) l.

(** A step that leaves the outline as it is. *)
Definition keeps_outline {A : Type} (m : M A) : Prop :=
  forall rig a rig', m rig = Ok (a, rig') -> outline rig' = outline rig.

(** The entries [fingers] adds to the outline of a rig of [n] bones. *)
Definition finger_outline (finger_name : string) (hands : nat * nat)
    (n : nat) (nail : bool) : list (string * option nat) :=
  [ (((finger_name ++ "_proximal") ++ "_L")%string, Some (fst hands));
    (((finger_name ++ "_proximal") ++ "_R")%string, Some (snd hands));
    (((finger_name ++ "_intermediate") ++ "_L")%string, Some n);
    (((finger_name ++ "_intermediate") ++ "_R")%string, Some (S n));
    (((finger_name ++ "_distal") ++ "_L")%string, Some (n + 2)%nat);
    (((finger_name ++ "_distal") ++ "_R")%string, Some (n + 3)%nat) ]
  ++ (if nail
      then [ (((finger_name ++ "_nail") ++ "_L")%string, Some (n + 4)%nat);
             (((finger_name ++ "_nail") ++ "_R")%string, Some (n + 5)%nat) ]
      else []).

(** The name table [make_armature] returns: VRM bone name, Blender bone
    name. *)
Definition synthesized_bone_names : Dict.t string :=
  [ ("hips", "Hips");
    ("spine", "Spine");
    ("chest", "Chest");
    ("neck", "Neck");
    ("head", "Head");
    ("leftEye", "eye_L");
    ("rightEye", "eye_R");
    ("leftUpperLeg", "Upper_Leg_L");
    ("rightUpperLeg", "Upper_Leg_R");
    ("leftLowerLeg", "Lower_Leg_L");
    ("rightLowerLeg", "Lower_Leg_R");
    ("leftFoot", "Foot_L");
    ("rightFoot", "Foot_R");
    ("leftToes", "Toes_L");
    ("rightToes", "Toes_R");
    ("leftShoulder", "shoulder_L");
    ("rightShoulder", "shoulder_R");
    ("leftUpperArm", "Arm_L");
    ("rightUpperArm", "Arm_R");
    ("leftLowerArm", "forearm_L");
    ("rightLowerArm", "forearm_R");
    ("leftHand", "hand_L");
    ("rightHand", "hand_R");
    ("leftThumbProximal", "finger_thumbs_proximal_L");
    ("rightThumbProximal", "finger_thumbs_proximal_R");
    ("leftThumbIntermediate", "finger_thumbs_intermediate_L");
    ("rightThumbIntermediate", "finger_thumbs_intermediate_R");
    ("leftThumbDistal", "finger_thumbs_distal_L");
    ("rightThumbDistal", "finger_thumbs_distal_R");
    ("leftIndexProximal", "finger_index_proximal_L");
    ("rightIndexProximal", "finger_index_proximal_R");
    ("leftIndexIntermediate", "finger_index_intermediate_L");
    ("rightIndexIntermediate", "finger_index_intermediate_R");
    ("leftIndexDistal", "finger_index_distal_L");
    ("rightIndexDistal", "finger_index_distal_R");
    ("leftMiddleProximal", "finger_middle_proximal_L");
    ("rightMiddleProximal", "finger_middle_proximal_R");
    ("leftMiddleIntermediate", "finger_middle_intermediate_L");
    ("rightMiddleIntermediate", "finger_middle_intermediate_R");
    ("leftMiddleDistal", "finger_middle_distal_L");
    ("rightMiddleDistal", "finger_middle_distal_R");
    ("leftRingProximal", "finger_ring_proximal_L");
    ("rightRingProximal", "finger_ring_proximal_R");
    ("leftRingIntermediate", "finger_ring_intermediate_L");
    ("rightRingIntermediate", "finger_ring_intermediate_R");
    ("leftRingDistal", "finger_ring_distal_L");
    ("rightRingDistal", "finger_ring_distal_R");
    ("leftLittleProximal", "finger_little_proximal_L");
    ("rightLittleProximal", "finger_little_proximal_R");
    ("leftLittleIntermediate", "finger_little_intermediate_L");
    ("rightLittleIntermediate", "finger_little_intermediate_R");
    ("leftLittleDistal", "finger_little_distal_L");
    ("rightLittleDistal", "finger_little_distal_R") ].

(** The bones [make_armature] creates before the fingers: name and parent,
    in creation order. *)
Definition body_outline : list (string * option nat) :=
  [ ("root", None);
    ("Hips", Some 0%nat);
    ("Spine", Some 1%nat);
    ("Chest", Some 2%nat);
    ("Neck", Some 3%nat);
    ("Head", Some 4%nat);
    ("eye_L", Some 5%nat);
    ("eye_R", Some 5%nat);
    ("Upper_Leg_L", Some 1%nat);
    ("Upper_Leg_R", Some 1%nat);
    ("Lower_Leg_L", Some 8%nat);
    ("Lower_Leg_R", Some 9%nat);
    ("Foot_L", Some 10%nat);
    ("Foot_R", Some 11%nat);
    ("Toes_L", Some 12%nat);
    ("Toes_R", Some 13%nat);
    ("shoulder_L", Some 3%nat);
    ("shoulder_R", Some 3%nat);
    ("Arm_L", Some 16%nat);
    ("Arm_R", Some 17%nat);
    ("forearm_L", Some 18%nat);
    ("forearm_R", Some 19%nat);
    ("hand_L", Some 20%nat);
    ("hand_R", Some 21%nat) ].

(** The bones one call of [fingers] adds: 6, or 8 with nails. *)
Definition bones_per_finger (nail : bool) : nat :=
  if nail then 8%nat else 6%nat.

(** The three pairs [fingers] returns when the rig has [n] bones. *)
Definition finger_handles (n : nat)
  : (nat * nat) * (nat * nat) * (nat * nat) :=
  ((n, S n), (n + 2, n + 3), (n + 4, n + 5))%nat.

(** The outline of a synthesized rig. *)
Definition synthesized_outline (nail : bool) : list (string * option nat) :=
  (let k := bones_per_finger nail in
   body_outline
     ++ finger_outline "finger_thumbs" (22, 23) 24 nail
     ++ finger_outline "finger_index" (22, 23) (24 + k) nail
     ++ finger_outline "finger_middle" (22, 23) (24 + 2 * k) nail
     ++ finger_outline "finger_ring" (22, 23) (24 + 3 * k) nail
     ++ finger_outline "finger_little" (22, 23) (24 + 4 * k) nail)%nat.

(** The local variables of [make_armature] when it returns. *)
Definition synthesized_skeleton (nail : bool) : Skeleton :=
  (let k := bones_per_finger nail in
   MkSkeleton 0 1 2 3 4 5 (6, 7) (8, 9) (10, 11) (12, 13) (14, 15)
     (16, 17) (18, 19) (20, 21) (22, 23)
     (finger_handles 24) (finger_handles (24 + k))
     (finger_handles (24 + 2 * k)) (finger_handles (24 + 3 * k))
     (finger_handles (24 + 4 * k)))%nat.


(** *** The rig against the VRM humanoid hierarchy *)

(** [vrm_parent_in d child anc]: in [HumanBones.hierarchy], [anc] is the
    parent of [child], or its grandparent when the name table [d] has no
    bone for the parent. *)
Definition vrm_parent_in (d : Dict.t string) (child anc : string) : Prop :=
  HumanBones.parent_of child anc \/
  exists skipped,
    HumanBones.parent_of child skipped /\
    Dict.get d skipped = None /\
    HumanBones.parent_of skipped anc.

Definition vrm_parent_inb (d : Dict.t string) (child anc : string) : bool :=
  match Dict.get HumanBones.hierarchy child with
  | Some p1 =>
      String.eqb p1 anc
      || match Dict.get d p1 with
         | Some _ => false
         | None =>
             match Dict.get HumanBones.hierarchy p1 with
             | Some p2 => String.eqb p2 anc
             | None => false
             end
         end
  | None => false
  end.

(** In the outline [s], the bone named [bn] has a parent, and the table
    [d] gives the parent's name to a VRM parent of [child]. *)
Definition follows_vrm_parent (s : list (string * option nat))
    (d : Dict.t string) (child bn : string) : bool :=
  existsb
    (fun i =>
       match nth_error s i with
       | Some (n, Some p) =>
           if String.eqb n bn
           then match nth_error s p with
                | Some (pn, _) =>
                    existsb
                      (fun anc =>
                         match Dict.get d anc with
                         | Some an =>
                             if String.eqb an pn
                             then vrm_parent_inb d child anc
                             else false
                         | None => false
                         end)
                      (Dict.keys d)
                | None => false
                end
           else false
       | _ => false
       end)
    (seq 0 (List.length s)).


(** The bones [l] follow the VRM hierarchy through the name table [d]:
    the bone [d] gives to a VRM name other than "hips" has a parent in
    [l], and that is the bone [d] gives to the VRM parent of the name, or
    to its grandparent when [d] has no bone for the parent. *)
Definition follows_hierarchy (l : list EditBone) (d : Dict.t string) : Prop :=
  forall child bn,
    Dict.get d child = Some bn -> child <> "hips" ->
    exists i b p pb anc,
      nth_error l i = Some b /\ name b = bn /\
      parent b = Some p /\ nth_error l p = Some pb /\
      Dict.get d anc = Some (name pb) /\ vrm_parent_in d child anc.

(** *** Notions about the geometry of the synthesized rig *)

(** One thumb bone after its correction: turned by [angle] degrees about
    the vertical axis through [o], with roll [r]. *)
Definition turn (o : vec3) (angle r : R) (b : EditBone) : EditBone :=
  set_roll r
    (transform (Matrix_Translation o)
       (transform (Matrix_Rotation_Z (radians angle))
          (transform (Matrix_Translation (vscale (-1) o)) b))).

(** The bones after [modify b f]. *)
Definition replace_with (b : nat) (f : EditBone -> EditBone)
    (l : list EditBone) : list EditBone :=
  replace_nth b (f (nth b l null_bone)) l.

(** The bones after [thumb_correction thumbs]. *)
Definition turned (thumbs : (nat * nat) * (nat * nat) * (nat * nat))
    (l : list EditBone) : list EditBone :=
  let origin_l := head (nth (pick (segment thumbs 0) 0) l null_bone) in
  let origin_r := head (nth (pick (segment thumbs 0) 1) l null_bone) in
  fold_left
    (fun acc j =>
       replace_with (pick (segment thumbs j) 1)
         (turn origin_r 45 (radians 180))
         (replace_with (pick (segment thumbs j) 0)
            (turn origin_l (-45) 0) acc))
    (seq 0 3) l.

(** [b] is the mirror image of [a]: the names differ in the side suffix,
    the end points are reflected in the plane x = 0, the radii agree. *)
Definition mirror_of (a b : EditBone) : Prop :=
  (exists base, name a = (base ++ "_L")%string /\
                name b = (base ++ "_R")%string) /\
  head b = x_mirrored (head a) /\
  tail b = x_mirrored (tail a) /\
  head_radius b = head_radius a /\
  tail_radius b = tail_radius a.

(** The bones of [l], taken two by two, are mirror images. *)
Fixpoint pairs_mirrored (l : list EditBone) : Prop :=
  match l with
  | a :: b :: rest => mirror_of a b /\ pairs_mirrored rest
  | _ => True
  end.

(** The bones that are not placed at the end of their parent: those
    that begin a limb, the neck, whose place is computed from the height
    and not read from the chest, and the nail bones of the thumbs. *)
Definition chain_heads : list string :=
  [ "Hips"; "Neck"; "eye_L"; "eye_R"; "Upper_Leg_L"; "Upper_Leg_R";
    "shoulder_L"; "shoulder_R";
    "finger_thumbs_proximal_L"; "finger_thumbs_proximal_R";
    "finger_index_proximal_L"; "finger_index_proximal_R";
    "finger_middle_proximal_L"; "finger_middle_proximal_R";
    "finger_ring_proximal_L"; "finger_ring_proximal_R";
    "finger_little_proximal_L"; "finger_little_proximal_R";
    "finger_thumbs_nail_L"; "finger_thumbs_nail_R" ].

(** [b] is among [chain_heads], or starts where its parent in [l] ends. *)
Definition starts_at_parent (l : list EditBone) (b : EditBone) : Prop :=
  match parent b with
  | None => True
  | Some p =>
      In (name b) chain_heads \/
      exists pb, nth_error l p = Some pb /\ head b = tail pb
  end.

Definition center_bones : list string :=
  ["root"; "Hips"; "Spine"; "Chest"; "Neck"; "Head"].

Definition sole_bones : list string :=
  ["Foot_L"; "Foot_R"; "Toes_L"; "Toes_R"].

Definition named (names : list string) (b : EditBone) : bool :=
  existsb (String.eqb (name b)) names.

(** [b] is placed as an upright figure of height [tall] has it: a centre
    bone lies on the vertical axis, the root starts at the origin, the
    head ends at height [tall], feet and toes end on the ground. *)
Definition upright (self : ICYP_OT_MAKE_ARMATURE) (b : EditBone) : Prop :=
  (if named center_bones b
   then vx (head b) = 0 /\ vy (head b) = 0 /\
        vx (tail b) = 0 /\ vy (tail b) = 0
   else True) /\
  (if named ["root"] b then head b = Vec 0 0 0 else True) /\
  (if named ["Head"] b then tail b = Vec 0 0 (tall self) else True) /\
  (if named sole_bones b then vz (tail b) = 0 else True).

(** In [l], the nail bone of the thumb on [side] hangs from the distal
    bone of that thumb, and starts away from the end of it. *)
Definition thumb_nail_detached (l : list EditBone) (side : string) : Prop :=
  exists i distal nail,
    nth_error l i = Some distal /\
    name distal = ("finger_thumbs_distal" ++ side)%string /\
    In nail l /\
    name nail = ("finger_thumbs_nail" ++ side)%string /\
    parent nail = Some i /\
    head nail <> tail distal.

(** In [l], the hand measures [len]: that is the distance along x from
    the head of the hand bone to the end of the distal bone of the middle
    finger, on the left and on the right. *)
Definition hand_measures (l : list EditBone) (len : R) : Prop :=
  exists hand_l tip_l hand_r tip_r,
    In hand_l l /\ name hand_l = "hand_L" /\
    In tip_l l /\ name tip_l = "finger_middle_distal_L" /\
    In hand_r l /\ name hand_r = "hand_R" /\
    In tip_r l /\ name tip_r = "finger_middle_distal_R" /\
    vx (tail tip_l) - vx (head hand_l) = len /\
    vx (head hand_r) - vx (tail tip_r) = len.

(** [hand_measures] up to the part [tol] of [len]. *)
Definition hand_measures_within (tol : R) (l : list EditBone) (len : R)
  : Prop :=
  exists hand_l tip_l hand_r tip_r,
    In hand_l l /\ name hand_l = "hand_L" /\
    In tip_l l /\ name tip_l = "finger_middle_distal_L" /\
    In hand_r l /\ name hand_r = "hand_R" /\
    In tip_r l /\ name tip_r = "finger_middle_distal_R" /\
    Rabs (vx (tail tip_l) - vx (head hand_l) - len) <= tol * Rabs len /\
    Rabs (vx (head hand_r) - vx (tail tip_r) - len) <= tol * Rabs len.

(** In [l] the first bone is the root, from the origin to 0.3 above it,
    and the eye bones, at places 6 and 7, are as long as the eyes are
    deep. *)
Definition root_and_eyes (self : ICYP_OT_MAKE_ARMATURE) (l : list EditBone)
  : Prop :=
  (exists r,
      nth_error l 0 = Some r /\ name r = "root" /\
      head r = Vec 0 0 0 /\ tail r = Vec 0 0 0.3) /\
  (exists eye_l eye_r,
      nth_error l 6 = Some eye_l /\ name eye_l = "eye_L" /\
      nth_error l 7 = Some eye_r /\ name eye_r = "eye_R" /\
      length_squared eye_l = eye_depth self * eye_depth self /\
      length_squared eye_r = eye_depth self * eye_depth self).

(** The default operator, with nail bones. *)
Definition nailed_operator : ICYP_OT_MAKE_ARMATURE :=
  Operator false
    (default tall_prop) (default head_ratio_prop)
    (default head_width_ratio_prop) (default aging_ratio_prop)
    (default eye_depth_prop) (default shoulder_in_width_prop)
    (default shoulder_width_prop) (default arm_length_ratio_prop)
    (default hand_ratio_prop) (default finger_1_2_ratio_prop)
    (default finger_2_3_ratio_prop) true
    (default leg_length_ratio_prop) (default leg_width_ratio_prop)
    (default leg_size_prop).


(** *** [make_extension_setting_and_metas]

    The custom properties of the armature object and the text blocks of
    the file. *)

(** The class attributes the method dumps into text blocks. *)
Inductive param_table : Type :=
| humanoid_params
| first_person_params
| blendshape_group
| spring_bone_prams.

Section ArmatureObject.

(** The values a custom property can hold, and [str] among them. *)
Variable IDProperty : Type.

Variable of_str : string -> IDProperty.

(** The name [bpy.data.texts.new(name)] gives the new block, from the
    names in use and the name asked for (Blender renames on a clash). *)
Variable texts_new : list string -> string -> string.

(** [texts]: name and content of each text block, the content being
    [json.dumps] of one of the tables. *)
Record Scene : Type := MkScene {
  texts : list (string * param_table);
  armature_name : string;
  armature_props : Dict.t IDProperty
}.

(** [if key not in armature: armature[key] = value] *)
Definition set_default (key : string) (value : IDProperty) (s : Scene)
  : Scene :=
  if negb (Dict.mem (armature_props s) key)
  then MkScene (texts s) (armature_name s)
         (Dict.set (armature_props s) key value)
  else s.

Definition write_textblock_and_assign_to_armature
    (block_name : string) (value : param_table) (s : Scene) : Scene :=
  let text_block_name :=
    texts_new (map fst (texts s))
      (armature_name s ++ "_" ++ block_name ++ ".json") in
  let s := MkScene (texts s ++ [(text_block_name, value)])
             (armature_name s) (armature_props s) in
  set_default block_name (of_str text_block_name) s.

Definition vrm_metas : list string :=
  [ "version"; "author"; "contactInformation"; "reference"; "title";
    "otherPermissionUrl"; "otherLicenseUrl" ].

Definition required_vrm_metas : Dict.t string :=
  Dict.of_items
    [ ("allowedUserName", "OnlyAuthor");
      ("violentUssageName", "Disallow");
      ("sexualUssageName", "Disallow");
      ("commercialUssageName", "Disallow");
      ("licenseName", "Redistribution_Prohibited") ].

Definition make_extension_setting_and_metas (s : Scene) : Scene :=
  let s := write_textblock_and_assign_to_armature
             "humanoid_params" humanoid_params s in
  let s := write_textblock_and_assign_to_armature
             "firstPerson_params" first_person_params s in
  let s := write_textblock_and_assign_to_armature
             "blendshape_group" blendshape_group s in
  let s := write_textblock_and_assign_to_armature
             "spring_bone" spring_bone_prams s in
  let s := fold_left (fun s v => set_default v (of_str "undefined") s)
             vrm_metas s in
  fold_left (fun s kv => set_default (fst kv) (of_str (snd kv)) s)
    required_vrm_metas s.

(** [fill items d]: each item written unless its key is present. *)
Definition fill (items : list (string * IDProperty)) (d : Dict.t IDProperty)
  : Dict.t IDProperty :=
  fold_left
    (fun d kv => if Dict.mem d (fst kv) then d else Dict.set d (fst kv) (snd kv))
    items d.

(** The text blocks one call creates, and the items it offers to the
    armature, from the scene it starts in. *)
Definition new_texts (s : Scene) : list (string * param_table) :=
  let n1 := texts_new (map fst (texts s))
              (armature_name s ++ "_" ++ "humanoid_params" ++ ".json") in
  let t1 := texts s ++ [(n1, humanoid_params)] in
  let n2 := texts_new (map fst t1)
              (armature_name s ++ "_" ++ "firstPerson_params" ++ ".json") in
  let t2 := t1 ++ [(n2, first_person_params)] in
  let n3 := texts_new (map fst t2)
              (armature_name s ++ "_" ++ "blendshape_group" ++ ".json") in
  let t3 := t2 ++ [(n3, blendshape_group)] in
  let n4 := texts_new (map fst t3)
              (armature_name s ++ "_" ++ "spring_bone" ++ ".json") in
  [ (n1, humanoid_params); (n2, first_person_params);
    (n3, blendshape_group); (n4, spring_bone_prams) ].

Definition offered (s : Scene) : list (string * IDProperty) :=
  combine
    ["humanoid_params"; "firstPerson_params"; "blendshape_group"; "spring_bone"]
    (map (fun t => of_str (fst t)) (new_texts s))
    ++ map (fun v => (v, of_str "undefined")) vrm_metas
    ++ map (fun kv => (fst kv, of_str (snd kv))) required_vrm_metas.

(** The keys the method may write. *)
Definition extension_keys : list string :=
  ["humanoid_params"; "firstPerson_params"; "blendshape_group"; "spring_bone"]
    ++ vrm_metas ++ Dict.keys required_vrm_metas.

End ArmatureObject.

Arguments texts {IDProperty} s.

Arguments fill {IDProperty} items d.

Arguments armature_name {IDProperty} s.

Arguments armature_props {IDProperty} s.

End Armature.

(** ** [vrm_types.normalize_weights_compatible_with_gl_float] *)

Module GlFloat.

Local Open Scope Z_scope.

(** *** Python floats: IEEE 754 binary64 *)

Definition float : Type := spec_float.

Definition prec64 : Z := 53.

Definition emax64 : Z := 1024.

Definition prec32 : Z := 24.

Definition emax32 : Z := 128.

(** The float of value [m * 2^e], rounded to nearest even. *)
Definition float_of (m e : Z) : float := binary_normalize prec64 emax64 m e false.

Definition zero : float := S754_zero false.

Definition one : float := float_of 1 0.

(** [sys.float_info.epsilon], 2^-52 *)
Definition epsilon : float := float_of 1 (-52).

Definition add (x y : float) : float := SFadd prec64 emax64 x y.

Definition sub (x y : float) : float := SFsub prec64 emax64 x y.

Definition abs (x : float) : float := SFabs x.

(** [x < y] and [x >= y]; both are [False] when an operand is NaN. *)
Definition lt (x y : float) : bool := SFltb x y.

Definition ge (x y : float) : bool := SFleb y x.

Definition gt (x y : float) : bool := SFltb y x.

(** [x == y] *)
Definition eq (x y : float) : bool := SFeqb x y.

Definition is_zero (x : float) : bool :=
  match x with
  | S754_zero _ => true
  | _ => false
  end.

Definition is_nan (x : float) : bool :=
  match x with
  | S754_nan => true
  | _ => false
  end.

Definition is_inf (s : bool) (x : float) : bool :=
  match x with
  | S754_infinity s' => Bool.eqb s s'
  | _ => false
  end.

(** [x / y]: floats raise [ZeroDivisionError] on a zero divisor of either
    sign, whatever the dividend. *)
Definition truediv (x y : float) : result float :=
  if is_zero y then Err ZeroDivisionError
  else Ok (SFdiv prec64 emax64 x y).

(** *** The 32-bit transport format *)

(** Rounding to binary32, to nearest even. *)
Definition to_binary32 (x : float) : spec_float :=
  match x with
  | S754_finite s m e => binary_round prec32 emax32 s m e
  | _ => x
  end.

(** A binary32 value as a binary64 float (exact). *)
Definition of_binary32 (y : spec_float) : float :=
  match y with
  | S754_finite s m e => binary_round prec64 emax64 s m e
  | _ => y
  end.

(** [struct.unpack("<f", struct.pack("<f", x))]: packing raises
    [OverflowError] when a finite [x] rounds to an infinity. *)
Definition pack_unpack (x : float) : result float :=
  match x, to_binary32 x with
  | S754_finite _ _ _, S754_infinity _ => Err OverflowError
  | _, y => Ok (of_binary32 y)
  end.

(** A sequence of four floats. *)
Definition array4 : Type := float * float * float * float.

Definition items (w : array4) : list float :=
  let '(a, b, c, d) := w in [a; b; c; d].

Definition to_gl_float (array4_ : array4) : result array4 :=
  (let '(a, b, c, d) := array4_ in
   a' <- pack_unpack a ;;
   b' <- pack_unpack b ;;
   c' <- pack_unpack c ;;
   d' <- pack_unpack d ;;
   Ok (a', b', c', d'))%py.

(** *** [sum] and [math.fsum] *)

(** [sum(weights)]: from the integer 0, left to right, each addition
    rounded (the summation of CPython before 3.12). *)
Definition sum (w : array4) : float := fold_left add (items w) zero.

(** A finite float as an integer multiple of a power of two. *)
Definition exact (x : float) : Z * Z :=
  match x with
  | S754_finite s m e => (cond_Zopp s (Zpos m), e)
  | _ => (0, 0)
  end.

Definition exact_add (a b : Z * Z) : Z * Z :=
  let '(ma, ea) := a in
  let '(mb, eb) := b in
  if ma =? 0 then b
  else if mb =? 0 then a
  else
    let e := Z.min ea eb in
    (ma * 2 ^ (ea - e) + mb * 2 ^ (eb - e), e).

Definition round_exact (a : Z * Z) : float := float_of (fst a) (snd a).

(** The running exact sums of finite summands: [OverflowError]
    ("intermediate overflow") when one of them is beyond the floats. *)
Fixpoint exact_sum (acc : Z * Z) (xs : list float) : result (Z * Z) :=
  match xs with
  | [] => Ok acc
  | x :: xs' =>
      let acc' := exact_add acc (exact x) in
      match round_exact acc' with
      | S754_infinity _ => Err OverflowError
      | _ => exact_sum acc' xs'
      end
  end.

(** [math.fsum]: the exact sum, rounded once.  Infinities of both signs
    raise [ValueError]; otherwise a NaN summand gives NaN and an infinite
    one that infinity. *)
Definition fsum (xs : list float) : result float :=
  if existsb (is_inf false) xs && existsb (is_inf true) xs
  then Err ValueError
  else if existsb is_nan xs then Ok S754_nan
  else if existsb (is_inf false) xs then Ok (S754_infinity false)
  else if existsb (is_inf true) xs then Ok (S754_infinity true)
  else (s <- exact_sum (0, 0) xs ;; Ok (round_exact s))%py.

(** *** The normalisation *)

(** [abs(sum(weights) - 1.0) < float_info.epsilon] *)
Definition sums_to_one (weights : array4) : bool :=
  lt (abs (sub (sum weights) one)) epsilon.

(** [[weights[i] / sum(weights) for i in range(4)]] *)
Definition quotients (weights : array4) : result array4 :=
  (let '(a, b, c, d) := weights in
   a' <- truediv a (sum weights) ;;
   b' <- truediv b (sum weights) ;;
   c' <- truediv c (sum weights) ;;
   d' <- truediv d (sum weights) ;;
   Ok (a', b', c', d'))%py.

(** [abs(1 - math.fsum(weights))] *)
Definition sum_error (weights : array4) : result float :=
  (s <- fsum (items weights) ;; Ok (abs (sub one s)))%py.

(** One round of the loop body: the next weights when they are adopted,
    [None] on [break]. *)
Definition refine_round (weights : array4) : result (option array4) :=
  (q <- quotients weights ;;
   next_weights <- to_gl_float q ;;
   error <- sum_error weights ;;
   next_error <- sum_error next_weights ;;
   if ge error epsilon && gt error next_error
   then Ok (Some next_weights)
   else Ok None)%py.

(** [for _ in range(rounds): ...] *)
Fixpoint refine (rounds : nat) (weights : array4) : result array4 :=
  match rounds with
  | O => Ok weights
  | S rounds' =>
      (step <- refine_round weights ;;
       match step with
       | Some next_weights => refine rounds' next_weights
       | None => Ok weights
       end)%py
  end.

Definition normalize_weights_compatible_with_gl_float (weights : array4)
  : result array4 :=
  if sums_to_one weights then Ok weights
  else (weights' <- to_gl_float weights ;; refine 10 weights')%py.

(** Equality of two results of the normalisation, component by component
    with the float [==]. *)
Definition array4_eq (u v : array4) : bool :=
  let '(a, b, c, d) := u in
  let '(a', b', c', d') := v in
  eq a a' && eq b b' && eq c c' && eq d d'.

(** The float of an integer. *)
Definition of_int (z : Z) : float := float_of z 0.

(** The three exceptions the normalisation can raise. *)
Definition arithmetic_error (e : py_error) : Prop :=
  e = ZeroDivisionError \/ e = OverflowError \/ e = ValueError.

(** *** Notions the theorems are stated with *)

(** The number of rounds of the loop that adopt a new tuple. *)
Fixpoint adoptions (rounds : nat) (weights : array4) : nat :=
  match rounds with
  | O => O
  | S rounds' =>
      match refine_round weights with
      | Ok (Some next_weights) => S (adoptions rounds' next_weights)
      | _ => O
      end
  end.

(** The refinement has come to rest at [r]: [r] is returned at once, or
    a round of the loop started from [r] ends in [break]. *)
Definition settled (r : array4) : Prop :=
  sums_to_one r = true \/ refine_round r = Ok None.

Definition has_nan (w : array4) : bool := existsb is_nan (items w).

Definition w_1_5_20_43 : array4 := (of_int 1, of_int 5, of_int 20, of_int 43).

Definition w_0_0_1_2 : array4 := (zero, zero, of_int 1, of_int 2).

(** *** Notions about non-negative weights *)

(** A weight that is a zero or a positive number. *)
Definition is_nonnegative (x : float) : bool :=
  match x with
  | S754_zero _ => true
  | S754_finite s _ _ => negb s
  | _ => false
  end.

Definition nonnegative (w : array4) : bool := forallb is_nonnegative (items w).

Definition w_halves : array4 :=
  (float_of 1 (-1), float_of 1 (-1), float_of 1 (-1), float_of 1 (-1)).

(** The magnitude of a finite float. *)
Definition fmag (x : float) : Z :=
  match x with
  | S754_finite _ m e => Zdigits2 (Zpos m) + e
  | _ => 0
  end.

Definition nonzero (x : float) : Prop :=
  match x with
  | S754_finite _ _ _ => True
  | _ => False
  end.

(** A zero, or a positive float of at most 53 bits whose magnitude lies
    between [lo] and [hi]. *)
Definition within_mag (lo hi : Z) (x : float) : Prop :=
  match x with
  | S754_zero _ => True
  | S754_finite s m e =>
      s = false /\ Zdigits2 (Zpos m) <= 53 /\
      lo <= Zdigits2 (Zpos m) + e <= hi
  | _ => False
  end.

(** The weights the loop works on: 32-bit floats that are not negative,
    and not all zero. *)
Definition workable (w : array4) : Prop :=
  Forall (within_mag (-148) 129) (items w) /\ Exists nonzero (items w).

End GlFloat.

(** * Theorems *)

(** ** Dicts: keys after an update *)

Module DictFacts.

Import Dict.

Section WithValue.

Context {V : Type}.

Lemma keys_set_in (d : t V) (k : string) (v : V) :
  In k (keys d) -> keys (set d k v) = keys d.
Proof.
  induction d as [| [k' v'] d IH]; simpl; intros Hin.
  - contradiction.
  - destruct (String.eqb_spec k' k) as [-> | Hne]; simpl.
    + reflexivity.
    + destruct Hin as [Heq | Hin]; [congruence |].
      f_equal. apply IH. exact Hin.
Qed.

Lemma keys_set_notin (d : t V) (k : string) (v : V) :
  ~ In k (keys d) -> keys (set d k v) = keys d ++ [k].
Proof.
  induction d as [| [k' v'] d IH]; simpl; intros Hnin.
  - reflexivity.
  - destruct (String.eqb_spec k' k) as [-> | Hne]; simpl.
    + exfalso. apply Hnin. left. reflexivity.
    + f_equal. apply IH. intros Hin. apply Hnin. right. exact Hin.
Qed.

Lemma set_keys_NoDup (d : t V) (k : string) (v : V) :
  NoDup (keys d) -> NoDup (keys (set d k v)).
Proof.
  intros Hnd.
  destruct (in_dec string_dec k (keys d)) as [Hin | Hnin].
  - rewrite keys_set_in by exact Hin. exact Hnd.
  - rewrite keys_set_notin by exact Hnin.
    apply NoDup_app; [exact Hnd | repeat constructor; simpl; tauto |].
    intros x Hx [<- | []]. exact (Hnin Hx).
Qed.

Lemma get_set_same (d : t V) (k : string) (v : V) :
  get (set d k v) k = Some v.
Proof.
  induction d as [| [k' v'] d IH]; simpl.
  - rewrite String.eqb_refl. reflexivity.
  - destruct (String.eqb_spec k' k) as [-> | Hne]; simpl.
    + rewrite String.eqb_refl. reflexivity.
    + destruct (String.eqb_spec k' k); [contradiction | exact IH].
Qed.

Lemma get_Some_in_keys (d : t V) (k : string) (v : V) :
  get d k = Some v -> In k (keys d).
Proof.
  induction d as [| [k' v'] d IH]; simpl; intros H.
  - discriminate H.
  - destruct (String.eqb_spec k' k) as [-> | Hne].
    + left. reflexivity.
    + right. apply IH. exact H.
Qed.

Lemma in_keys_get (d : t V) (k : string) :
  In k (keys d) -> exists v, get d k = Some v.
Proof.
  induction d as [| [k' v'] d IH]; simpl; intros H.
  - contradiction.
  - destruct (String.eqb_spec k' k) as [-> | Hne].
    + eexists. reflexivity.
    + destruct H as [Heq | Hin]; [contradiction |]. apply IH. exact Hin.
Qed.

Lemma existsb_eqb_In (k : string) (ks : list string) :
  existsb (String.eqb k) ks = true <-> In k ks.
Proof.
  rewrite existsb_exists. split.
  - intros [x [Hin Heq]]. apply String.eqb_eq in Heq. subst x. exact Hin.
  - intros Hin. exists k. split; [exact Hin | apply String.eqb_refl].
Qed.

Lemma keys_set (d : t V) (k : string) (v : V) :
  keys (set d k v) = add_key (keys d) k.
Proof.
  unfold add_key. destruct (existsb (String.eqb k) (keys d)) eqn:E.
  - apply keys_set_in. apply existsb_eqb_In. exact E.
  - apply keys_set_notin. intros Hin. apply existsb_eqb_In in Hin.
    congruence.
Qed.

Lemma keys_update (items : list (string * V)) :
  forall d : t V,
    keys (update d items) = fold_left add_key (map fst items) (keys d).
Proof.
  unfold update. induction items as [| [k v] items IH]; intros d; simpl.
  - reflexivity.
  - rewrite IH. rewrite keys_set. reflexivity.
Qed.

End WithValue.

End DictFacts.

(** ** The humanoid hierarchy is a tree *)

Module HumanBonesFacts.

Import HumanBones.

Lemma depth_below_hips_sound (fuel : nat) :
  forall n d, depth_below_hips fuel n = Some d ->
              nth_ancestor d n = Some "hips" /\ ascends n "hips".
Proof.
  induction fuel as [| fuel IH]; intros n d; cbn [depth_below_hips].
  - destruct (String.eqb_spec n "hips") as [-> | _]; [| discriminate].
    intros [= <-]. split; [reflexivity | constructor].
  - destruct (String.eqb_spec n "hips") as [-> | _].
    + intros [= <-]. split; [reflexivity | constructor].
    + destruct (Dict.get hierarchy n) as [p |] eqn:Hp; [| discriminate].
      destruct (depth_below_hips fuel p) as [d' |] eqn:Hd; [| discriminate].
      cbn [option_map]. intros [= <-]. destruct (IH p d' Hd) as [Hn Ha].
      split.
      * cbn [nth_ancestor]. rewrite Hp. exact Hn.
      * apply ascends_up with p; assumption.
Qed.

Lemma hips_is_top : Dict.get hierarchy "hips" = None.
Proof. reflexivity. Qed.

Lemma ascends_from_hips (a : string) : ascends "hips" a -> a = "hips".
Proof.
  intros H. inversion H as [| c p a' Hp _]; subst.
  - reflexivity.
  - unfold parent_of in Hp. rewrite hips_is_top in Hp. discriminate Hp.
Qed.

Lemma ascends_trans (a b c : string) :
  ascends a b -> ascends b c -> ascends a c.
Proof.
  induction 1 as [n | x p y Hp _ IH]; intros Hbc.
  - exact Hbc.
  - apply ascends_up with p; [exact Hp | apply IH; exact Hbc].
Qed.

(** Parent links are a function of the child, so a name from which "hips"
    is reached lies on no cycle. *)
Lemma ascends_hips_no_cycle (n : string) :
  ascends n "hips" -> ~ on_cycle n.
Proof.
  intros H. remember "hips" as root eqn:Hroot.
  induction H as [n | c p a Hp Hasc IH]; intros [q [Hq Hback]].
  - subst n. unfold parent_of in Hq. rewrite hips_is_top in Hq.
    discriminate Hq.
  - subst a. unfold parent_of in Hp, Hq.
    assert (q = p) by congruence. subst q.
    apply IH; [reflexivity |].
    inversion Hback as [| x p' y Hp' Hrest]; subst.
    + exists c. split; [exact Hp | constructor].
    + exists p'. split; [exact Hp' |].
      apply ascends_trans with c; [exact Hrest |].
      apply ascends_up with p; [exact Hp | constructor].
Qed.

Lemma schema_names_well_placed : forallb well_placed schema_names = true.
Proof. vm_compute. reflexivity. Qed.

(** C6. The hierarchy table over [requires] and [defines] is a tree rooted
    at "hips": "hips" has no parent entry, every other schema name is
    written exactly once as a key, and from every schema name the parent
    links arrive at "hips" after finitely many steps, without a cycle. *)
Theorem hierarchy_tree_rooted_at_hips :
  Dict.get hierarchy "hips" = None /\
  times_as_key "hips" = 0 /\
  (forall n, In n schema_names -> n <> "hips" -> times_as_key n = 1) /\
  (forall n, In n schema_names ->
     (exists d, nth_ancestor d n = Some "hips") /\
     ascends n "hips" /\ ~ on_cycle n).
Proof.
  pose proof schema_names_well_placed as Hall.
  rewrite forallb_forall in Hall.
  split; [exact hips_is_top |].
  split; [reflexivity |].
  split.
  - intros n Hin Hne. specialize (Hall n Hin).
    unfold well_placed in Hall.
    apply andb_prop in Hall. destruct Hall as [Hkey _].
    apply orb_prop in Hkey. destruct Hkey as [Hh | Hk].
    + apply String.eqb_eq in Hh. contradiction.
    + apply Nat.eqb_eq. exact Hk.
  - intros n Hin. specialize (Hall n Hin).
    unfold well_placed in Hall.
    apply andb_prop in Hall. destruct Hall as [_ Hd].
    destruct (depth_below_hips (List.length hierarchy_items) n) as [d |] eqn:E;
      [| discriminate Hd].
    destruct (depth_below_hips_sound _ _ _ E) as [Hn Ha].
    split; [exists d; exact Hn |].
    split; [exact Ha | apply ascends_hips_no_cycle; exact Ha].
Qed.

(** *** The vocabulary and the table agree *)

Lemma no_repeat_NoDup (l : list string) : no_repeat l = true -> NoDup l.
Proof.
  induction l as [| x l IH]; cbn [no_repeat]; intros H.
  - constructor.
  - apply andb_prop in H. destruct H as [Hx Hl]. constructor.
    + intros Hin. apply DictFacts.existsb_eqb_In in Hin.
      rewrite Hin in Hx. discriminate Hx.
    + apply IH. exact Hl.
Qed.

Lemma has_item_In (c p : string) :
  has_item c p = true <-> In (c, p) hierarchy_items.
Proof.
  unfold has_item. rewrite existsb_exists. split.
  - intros [[c' p'] [Hin H]]. cbn [fst snd] in H.
    apply andb_prop in H. destruct H as [Hc Hp].
    apply String.eqb_eq in Hc. apply String.eqb_eq in Hp. subst. exact Hin.
  - intros Hin. exists (c, p). split; [exact Hin |]. cbn [fst snd].
    rewrite !String.eqb_refl. reflexivity.
Qed.

Lemma is_schema_name_In (n : string) :
  is_schema_name n = true <-> In n schema_names.
Proof. unfold is_schema_name. apply DictFacts.existsb_eqb_In. Qed.

(** X1.  The vocabulary and the hierarchy table are consistent: no name is
    listed twice in [requires] and [defines] together (so the two share
    none); the table's keys are exactly the schema names other than "hips";
    and every parent in the table is a schema name. *)
Theorem schema_vocabulary_consistent :
  NoDup (requires ++ defines) /\
  (forall n, In n (map fst hierarchy_items) <->
             In n (requires ++ defines) /\ n <> "hips") /\
  (forall c p, In (c, p) hierarchy_items -> In p (requires ++ defines)).
Proof.
  split; [| split].
  - apply no_repeat_NoDup. vm_compute. reflexivity.
  - assert (Hkeys : forallb (fun k => is_schema_name k && negb (String.eqb k "hips"))
                            (map fst hierarchy_items) = true)
      by (vm_compute; reflexivity).
    assert (Hnames : forallb (fun n => String.eqb n "hips"
                                       || existsb (String.eqb n) (map fst hierarchy_items))
                             schema_names = true)
      by (vm_compute; reflexivity).
    rewrite forallb_forall in Hkeys, Hnames.
    intros n. split.
    + intros Hin. specialize (Hkeys n Hin).
      apply andb_prop in Hkeys. destruct Hkeys as [Hs Hh].
      split; [apply is_schema_name_In; exact Hs |].
      intros ->. discriminate Hh.
    + intros [Hin Hne]. specialize (Hnames n Hin).
      apply orb_prop in Hnames. destruct Hnames as [Hh | Hk].
      * apply String.eqb_eq in Hh. contradiction.
      * apply DictFacts.existsb_eqb_In. exact Hk.
  - assert (Hpar : forallb (fun kv => is_schema_name (snd kv)) hierarchy_items
                   = true) by (vm_compute; reflexivity).
    rewrite forallb_forall in Hpar.
    intros c p Hin. apply is_schema_name_In. exact (Hpar (c, p) Hin).
Qed.

(** X2.  The vocabulary and the hierarchy are the same on both sides of the
    body: exchanging "left" and "right" maps [requires] into [requires],
    [defines] into [defines], and each child-parent row of the table to
    another row of the table. *)
Theorem hierarchy_left_right_symmetric :
  (forall n, In n requires -> In (other_side n) requires) /\
  (forall n, In n defines -> In (other_side n) defines) /\
  (forall c p, In (c, p) hierarchy_items ->
               In (other_side c, other_side p) hierarchy_items) /\
  (forall n, In n (requires ++ defines) -> other_side (other_side n) = n).
Proof.
  assert (Hreq : forallb (fun n => existsb (String.eqb (other_side n)) requires)
                         requires = true) by (vm_compute; reflexivity).
  assert (Hdef : forallb (fun n => existsb (String.eqb (other_side n)) defines)
                         defines = true) by (vm_compute; reflexivity).
  assert (Hrow : forallb (fun kv => has_item (other_side (fst kv))
                                             (other_side (snd kv)))
                         hierarchy_items = true) by (vm_compute; reflexivity).
  assert (Hinv : forallb (fun n => String.eqb (other_side (other_side n)) n)
                         schema_names = true) by (vm_compute; reflexivity).
  rewrite forallb_forall in Hreq, Hdef, Hrow, Hinv.
  split; [| split; [| split]].
  - intros n Hin. apply DictFacts.existsb_eqb_In. exact (Hreq n Hin).
  - intros n Hin. apply DictFacts.existsb_eqb_In. exact (Hdef n Hin).
  - intros c p Hin. apply has_item_In. exact (Hrow (c, p) Hin).
  - intros n Hin. apply String.eqb_eq. exact (Hinv n Hin).
Qed.

End HumanBonesFacts.

(** ** The nested getter *)

Module JsonFacts.

Import Json.

Lemma make_json_return_value_id (v : json) : make_json_return_value v = v.
Proof. destruct v; reflexivity. Qed.

Lemma list_item_path_step (items : list json) (i : Z) :
  list_item items i = path_step (JList items) (AInt i).
Proof.
  unfold list_item, path_step.
  destruct (Z.leb_spec 0 i) as [H0 | H0];
    destruct (Z.ltb_spec i 0) as [H1 | H1]; try lia;
    destruct (Z.ltb_spec i (Z.of_nat (List.length items))) as [H2 | H2];
    destruct (Z.leb_spec (Z.of_nat (List.length items)) i) as [H3 | H3];
    try lia; reflexivity.
Qed.

Lemma path_step_JNone (a : attr) : path_step JNone a = None.
Proof. destruct a; reflexivity. Qed.

Lemma getter_nonempty_path (attrs : list attr) :
  forall (j : json) (a : attr) (default : json),
    nested_json_value_getter j (a :: attrs) default =
    Ok (match path_value j (a :: attrs) with
        | Some v => v
        | None => default
        end).
Proof.
  induction attrs as [| b attrs IH]; intros j a default.
  - destruct j as [| b0 | z | f | s | items | items]; destruct a as [i | k];
      cbn [nested_json_value_getter path_value path_step];
      try reflexivity.
    + rewrite list_item_path_step. cbn [path_step].
      destruct (if (i <? 0)%Z then None
                else if (Z.of_nat (List.length items) <=? i)%Z then None
                     else nth_error items (Z.to_nat i)) as [v |];
        [rewrite make_json_return_value_id |]; reflexivity.
    + destruct (Dict.get items k) as [v |];
        [rewrite make_json_return_value_id |]; reflexivity.
  - destruct j as [| b0 | z | f | s | items | items]; destruct a as [i | k];
      try reflexivity.
    + change (nested_json_value_getter (JList items) (AInt i :: b :: attrs) default)
        with (match list_item items i with
              | Some v => nested_json_value_getter v (b :: attrs) default
              | None => Ok default
              end).
      rewrite list_item_path_step.
      change (path_value (JList items) (AInt i :: b :: attrs))
        with (match path_step (JList items) (AInt i) with
              | Some v => path_value v (b :: attrs)
              | None => None
              end).
      destruct (path_step (JList items) (AInt i)) as [v |];
        [apply IH | reflexivity].
    + change (nested_json_value_getter (JDict items) (AStr k :: b :: attrs) default)
        with (match Dict.get items k with
              | Some v => nested_json_value_getter v (b :: attrs) default
              | None => Ok default
              end).
      change (path_value (JDict items) (AStr k :: b :: attrs))
        with (match Dict.get items k with
              | Some v => path_value v (b :: attrs)
              | None => None
              end).
      destruct (Dict.get items k) as [v |]; [apply IH | reflexivity].
Qed.

(** C10. For every JSON value and every non-empty attribute path the
    getter returns without raising: the value at the end of the path when
    every step matches, the default as soon as one does not (the value is
    [None], an index is out of range, a key is absent, the attribute does
    not fit the container).  On an empty path it returns the default for
    [None] and raises [IndexError] for every other value. *)
Theorem nested_json_value_getter_total :
  forall (j : json) (default : json),
    (forall a attrs,
        nested_json_value_getter j (a :: attrs) default =
        Ok (match path_value j (a :: attrs) with
            | Some v => v
            | None => default
            end)) /\
    (forall a attrs,
        path_step j a = None ->
        nested_json_value_getter j (a :: attrs) default = Ok default) /\
    nested_json_value_getter j [] default =
    match j with
    | JNone => Ok default
    | _ => Err IndexError
    end.
Proof.
  intros j default. split; [| split].
  - intros a attrs. apply getter_nonempty_path.
  - intros a attrs Hstep. rewrite getter_nonempty_path.
    cbn [path_value]. rewrite Hstep. reflexivity.
  - destruct j; reflexivity.
Qed.

(** *** [nested_json_list_getter] *)

(** X3.  For every non-empty path [nested_json_list_getter] returns without
    raising: the list at the end of the path, and the default when the path
    does not match or ends at something that is not a list. On an empty path
    it returns the default for [None] and raises [IndexError] for every
    other value. *)
Theorem nested_json_list_getter_spec (j : json) (default : list json) :
  (forall a attrs,
      nested_json_list_getter j (a :: attrs) default =
      Ok (match path_value j (a :: attrs) with
          | Some (JList l) => l
          | _ => default
          end)) /\
  nested_json_list_getter j [] default =
  match j with
  | JNone => Ok default
  | _ => Err IndexError
  end.
Proof.
  split.
  - intros a attrs. unfold nested_json_list_getter.
    rewrite getter_nonempty_path. cbn [bind].
    destruct (path_value j (a :: attrs)) as [[] |]; reflexivity.
  - destruct j; reflexivity.
Qed.

End JsonFacts.

(** ** The armature synthesizer *)

Module ArmatureFacts.

Import Armature.

Local Open Scope R_scope.

(** *** Facts about the numbers and the matrices *)

Lemma py_div_ok (x y : R) : y <> 0 -> py_div x y = Ok (x / y).
Proof.
  intros Hy. unfold py_div.
  destruct (Req_dec_T y 0) as [E | _]; [contradiction | reflexivity].
Qed.

Lemma py_div_by_zero (x : R) : py_div x 0 = Err ZeroDivisionError.
Proof.
  unfold py_div.
  destruct (Req_dec_T 0 0) as [_ | N]; [reflexivity | contradiction].
Qed.

Lemma py_div_Ok_inv (x y q : R) : py_div x y = Ok q -> y <> 0 /\ q = x / y.
Proof.
  unfold py_div. destruct (Req_dec_T y 0) as [E | N]; intros H.
  - discriminate H.
  - injection H as <-. split; [exact N | reflexivity].
Qed.

Lemma vec3_eq (a b : vec3) :
  vx a = vx b -> vy a = vy b -> vz a = vz b -> a = b.
Proof.
  destruct a, b; simpl; intros -> -> ->; reflexivity.
Qed.

Lemma x_mirrored_negates (p : vec3) :
  x_mirrored p = Vec (- vx p) (vy p) (vz p).
Proof. unfold x_mirrored. apply vec3_eq; simpl; lra. Qed.

(** The squared distance between two points. *)
Definition dist2 (a b : vec3) : R :=
  (vx b - vx a) * (vx b - vx a)
  + (vy b - vy a) * (vy b - vy a)
  + (vz b - vz a) * (vz b - vz a).

(** A matrix that keeps the distance between any two points. *)
Definition rigid (m : Matrix) : Prop :=
  forall a b, dist2 (Matrix_apply m a) (Matrix_apply m b) = dist2 a b.

Lemma rigid_Translation (v : vec3) : rigid (Matrix_Translation v).
Proof.
  intros a b. unfold dist2, Matrix_apply, Matrix_Translation, mat3_apply,
    vadd, dot, identity3. simpl. ring.
Qed.

Lemma rigid_Rotation_Z (angle : R) : rigid (Matrix_Rotation_Z angle).
Proof.
  intros a b. unfold dist2, Matrix_apply, Matrix_Rotation_Z, mat3_apply,
    vadd, dot. simpl.
  pose proof (sin2_cos2 angle) as H. unfold Rsqr in H.
  set (s := sin angle) in *. set (c := cos angle) in *.
  set (dx := vx b - vx a). set (dy := vy b - vy a). set (dz := vz b - vz a).
  replace (c * vx b + - s * vy b + 0 * vz b + 0
           - (c * vx a + - s * vy a + 0 * vz a + 0))
    with (c * dx - s * dy) by (unfold dx, dy; ring).
  replace (s * vx b + c * vy b + 0 * vz b + 0
           - (s * vx a + c * vy a + 0 * vz a + 0))
    with (s * dx + c * dy) by (unfold dx, dy; ring).
  replace (0 * vx b + 0 * vy b + 1 * vz b + 0
           - (0 * vx a + 0 * vy a + 1 * vz a + 0))
    with dz by (unfold dz; ring).
  replace ((c * dx - s * dy) * (c * dx - s * dy)
           + (s * dx + c * dy) * (s * dx + c * dy) + dz * dz)
    with ((s * s + c * c) * (dx * dx + dy * dy) + dz * dz) by ring.
  rewrite H. ring.
Qed.

Lemma inverted_Translation (v : vec3) :
  inverted (Matrix_Translation v) = Ok (Matrix_Translation (vscale (-1) v)).
Proof.
  unfold inverted.
  assert (Hdet : det3 (block (Matrix_Translation v)) = 1).
  { unfold det3, Matrix_Translation, identity3. simpl. ring. }
  rewrite Hdet.
  destruct (Req_dec_T 1 0) as [E | _]; [lra |].
  unfold Matrix_Translation. f_equal. f_equal.
  - unfold mat3_scale, adjugate3, identity3, vscale. simpl.
    f_equal; apply vec3_eq; simpl; lra.
  - unfold mat3_scale, adjugate3, identity3, vscale, mat3_apply, dot. simpl.
    apply vec3_eq; simpl; lra.
Qed.

Lemma transform_rigid_length (m : Matrix) (b : EditBone) :
  rigid m -> length_squared (transform m b) = length_squared b.
Proof.
  intros Hm. exact (Hm (head b) (tail b)).
Qed.

Lemma set_roll_length (r : R) (b : EditBone) :
  length_squared (set_roll r b) = length_squared b.
Proof. reflexivity. Qed.

(** *** Facts about the bone store *)

Lemma nth_replace_nth {A : Type} (n k : nat) (x d : A) (l : list A) :
  nth k (replace_nth n x l) d = nth k l d \/
  (k = n /\ nth k (replace_nth n x l) d = x).
Proof.
  revert n k. induction l as [| y l IH]; intros n k.
  - left. destruct n; reflexivity.
  - destruct n as [| n]; destruct k as [| k]; simpl.
    + right. split; reflexivity.
    + left. reflexivity.
    + left. reflexivity.
    + destruct (IH n k) as [H | [-> H]]; [left; exact H | right].
      split; [reflexivity | exact H].
Qed.

Lemma length_replace_nth {A : Type} (n : nat) (x : A) (l : list A) :
  List.length (replace_nth n x l) = List.length l.
Proof.
  revert n. induction l as [| y l IH]; intros [| n]; simpl; auto.
Qed.

Lemma bone_at_update_bone (b k : nat) (f : EditBone -> EditBone) (rig : Rig) :
  bone_at (update_bone b f rig) k = bone_at rig k \/
  bone_at (update_bone b f rig) k = f (bone_at rig k).
Proof.
  unfold bone_at, update_bone. simpl.
  destruct (nth_replace_nth b k (f (nth b (edit_bones rig) null_bone))
              null_bone (edit_bones rig)) as [H | [-> H]].
  - left. exact H.
  - right. exact H.
Qed.

Lemma bone_at_app_old (l extra : list EditBone) (d : Dict.t nat)
    (o : list EditBone) (k : nat) :
  (k < List.length l)%nat ->
  bone_at (MkRig (l ++ extra) d o) k = nth k l null_bone.
Proof.
  intros Hk. unfold bone_at. simpl. apply app_nth1. exact Hk.
Qed.

Lemma bone_at_app_new (l extra : list EditBone) (d : Dict.t nat)
    (o : list EditBone) (k : nat) :
  bone_at (MkRig (l ++ extra) d o) (List.length l + k) =
  nth k extra null_bone.
Proof.
  unfold bone_at. simpl. rewrite app_nth2 by lia.
  f_equal. lia.
Qed.

(** *** Finger segment lengths *)

Lemma finger_normalizer_positive (r1 r2 : R) :
  0 < r1 -> 0 < r2 -> 1 < r1 * r2 + r1 + 1.
Proof. intros H1 H2. nra. Qed.

(** C1, as stated, fails for a length budget of zero: the three lengths
    are then zero and the quotients of the claim are divisions by zero. *)
Lemma finger_ratio_undefined_for_zero_length :
  0 < finger_1_2_ratio default_operator <= 1 /\
  0 < finger_2_3_ratio default_operator <= 1 /\
  exists p i d,
    finger_lens default_operator 0 = Ok (p, i, d) /\
    p + i + d = 0 /\
    py_div d i = Err ZeroDivisionError /\
    py_div i p = Err ZeroDivisionError.
Proof.
  split; [simpl; lra |]. split; [simpl; lra |].
  unfold finger_lens. rewrite py_div_ok by (simpl; lra).
  eexists. eexists. eexists. split; [reflexivity |].
  split; [simpl; lra |].
  split.
  - replace (0 * _ * finger_1_2_ratio default_operator) with 0 by (simpl; lra).
    apply py_div_by_zero.
  - replace (0 * _) with 0 by lra. apply py_div_by_zero.
Qed.

(** C1 (amended).  For ratios [r1], [r2] in (0, 1] and any length budget
    [L], [fingers] derives the lengths [L*k], [L*k*r1] and [L*k*r1*r2] with
    [k = 1 / (r1*r2 + r1 + 1)]; they add up to [L], each is the ratio times
    the one before, and when [L] is not zero the quotients
    distal/intermediate and intermediate/proximal are [r2] and [r1]. *)
Theorem finger_lens_sum_and_ratios (self : ICYP_OT_MAKE_ARMATURE) (L : R) :
  0 < finger_1_2_ratio self <= 1 ->
  0 < finger_2_3_ratio self <= 1 ->
  exists p i d,
    finger_lens self L = Ok (p, i, d) /\
    p = L * (1 / (finger_1_2_ratio self * finger_2_3_ratio self
                  + finger_1_2_ratio self + 1)) /\
    i = p * finger_1_2_ratio self /\
    d = i * finger_2_3_ratio self /\
    p + i + d = L /\
    (L <> 0 ->
     py_div d i = Ok (finger_2_3_ratio self) /\
     py_div i p = Ok (finger_1_2_ratio self)).
Proof.
  intros [H1 _] [H2 _].
  set (r1 := finger_1_2_ratio self) in *.
  set (r2 := finger_2_3_ratio self) in *.
  pose proof (finger_normalizer_positive r1 r2 H1 H2) as Hden.
  unfold finger_lens. fold r1 r2.
  rewrite py_div_ok by lra. cbn [bind].
  set (k := 1 / (r1 * r2 + r1 + 1)).
  assert (Hk : k * (r1 * r2 + r1 + 1) = 1) by (unfold k; field; lra).
  assert (Hkpos : 0 < k).
  { unfold k. apply Rdiv_lt_0_compat; lra. }
  exists (L * k), (L * k * r1), (L * k * r1 * r2).
  split; [reflexivity |].
  split; [reflexivity |].
  split; [reflexivity |].
  split; [reflexivity |].
  split.
  - replace (L * k + L * k * r1 + L * k * r1 * r2)
      with (L * (k * (r1 * r2 + r1 + 1))) by ring.
    rewrite Hk. ring.
  - intros HL.
    assert (Hp : L * k <> 0) by (apply Rmult_integral_contrapositive; split; lra).
    assert (Hi : L * k * r1 <> 0)
      by (apply Rmult_integral_contrapositive; split; lra).
    split.
    + rewrite py_div_ok by exact Hi. f_equal. field. repeat split; lra.
    + rewrite py_div_ok by exact Hp. f_equal. field. split; lra.
Qed.

Lemma finger_lens_default_operator :
  0 < finger_1_2_ratio default_operator <= 1 /\
  0 < finger_2_3_ratio default_operator <= 1 /\
  exists p i d,
    finger_lens default_operator 0.1 = Ok (p, i, d) /\
    p + i + d = 0.1 /\
    py_div d i = Ok 0.75 /\
    py_div i p = Ok 0.75.
Proof.
  assert (H1 : 0 < finger_1_2_ratio default_operator <= 1) by (simpl; lra).
  assert (H2 : 0 < finger_2_3_ratio default_operator <= 1) by (simpl; lra).
  split; [exact H1 |]. split; [exact H2 |].
  destruct (finger_lens_sum_and_ratios default_operator 0.1 H1 H2)
    as (p & i & d & Hrun & _ & _ & _ & Hsum & Hratio).
  exists p, i, d.
  split; [exact Hrun |]. split; [exact Hsum |].
  apply Hratio. lra.
Defined.

(** *** The mirroring primitive *)

(** C2.  [x_mirror_bones_add] never fails.  It appends two bones: first
    the left one, named [base_name ++ "_L"], at exactly the given head and
    tail; then the right one, named [base_name ++ "_R"], at the given head
    and tail with the x coordinate negated.  The two have the same
    length. *)
Theorem x_mirror_bones_add_spec
    (base_name : string) (right_head_pos right_tail_pos : vec3)
    (parent_bones : nat * nat) (radius : R) (bone_type : string) (rig : Rig) :
  exists rig',
    let left_bone := List.length (edit_bones rig) in
    let right_bone := S (List.length (edit_bones rig)) in
    x_mirror_bones_add base_name right_head_pos right_tail_pos parent_bones
      radius bone_type rig = Ok ((left_bone, right_bone), rig') /\
    edit_bones rig' =
      edit_bones rig ++ [bone_at rig' left_bone; bone_at rig' right_bone] /\
    name (bone_at rig' left_bone) = (base_name ++ "_L")%string /\
    head (bone_at rig' left_bone) = right_head_pos /\
    tail (bone_at rig' left_bone) = right_tail_pos /\
    name (bone_at rig' right_bone) = (base_name ++ "_R")%string /\
    head (bone_at rig' right_bone) =
      Vec (- vx right_head_pos) (vy right_head_pos) (vz right_head_pos) /\
    tail (bone_at rig' right_bone) =
      Vec (- vx right_tail_pos) (vy right_tail_pos) (vz right_tail_pos) /\
    bone_length (bone_at rig' left_bone) = bone_length (bone_at rig' right_bone).
Proof.
  destruct rig as [l dic obj].
  unfold x_mirror_bones_add. cbn zeta.
  destruct (if String.eqb bone_type "arm" then (180, 0)
            else if String.eqb bone_type "leg" then (90, 90) else (0, 0))
    as [right_roll left_roll].
  unfold bindM, bone_add, ret. cbn [edit_bones bone_dic bones fst snd].
  rewrite length_app. cbn [List.length].
  replace (List.length l + 1)%nat with (S (List.length l)) by lia.
  eexists. split; [reflexivity |].
  rewrite <- app_assoc. cbn [app].
  assert (HL : forall d x y,
             bone_at (MkRig (l ++ [x; y]) d obj) (List.length l) = x).
  { intros d x y.
    replace (List.length l) with (List.length l + 0)%nat at 1 by lia.
    rewrite bone_at_app_new. reflexivity. }
  assert (HR : forall d x y,
             bone_at (MkRig (l ++ [x; y]) d obj) (S (List.length l)) = y).
  { intros d x y.
    replace (S (List.length l)) with (List.length l + 1)%nat by lia.
    rewrite bone_at_app_new. reflexivity. }
  rewrite HL, HR. cbn [edit_bones name head tail].
  repeat split; try reflexivity; try apply x_mirrored_negates.
  unfold bone_length. f_equal. unfold length_squared. cbn [head tail].
  rewrite !x_mirrored_negates. cbn [vx vy vz]. ring.
Qed.

(** *** Inserting a bone *)

Lemma bone_add_run (name : string) (head_pos tail_pos : vec3)
    (parent_bone : option nat) (radius roll : R) (rig : Rig) :
  bone_add name head_pos tail_pos parent_bone radius roll rig =
  Ok (List.length (edit_bones rig),
      MkRig (edit_bones rig
               ++ [Bone name head_pos tail_pos radius radius 0.01
                        (radians roll) parent_bone])
            (Dict.set (bone_dic rig) name (List.length (edit_bones rig)))
            (bones rig)).
Proof. reflexivity. Qed.


Lemma get_set_elsewhere {V : Type} (d : Dict.t V) (k k' : string) (v : V) :
  k' <> k -> Dict.get (Dict.set d k v) k' = Dict.get d k'.
Proof.
  intros Hne. induction d as [| [k0 v0] d IH]; cbn [Dict.set Dict.get].
  - destruct (String.eqb_spec k k') as [E | _]; [congruence | reflexivity].
  - destruct (String.eqb_spec k0 k) as [-> | Hk].
    + cbn [Dict.get]. destruct (String.eqb_spec k k') as [E | _];
        [congruence | reflexivity].
    + cbn [Dict.get]. destruct (String.eqb_spec k0 k'); [reflexivity | exact IH].
Qed.

Lemma length_append (s1 s2 : string) :
  String.length (s1 ++ s2) = (String.length s1 + String.length s2)%nat.
Proof.
  induction s1 as [| c s1 IH]; cbn [String.append String.length];
    [reflexivity |].
  rewrite IH. reflexivity.
Qed.

Lemma length_joined (l : list string) (u : string) :
  In u l -> (String.length u <= String.length (joined l))%nat.
Proof.
  induction l as [| s l IH]; intros H; [destruct H |].
  cbn [joined]. rewrite length_append.
  destruct H as [-> | H]; [lia |]. specialize (IH H). lia.
Qed.

Lemma dotted_free (used : list string) (n : string) :
  ~ In n used -> dotted used n = n.
Proof.
  intros H. unfold dotted.
  destruct (existsb (String.eqb n) used) eqn:E; [| reflexivity].
  apply DictFacts.existsb_eqb_In in E. contradiction.
Qed.

Lemma dotted_fresh (used : list string) (n : string) :
  ~ In (dotted used n) used.
Proof.
  unfold dotted. destruct (existsb (String.eqb n) used) eqn:E.
  - intros H. apply length_joined in H.
    rewrite !length_append in H. cbn [String.length] in H. lia.
  - intros H. apply DictFacts.existsb_eqb_In in H. congruence.
Qed.

Lemma bone_at_app_last (l : list EditBone) (x : EditBone) (d : Dict.t nat)
    (o : list EditBone) :
  bone_at (MkRig (l ++ [x]) d o) (List.length l) = x.
Proof.
  unfold bone_at. cbn [edit_bones]. rewrite app_nth2 by lia.
  rewrite Nat.sub_diag. reflexivity.
Qed.

Section BoneNamesFacts.

Variable unique_name : list string -> string -> string.

Hypothesis unique_name_free :
  forall used n, ~ In n used -> unique_name used n = n.

Hypothesis unique_name_fresh :
  forall used n, ~ In (unique_name used n) used.

Lemma blender_names_app (l : list EditBone) (b : EditBone) :
  blender_names unique_name (l ++ [b])
  = blender_names unique_name l
    ++ [unique_name (blender_names unique_name l) (name b)].
Proof.
  unfold blender_names. rewrite fold_left_app. reflexivity.
Qed.

Lemma length_blender_names (l : list EditBone) :
  List.length (blender_names unique_name l) = List.length l.
Proof.
  induction l as [| b l IH] using rev_ind; [reflexivity |].
  rewrite blender_names_app, !length_app, IH. reflexivity.
Qed.

Lemma blender_names_NoDup (l : list EditBone) :
  NoDup (blender_names unique_name l).
Proof.
  induction l as [| b l IH] using rev_ind; [constructor |].
  rewrite blender_names_app.
  apply NoDup_app; [exact IH | repeat constructor; intros [] |].
  intros x Hx [<- | []]. exact (unique_name_fresh _ _ Hx).
Qed.

(** Names that differ are given as they were asked. *)
Lemma blender_names_as_asked (l : list EditBone) :
  NoDup (map name l) -> blender_names unique_name l = map name l.
Proof.
  induction l as [| b l IH] using rev_ind; intros Hnd; [reflexivity |].
  rewrite map_app in Hnd. cbn [map] in Hnd.
  rewrite blender_names_app, map_app. cbn [map].
  rewrite IH by (apply NoDup_app_remove_r in Hnd; exact Hnd).
  f_equal. f_equal. apply unique_name_free.
  intros Hin. apply NoDup_remove_2 in Hnd. rewrite app_nil_r in Hnd.
  contradiction.
Qed.

Lemma built_bone_dic (rig : Rig) :
  built rig ->
  forall k b,
    Dict.get (bone_dic rig) k = Some b ->
    (b < List.length (edit_bones rig))%nat /\ name (bone_at rig b) = k.
Proof.
  intros Hb. induction Hb as [| rig rig' n hd tl pb radius roll b0 _ IH Hrun].
  - intros k b H. discriminate H.
  - rewrite bone_add_run in Hrun. injection Hrun as _ <-.
    cbn [bone_dic edit_bones]. intros k b H.
    rewrite length_app. cbn [List.length].
    destruct (String.eqb_spec n k) as [-> | Hne].
    + rewrite DictFacts.get_set_same in H. injection H as <-.
      split; [lia |].
      rewrite bone_at_app_last. reflexivity.
    + rewrite get_set_elsewhere in H by congruence.
      destruct (IH k b H) as [Hlt Hname].
      split; [lia |].
      rewrite bone_at_app_old by exact Hlt. exact Hname.
Qed.


End BoneNamesFacts.


(** *** Which exceptions a construction step can raise *)

Lemma may_raise_ret {A : Type} (allowed : py_error -> Prop) (a : A) :
  may_raise allowed (ret a).
Proof. intros rig. exact I. Qed.

Lemma may_raise_bind {A B : Type} (allowed : py_error -> Prop)
    (m : M A) (k : A -> M B) :
  may_raise allowed m -> (forall a, may_raise allowed (k a)) ->
  may_raise allowed (bindM m k).
Proof.
  intros Hm Hk rig. unfold bindM. specialize (Hm rig).
  destruct (m rig) as [[a rig'] | e].
  - apply Hk.
  - exact Hm.
Qed.

Lemma may_raise_read {A : Type} (allowed : py_error -> Prop)
    (field : EditBone -> A) (b : nat) :
  may_raise allowed (read field b).
Proof. intros rig. exact I. Qed.

Lemma may_raise_modify (allowed : py_error -> Prop)
    (b : nat) (f : EditBone -> EditBone) :
  may_raise allowed (modify b f).
Proof. intros rig. exact I. Qed.

Lemma may_raise_bone_add (allowed : py_error -> Prop) (name : string)
    (head_pos tail_pos : vec3) (parent_bone : option nat) (radius roll : R) :
  may_raise allowed
    (bone_add name head_pos tail_pos parent_bone radius roll).
Proof. intros rig. exact I. Qed.

Lemma may_raise_lift_Ok {A : Type} (allowed : py_error -> Prop) (a : A) :
  may_raise allowed (lift (Ok a)).
Proof. intros rig. exact I. Qed.

Lemma may_raise_lift_py_div (allowed : py_error -> Prop) (x y : R) :
  (y = 0 -> allowed ZeroDivisionError) ->
  may_raise allowed (lift (py_div x y)).
Proof.
  intros Hy rig. unfold lift, py_div.
  destruct (Req_dec_T y 0) as [E | _]; [exact (Hy E) | exact I].
Qed.

Lemma may_raise_for_each {A : Type} (allowed : py_error -> Prop)
    (items : list A) (body : A -> M unit) :
  (forall x, may_raise allowed (body x)) ->
  may_raise allowed (for_each items body).
Proof.
  intros Hbody. induction items as [| x items IH]; cbn [for_each].
  - apply may_raise_ret.
  - apply may_raise_bind; [apply Hbody | intros _; exact IH].
Qed.

Lemma may_raise_x_mirror_bones_add (allowed : py_error -> Prop)
    (base_name : string) (right_head_pos right_tail_pos : vec3)
    (parent_bones : nat * nat) (radius : R) (bone_type : string) :
  may_raise allowed
    (x_mirror_bones_add base_name right_head_pos right_tail_pos parent_bones
       radius bone_type).
Proof.
  unfold x_mirror_bones_add. cbn zeta.
  destruct (if String.eqb bone_type "arm" then (180, 0)
            else if String.eqb bone_type "leg" then (90, 90) else (0, 0))
    as [right_roll left_roll].
  apply may_raise_bind; [apply may_raise_bone_add | intros l].
  apply may_raise_bind; [apply may_raise_bone_add | intros r].
  apply may_raise_ret.
Qed.

Lemma may_raise_hand_size (allowed : py_error -> Prop)
    (self : ICYP_OT_MAKE_ARMATURE) (k : R -> R) :
  (head_ratio self = 0 -> allowed ZeroDivisionError) ->
  may_raise allowed (lift (hs <- hand_size self ;; Ok (k hs))%py).
Proof.
  intros Hy rig. unfold lift, hand_size, head_size, py_div.
  destruct (Req_dec_T (head_ratio self) 0) as [E | _];
    [exact (Hy E) | exact I].
Qed.

Lemma may_raise_lift_hand_size (allowed : py_error -> Prop)
    (self : ICYP_OT_MAKE_ARMATURE) :
  (head_ratio self = 0 -> allowed ZeroDivisionError) ->
  may_raise allowed (lift (hand_size self)).
Proof.
  intros Hy rig. unfold lift, hand_size, head_size, py_div.
  destruct (Req_dec_T (head_ratio self) 0) as [E | _];
    [exact (Hy E) | exact I].
Qed.

Lemma pick_Translation (a b : vec3) (n : nat) :
  exists v, pick (Matrix_Translation a, Matrix_Translation b) n
            = Matrix_Translation v.
Proof.
  destruct n as [| n]; [exists a | exists b]; reflexivity.
Qed.

Lemma may_raise_thumb_correction (allowed : py_error -> Prop)
    (thumbs : (nat * nat) * (nat * nat) * (nat * nat)) :
  may_raise allowed (thumb_correction thumbs).
Proof.
  unfold thumb_correction.
  apply may_raise_bind; [apply may_raise_read | intros origin_l].
  apply may_raise_bind; [apply may_raise_read | intros origin_r].
  apply may_raise_for_each. intros j.
  apply may_raise_for_each. intros [n angle].
  destruct (pick_Translation origin_l origin_r n) as [v Hv].
  cbn zeta. rewrite Hv, inverted_Translation.
  apply may_raise_bind; [apply may_raise_lift_Ok | intros inv].
  repeat (apply may_raise_bind; [apply may_raise_modify | intros _]).
  apply may_raise_modify.
Qed.

Lemma may_raise_fingers (allowed : py_error -> Prop)
    (self : ICYP_OT_MAKE_ARMATURE) (hands : nat * nat) (finger_name : string)
    (proximal_pos : vec3) (finger_len_sum : R) :
  (head_ratio self = 0 -> allowed ZeroDivisionError) ->
  (finger_divisor self = 0 -> allowed ZeroDivisionError) ->
  may_raise allowed
    (fingers self hands finger_name proximal_pos finger_len_sum).
Proof.
  intros Hh Hf. unfold fingers.
  apply may_raise_bind.
  { intros rig. unfold lift, finger_lens, py_div. fold (finger_divisor self).
    destruct (Req_dec_T (finger_divisor self) 0) as [E | _];
      [exact (Hf E) | exact I]. }
  intros [[p i] d].
  apply may_raise_bind;
    [apply (may_raise_hand_size allowed self (fun hs => hs / 18) Hh) | intros r1].
  apply may_raise_bind; [apply may_raise_x_mirror_bones_add | intros pb].
  apply may_raise_bind; [apply may_raise_read | intros pt].
  apply may_raise_bind;
    [apply (may_raise_hand_size allowed self (fun hs => hs / 18) Hh) | intros r2].
  apply may_raise_bind; [apply may_raise_x_mirror_bones_add | intros ib].
  apply may_raise_bind; [apply may_raise_read | intros it].
  apply may_raise_bind;
    [apply (may_raise_hand_size allowed self (fun hs => hs / 18) Hh) | intros r3].
  apply may_raise_bind; [apply may_raise_x_mirror_bones_add | intros db].
  apply may_raise_bind; [| intros _; apply may_raise_ret].
  destruct (nail_bone self); [| apply may_raise_ret].
  apply may_raise_bind; [apply may_raise_read | intros dt].
  apply may_raise_bind;
    [apply (may_raise_hand_size allowed self (fun hs => hs / 20) Hh) | intros r4].
  apply may_raise_bind; [apply may_raise_x_mirror_bones_add | intros nb].
  apply may_raise_ret.
Qed.

(** One step through a construction: the lemma is chosen by the shape of
    the step, never by unfolding it. *)
Ltac construction_step allowed self Hh Hf :=
  lazymatch goal with
  | |- may_raise _ (ret _) => apply may_raise_ret
  | |- may_raise _ (bindM (bone_add _ _ _ _ _ _) _) =>
      apply may_raise_bind; [apply may_raise_bone_add | intros ?]
  | |- may_raise _ (bindM (read _ _) _) =>
      apply may_raise_bind; [apply may_raise_read | intros ?]
  | |- may_raise _ (bindM (x_mirror_bones_add _ _ _ _ _ _) _) =>
      apply may_raise_bind; [apply may_raise_x_mirror_bones_add | intros ?]
  | |- may_raise _ (bindM (thumb_correction _) _) =>
      apply may_raise_bind; [apply may_raise_thumb_correction | intros ?]
  | |- may_raise _ (bindM (fingers _ _ _ _ _) _) =>
      apply may_raise_bind;
      [apply (may_raise_fingers allowed self _ _ _ _ Hh Hf) | intros ?]
  | |- may_raise _ (bindM (lift (head_size _)) _) =>
      apply may_raise_bind;
      [apply (may_raise_lift_py_div allowed _ _ Hh) | intros ?]
  | |- may_raise _ (bindM (lift (hand_size _)) _) =>
      apply may_raise_bind;
      [apply (may_raise_lift_hand_size allowed self Hh) | intros ?]
  end.

Lemma may_raise_make_bones (allowed : py_error -> Prop)
    (self : ICYP_OT_MAKE_ARMATURE) :
  (head_ratio self = 0 -> allowed ZeroDivisionError) ->
  (finger_divisor self = 0 -> allowed ZeroDivisionError) ->
  may_raise allowed (make_bones self).
Proof.
  intros Hh Hf. unfold make_bones. cbv zeta.
  repeat construction_step allowed self Hh Hf.
Qed.

(** *** The thumb correction keeps bone lengths *)

Lemma keeps_lengths_ret : keeps_lengths (ret tt).
Proof.
  intros rig. exists rig. repeat split; reflexivity.
Qed.

Lemma keeps_lengths_seq (m k : M unit) :
  keeps_lengths m -> keeps_lengths k ->
  keeps_lengths (bindM m (fun _ => k)).
Proof.
  intros Hm Hk rig.
  destruct (Hm rig) as (rig1 & E1 & L1 & P1).
  destruct (Hk rig1) as (rig2 & E2 & L2 & P2).
  exists rig2. unfold bindM. rewrite E1.
  split; [exact E2 |]. split; [congruence |].
  intros b. rewrite P2. apply P1.
Qed.

Lemma keeps_lengths_modify (b : nat) (f : EditBone -> EditBone) :
  (forall bone, length_squared (f bone) = length_squared bone) ->
  keeps_lengths (modify b f).
Proof.
  intros Hf rig. exists (update_bone b f rig).
  split; [reflexivity |].
  split; [apply length_replace_nth |].
  intros k. destruct (bone_at_update_bone b k f rig) as [-> | ->];
    [reflexivity | apply Hf].
Qed.

Lemma keeps_lengths_for_each {A : Type} (items : list A) (body : A -> M unit) :
  (forall x, keeps_lengths (body x)) -> keeps_lengths (for_each items body).
Proof.
  intros Hbody. induction items as [| x items IH]; cbn [for_each].
  - apply keeps_lengths_ret.
  - apply keeps_lengths_seq; [apply Hbody | exact IH].
Qed.

Lemma keeps_lengths_lift_Ok {A : Type} (a : A) (k : A -> M unit) :
  keeps_lengths (k a) -> keeps_lengths (bindM (lift (Ok a)) k).
Proof. intros H rig. exact (H rig). Qed.

(** What the loop body does to one thumb bone: back to the origin, turn,
    and out again. *)
Lemma keeps_lengths_turn_about (v : vec3) (angle r : R) (b : nat) :
  keeps_lengths
    (inv <- lift (inverted (Matrix_Translation v)) ;;
     modify b (transform inv) ;;;
     modify b (transform (Matrix_Rotation_Z (radians angle))) ;;;
     modify b (transform (Matrix_Translation v)) ;;;
     modify b (set_roll r))%arm.
Proof.
  rewrite inverted_Translation. apply keeps_lengths_lift_Ok.
  apply keeps_lengths_seq.
  { apply keeps_lengths_modify. intros bone.
    apply transform_rigid_length, rigid_Translation. }
  apply keeps_lengths_seq.
  { apply keeps_lengths_modify. intros bone.
    apply transform_rigid_length, rigid_Rotation_Z. }
  apply keeps_lengths_seq.
  { apply keeps_lengths_modify. intros bone.
    apply transform_rigid_length, rigid_Translation. }
  apply keeps_lengths_modify. intros bone. apply set_roll_length.
Qed.

Lemma thumb_correction_keeps_lengths
    (thumbs : (nat * nat) * (nat * nat) * (nat * nat)) :
  keeps_lengths (thumb_correction thumbs).
Proof.
  intros rig. unfold thumb_correction.
  unfold bindM at 1. unfold read at 1. unfold bindM at 1. unfold read at 1.
  cbv zeta.
  apply keeps_lengths_for_each. intros j.
  apply keeps_lengths_for_each. intros [n angle].
  destruct (pick_Translation
              (head (bone_at rig (pick (segment thumbs 0) 0)))
              (head (bone_at rig (pick (segment thumbs 0) 1))) n) as [v Hv].
  rewrite Hv. apply keeps_lengths_turn_about.
Qed.

(** C3.  The thumb correction returns for every rig and every choice of
    thumb bones, and every bone of the rig, so each of the six thumb
    segments, has the head-to-tail length it had before. *)
Theorem thumb_correction_preserves_length
    (thumbs : (nat * nat) * (nat * nat) * (nat * nat)) (rig : Rig) :
  exists rig',
    thumb_correction thumbs rig = Ok (tt, rig') /\
    (forall j n,
        bone_length (bone_at rig' (pick (segment thumbs j) n)) =
        bone_length (bone_at rig (pick (segment thumbs j) n))) /\
    (forall b, bone_length (bone_at rig' b) = bone_length (bone_at rig b)).
Proof.
  destruct (thumb_correction_keeps_lengths thumbs rig) as (rig' & E & _ & P).
  exists rig'. split; [exact E |].
  split; intros; unfold bone_length; rewrite P; reflexivity.
Qed.

(** *** The name table of a synthesis run *)

Lemma body_dict_keys (rig : Rig) (sk : Skeleton) :
  map fst (body_dict rig sk) = ["hips"; "spine"; "chest"; "neck"; "head"].
Proof. reflexivity. Qed.

Lemma left_right_body_dict_keys (rig : Rig) (sk : Skeleton) :
  map fst (left_right_body_dict rig sk) =
  [ "leftEye"; "rightEye"; "leftUpperLeg"; "rightUpperLeg";
    "leftLowerLeg"; "rightLowerLeg"; "leftFoot"; "rightFoot";
    "leftToes"; "rightToes"; "leftShoulder"; "rightShoulder";
    "leftUpperArm"; "rightUpperArm"; "leftLowerArm"; "rightLowerArm";
    "leftHand"; "rightHand" ].
Proof.
  change (map fst (left_right_body_dict rig sk))
    with (Dict.keys (Dict.of_items (left_right_body_items rig sk))).
  unfold Dict.of_items. rewrite DictFacts.keys_update. reflexivity.
Qed.

Lemma fingers_dict_keys (rig : Rig) (sk : Skeleton) :
  map fst (fingers_dict rig sk) =
  skipn 23 bone_name_all_keys.
Proof.
  change (map fst (fingers_dict rig sk))
    with (Dict.keys (Dict.of_items (fingers_items rig sk))).
  unfold Dict.of_items. rewrite DictFacts.keys_update. reflexivity.
Qed.

Lemma bone_name_all_dict_keys (rig : Rig) (sk : Skeleton) :
  Dict.keys (bone_name_all_dict rig sk) = bone_name_all_keys.
Proof.
  unfold bone_name_all_dict. cbv zeta.
  rewrite !DictFacts.keys_update.
  rewrite body_dict_keys, left_right_body_dict_keys, fingers_dict_keys.
  reflexivity.
Qed.

Lemma required_names_are_keys :
  forallb (fun n => existsb (String.eqb n) bone_name_all_keys)
          HumanBones.requires = true.
Proof. vm_compute. reflexivity. Qed.

Lemma keys_are_schema_names :
  forallb HumanBones.is_schema_name bone_name_all_keys = true.
Proof. vm_compute. reflexivity. Qed.

Lemma make_armature_Ok_inv (self : ICYP_OT_MAKE_ARMATURE)
    (rig : Rig) (d : Dict.t string) :
  make_armature self = Ok (rig, d) ->
  exists sk rig0,
    make_bones self empty_rig = Ok (sk, rig0) /\
    rig = mode_set_OBJECT rig0 /\
    d = bone_name_all_dict rig0 sk.
Proof.
  unfold make_armature.
  destruct (make_bones self empty_rig) as [[sk rig'] | e]; intros H.
  - cbv zeta in H. injection H as <- <-. exists sk, rig'.
    repeat split; reflexivity.
  - discriminate H.
Qed.

(** What a run of [make_armature] rests on: the run of [make_bones] that
    built the edit bones of the armature it returns. *)
Ltac built_by Hrun sk rig0 Hbones :=
  let E := fresh "E" in
  let D := fresh "D" in
  destruct (make_armature_Ok_inv _ _ _ Hrun) as (sk & rig0 & Hbones & E & D);
  rewrite ?E, ?D in *; clear E D;
  change (edit_bones (mode_set_OBJECT rig0)) with (edit_bones rig0) in *.

(** Synthesis completes whenever its two computed divisors are not zero. *)
Lemma make_armature_returns (self : ICYP_OT_MAKE_ARMATURE) :
  head_ratio self <> 0 -> finger_divisor self <> 0 ->
  exists rig d, make_armature self = Ok (rig, d).
Proof.
  intros Hh Hf.
  pose proof (may_raise_make_bones nothing self
                (fun E => Hh E) (fun E => Hf E) empty_rig) as H.
  unfold make_armature.
  destruct (make_bones self empty_rig) as [[sk rig] | e].
  - eexists. eexists. reflexivity.
  - destruct H.
Qed.

(** C7.  The name table of every synthesis run has an entry for each name
    of [HumanBones.requires], and each of its keys is a name of
    [HumanBones.requires] or [HumanBones.defines]. *)
Theorem bone_name_all_dict_covers_schema
    (self : ICYP_OT_MAKE_ARMATURE) (rig : Rig) (d : Dict.t string) :
  make_armature self = Ok (rig, d) ->
  (forall n, In n HumanBones.requires ->
             exists blender_name, Dict.get d n = Some blender_name) /\
  (forall k, In k (Dict.keys d) ->
             In k (HumanBones.requires ++ HumanBones.defines)).
Proof.
  intros Hrun.
  destruct (make_armature_Ok_inv self rig d Hrun) as (sk & rig0 & _ & _ & ->).
  rewrite bone_name_all_dict_keys.
  split.
  - intros n Hn. apply DictFacts.in_keys_get.
    rewrite bone_name_all_dict_keys.
    pose proof required_names_are_keys as Hall.
    rewrite forallb_forall in Hall.
    apply DictFacts.existsb_eqb_In. apply Hall. exact Hn.
  - intros k Hk.
    pose proof keys_are_schema_names as Hall.
    rewrite forallb_forall in Hall. specialize (Hall k Hk).
    unfold HumanBones.is_schema_name in Hall.
    apply DictFacts.existsb_eqb_In in Hall. exact Hall.
Qed.

Lemma default_operator_divisors :
  head_ratio default_operator <> 0 /\ finger_divisor default_operator <> 0.
Proof.
  unfold finger_divisor. simpl. split; lra.
Qed.

Lemma bone_name_all_dict_default_run :
  exists rig d,
    make_armature default_operator = Ok (rig, d) /\
    (forall n, In n HumanBones.requires ->
               exists blender_name, Dict.get d n = Some blender_name) /\
    (forall k, In k (Dict.keys d) ->
               In k (HumanBones.requires ++ HumanBones.defines)).
Proof.
  destruct (make_armature_returns default_operator
              (proj1 default_operator_divisors)
              (proj2 default_operator_divisors)) as (rig & d & Hrun).
  exists rig, d. split; [exact Hrun |].
  exact (bone_name_all_dict_covers_schema default_operator rig d Hrun).
Defined.

(** *** [execute] and the declared bounds *)

Lemma execute_run
    (maker : ICYP_OT_MAKE_ARMATURE -> Rig -> result unit)
    (self : ICYP_OT_MAKE_ARMATURE) :
  execute maker self =
  match make_armature self with
  | Ok (rig, d) =>
      if WIP_with_template_mesh self
      then match maker self rig with
           | Ok _ => Ok ("FINISHED", rig, setup_as_vrm d)
           | Err e => Err e
           end
      else Ok ("FINISHED", rig, setup_as_vrm d)
  | Err e => Err e
  end.
Proof.
  unfold execute, bind. destruct (make_armature self) as [[rig d] | e];
    [| reflexivity].
  destruct (WIP_with_template_mesh self); [| reflexivity].
  destruct (maker self rig); reflexivity.
Qed.

Lemma make_armature_errors (self : ICYP_OT_MAKE_ARMATURE) (e : py_error) :
  make_armature self = Err e -> e = ZeroDivisionError.
Proof.
  pose proof (may_raise_make_bones only_ZeroDivisionError self
                (fun _ => eq_refl) (fun _ => eq_refl) empty_rig) as H.
  unfold make_armature.
  destruct (make_bones self empty_rig) as [[sk rig] | e'].
  - discriminate.
  - intros [= <-]. exact H.
Qed.

Lemma in_declared_range_divisors (self : ICYP_OT_MAKE_ARMATURE) :
  in_declared_range self ->
  head_ratio self <> 0 /\ finger_divisor self <> 0.
Proof.
  unfold in_declared_range, within, finger_divisor.
  cbn [min max tall_prop head_ratio_prop head_width_ratio_prop
       aging_ratio_prop eye_depth_prop shoulder_in_width_prop
       shoulder_width_prop arm_length_ratio_prop hand_ratio_prop
       finger_1_2_ratio_prop finger_2_3_ratio_prop leg_length_ratio_prop
       leg_width_ratio_prop leg_size_prop].
  intros (_ & [Hh _] & _ & _ & _ & _ & _ & _ & _ & [H12 _] & [H23 _] & _).
  split; [lra | nra].
Qed.

Lemma make_armature_in_declared_range (self : ICYP_OT_MAKE_ARMATURE) :
  in_declared_range self -> exists rig d, make_armature self = Ok (rig, d).
Proof.
  intros Hin. destruct (in_declared_range_divisors self Hin) as [Hh Hf].
  exact (make_armature_returns self Hh Hf).
Qed.

Lemma assigned_within (p : FloatProperty) (v : R) :
  well_declared p -> within p (assigned p v).
Proof.
  unfold well_declared, within, assigned.
  destruct (min p) as [lo |], (max p) as [hi |]; intros H; split;
    try exact I.
  - apply Rmin_glb; [exact H | apply Rmax_l].
  - apply Rmin_l.
  - apply Rmax_l.
  - apply Rmin_l.
Qed.

Lemma assigned_in_range (p : FloatProperty) (v : R) :
  within p v -> assigned p v = v.
Proof.
  unfold within, assigned.
  destruct (min p) as [lo |], (max p) as [hi |]; intros [Hlo Hhi].
  - rewrite (Rmax_right lo v Hlo). apply Rmin_right. exact Hhi.
  - apply Rmax_right. exact Hlo.
  - apply Rmin_right. exact Hhi.
  - reflexivity.
Qed.

Lemma assigned_below (p : FloatProperty) (lo v : R) :
  well_declared p -> min p = Some lo -> v < lo -> assigned p v = lo.
Proof.
  unfold well_declared, assigned. intros Hp Hmin Hv. rewrite Hmin in *.
  rewrite (Rmax_left lo v) by lra.
  destruct (max p) as [hi |]; [| reflexivity].
  apply Rmin_right. exact Hp.
Qed.

Lemma assigned_above (p : FloatProperty) (hi v : R) :
  well_declared p -> max p = Some hi -> hi < v -> assigned p v = hi.
Proof.
  unfold well_declared, assigned. intros Hp Hmax Hv. rewrite Hmax in *.
  destruct (min p) as [lo |].
  - apply Rmin_left. apply Rle_trans with v; [lra | apply Rmax_r].
  - apply Rmin_left. lra.
Qed.

Lemma declarations_well_declared :
  Forall well_declared
    [ tall_prop; head_ratio_prop; head_width_ratio_prop; aging_ratio_prop;
      eye_depth_prop; shoulder_in_width_prop; shoulder_width_prop;
      arm_length_ratio_prop; hand_ratio_prop; finger_1_2_ratio_prop;
      finger_2_3_ratio_prop; leg_length_ratio_prop; leg_width_ratio_prop;
      leg_size_prop ].
Proof.
  repeat constructor; unfold well_declared; cbn [min max]; try exact I; lra.
Qed.

Lemma with_properties_in_declared_range (supplied : ICYP_OT_MAKE_ARMATURE) :
  in_declared_range (with_properties supplied).
Proof.
  pose proof declarations_well_declared as H.
  repeat match type of H with
         | Forall _ (_ :: _) =>
             let Hp := fresh "Hp" in
             let Hrest := fresh "Hrest" in
             apply Forall_cons_iff in H; destruct H as [Hp H]
         end.
  unfold in_declared_range, with_properties.
  cbn [tall head_ratio head_width_ratio aging_ratio eye_depth
       shoulder_in_width shoulder_width arm_length_ratio hand_ratio
       finger_1_2_ratio finger_2_3_ratio leg_length_ratio leg_width_ratio
       leg_size].
  repeat split; apply assigned_within; assumption.
Qed.

Lemma with_properties_in_range (supplied : ICYP_OT_MAKE_ARMATURE) :
  in_declared_range supplied -> with_properties supplied = supplied.
Proof.
  unfold in_declared_range, with_properties.
  intros (H1 & H2 & H3 & H4 & H5 & H6 & H7 & H8 & H9 & H10 & H11 & H12
          & H13 & H14).
  rewrite !assigned_in_range by assumption.
  destruct supplied. reflexivity.
Qed.



(** *** The outline of the synthesized rig *)

Lemma bindM_Ok_inv {A B : Type} (m : M A) (k : A -> M B)
    (rig rig2 : Rig) (b : B) :
  bindM m k rig = Ok (b, rig2) ->
  exists a rig1, m rig = Ok (a, rig1) /\ k a rig1 = Ok (b, rig2).
Proof.
  unfold bindM. destruct (m rig) as [[a rig1] | e]; intros H.
  - exists a, rig1. split; [reflexivity | exact H].
  - discriminate H.
Qed.

Lemma outline_length (rig : Rig) :
  List.length (outline rig) = List.length (edit_bones rig).
Proof. apply length_map. Qed.

Lemma step_bone_add {B : Type} (n : string) (h t : vec3) (p : option nat)
    (r ro : R) (k : nat -> M B) (rig : Rig) (res : B * Rig)
    (s : list (string * option nat)) :
  outline rig = s ->
  bindM (bone_add n h t p r ro) k rig = Ok res ->
  exists rig1 b s1,
    b = List.length s /\ s1 = s ++ [(n, p)] /\
    outline rig1 = s1 /\ k b rig1 = Ok res.
Proof.
  intros Hs H. destruct res as [x rig2].
  apply bindM_Ok_inv in H. destruct H as (a & rig1 & Hadd & Hk).
  rewrite bone_add_run in Hadd. injection Hadd as <- <-.
  eexists. exists (List.length s), (s ++ [(n, p)]).
  split; [reflexivity |]. split; [reflexivity |].
  split; [| rewrite <- Hs, outline_length; exact Hk].
  unfold outline. cbn [edit_bones]. rewrite map_app. cbn [map name parent].
  fold (outline rig). rewrite Hs. reflexivity.
Qed.

Lemma step_read {A B : Type} (field : EditBone -> A) (b : nat)
    (k : A -> M B) (rig : Rig) (res : B * Rig) :
  bindM (read field b) k rig = Ok res ->
  exists v, k v rig = Ok res.
Proof. intros H. eexists. exact H. Qed.

Lemma step_lift {A B : Type} (r : result A) (k : A -> M B)
    (rig : Rig) (res : B * Rig) :
  bindM (lift r) k rig = Ok res ->
  exists v, k v rig = Ok res.
Proof.
  unfold bindM, lift. destruct r as [v | e]; intros H.
  - exists v. exact H.
  - discriminate H.
Qed.

Lemma step_x_mirror_bones_add {B : Type} (base_name : string)
    (h t : vec3) (parents : nat * nat) (r : R) (bone_type : string)
    (k : nat * nat -> M B) (rig : Rig) (res : B * Rig)
    (s : list (string * option nat)) :
  outline rig = s ->
  bindM (x_mirror_bones_add base_name h t parents r bone_type) k rig = Ok res ->
  exists rig1 pair s1,
    pair = (List.length s, S (List.length s)) /\
    s1 = s ++ [ ((base_name ++ "_L")%string, Some (fst parents));
                ((base_name ++ "_R")%string, Some (snd parents)) ] /\
    outline rig1 = s1 /\ k pair rig1 = Ok res.
Proof.
  intros Hs H. destruct res as [x rig2].
  unfold x_mirror_bones_add in H. cbv zeta in H.
  destruct (if String.eqb bone_type "arm" then (180, 0)
            else if String.eqb bone_type "leg" then (90, 90) else (0, 0))
    as [right_roll left_roll].
  apply bindM_Ok_inv in H. destruct H as (pair & rig1 & Hm & Hk).
  destruct (step_bone_add _ _ _ _ _ _ _ _ _ _ Hs Hm)
    as (rigL & l & sL & -> & -> & HsL & HL).
  destruct (step_bone_add _ _ _ _ _ _ _ _ _ _ HsL HL)
    as (rigR & rr & sR & -> & -> & HsR & HR).
  unfold ret in HR. injection HR as <- <-.
  exists rigR. eexists. eexists.
  split; [| split; [reflexivity | split; [| exact Hk]]].
  - rewrite length_app. cbn [List.length].
    replace (List.length s + 1)%nat with (S (List.length s)) by lia.
    reflexivity.
  - rewrite HsR, <- app_assoc. reflexivity.
Qed.

Lemma keeps_outline_bind {A B : Type} (m : M A) (k : A -> M B) :
  keeps_outline m -> (forall a, keeps_outline (k a)) ->
  keeps_outline (bindM m k).
Proof.
  intros Hm Hk rig b rig2 H.
  apply bindM_Ok_inv in H. destruct H as (a & rig1 & H1 & H2).
  rewrite (Hk a rig1 b rig2 H2). exact (Hm rig a rig1 H1).
Qed.

Lemma keeps_outline_ret {A : Type} (a : A) : keeps_outline (ret a).
Proof. intros rig x rig' [= _ <-]. reflexivity. Qed.

Lemma keeps_outline_read {A : Type} (field : EditBone -> A) (b : nat) :
  keeps_outline (read field b).
Proof. intros rig x rig' [= _ <-]. reflexivity. Qed.

Lemma keeps_outline_lift {A : Type} (r : result A) : keeps_outline (lift r).
Proof.
  intros rig x rig'. unfold lift. destruct r; [| discriminate].
  intros [= _ <-]. reflexivity.
Qed.

Lemma map_replace_nth {A B : Type} (g : A -> B) (f : A -> A) (d : A)
    (l : list A) :
  (forall x, g (f x) = g x) ->
  forall n, map g (replace_nth n (f (nth n l d)) l) = map g l.
Proof.
  intros Hg. induction l as [| y l IH]; intros [| n]; cbn [replace_nth map nth].
  - reflexivity.
  - reflexivity.
  - rewrite Hg. reflexivity.
  - rewrite IH. reflexivity.
Qed.

Lemma keeps_outline_modify (b : nat) (f : EditBone -> EditBone) :
  (forall bone, name (f bone) = name bone /\ parent (f bone) = parent bone) ->
  keeps_outline (modify b f).
Proof.
  intros Hf rig x rig' [= _ <-]. unfold outline, update_bone, bone_at.
  cbn [edit_bones]. apply map_replace_nth.
  intros bone. destruct (Hf bone) as [-> ->]. reflexivity.
Qed.

Lemma keeps_outline_for_each {A : Type} (items : list A) (body : A -> M unit) :
  (forall x, keeps_outline (body x)) -> keeps_outline (for_each items body).
Proof.
  intros Hbody. induction items as [| x items IH]; cbn [for_each].
  - apply keeps_outline_ret.
  - apply keeps_outline_bind; [apply Hbody | intros _; exact IH].
Qed.

Lemma keeps_outline_thumb_correction
    (thumbs : (nat * nat) * (nat * nat) * (nat * nat)) :
  keeps_outline (thumb_correction thumbs).
Proof.
  unfold thumb_correction.
  apply keeps_outline_bind; [apply keeps_outline_read | intros origin_l].
  apply keeps_outline_bind; [apply keeps_outline_read | intros origin_r].
  apply keeps_outline_for_each. intros j.
  apply keeps_outline_for_each. intros [n angle].
  apply keeps_outline_bind; [apply keeps_outline_lift | intros inv].
  repeat (apply keeps_outline_bind;
          [apply keeps_outline_modify; intros bone; split; reflexivity
          | intros _]).
  apply keeps_outline_modify. intros bone. split; reflexivity.
Qed.

Lemma step_thumb_correction {B : Type}
    (thumbs : (nat * nat) * (nat * nat) * (nat * nat))
    (k : unit -> M B) (rig : Rig) (res : B * Rig)
    (s : list (string * option nat)) :
  outline rig = s ->
  bindM (thumb_correction thumbs) k rig = Ok res ->
  exists rig1, outline rig1 = s /\ k tt rig1 = Ok res.
Proof.
  intros Hs H. destruct res as [x rig2].
  apply bindM_Ok_inv in H. destruct H as ([] & rig1 & Ht & Hk).
  exists rig1. split; [| exact Hk].
  rewrite (keeps_outline_thumb_correction thumbs rig tt rig1 Ht). exact Hs.
Qed.


(** One step of a run whose outline is known: [Hrun] is the run that is
    left, [Hout] the outline reached. *)
Ltac outline_step :=
  lazymatch goal with
  | Hout : outline ?rig = ?s,
    Hrun : bindM (bone_add _ _ _ _ _ _) _ ?rig = Ok _ |- _ =>
      let rig1 := fresh "rig" in
      let b := fresh "b" in
      let s1 := fresh "s" in
      let Hb := fresh "Hb" in
      let Hs1 := fresh "Hs" in
      let Ho := fresh "Ho" in
      let H1 := fresh "H" in
      destruct (step_bone_add _ _ _ _ _ _ _ _ _ _ Hout Hrun)
        as (rig1 & b & s1 & Hb & Hs1 & Ho & H1);
      clear Hrun Hout; rename H1 into Hrun; rename Ho into Hout;
      cbn [List.length app String.append fst snd] in Hb, Hs1;
      subst b s1; cbv beta in Hrun
  | Hout : outline ?rig = ?s,
    Hrun : bindM (x_mirror_bones_add _ _ _ _ _ _) _ ?rig = Ok _ |- _ =>
      let rig1 := fresh "rig" in
      let b := fresh "b" in
      let s1 := fresh "s" in
      let Hb := fresh "Hb" in
      let Hs1 := fresh "Hs" in
      let Ho := fresh "Ho" in
      let H1 := fresh "H" in
      destruct (step_x_mirror_bones_add _ _ _ _ _ _ _ _ _ _ Hout Hrun)
        as (rig1 & b & s1 & Hb & Hs1 & Ho & H1);
      clear Hrun Hout; rename H1 into Hrun; rename Ho into Hout;
      cbn [List.length app String.append fst snd] in Hb, Hs1;
      subst b s1; cbv beta in Hrun
  | Hout : outline ?rig = ?s,
    Hrun : bindM (thumb_correction _) _ ?rig = Ok _ |- _ =>
      let rig1 := fresh "rig" in
      let Ho := fresh "Ho" in
      let H1 := fresh "H" in
      destruct (step_thumb_correction _ _ _ _ _ Hout Hrun)
        as (rig1 & Ho & H1);
      clear Hrun Hout; rename H1 into Hrun; rename Ho into Hout;
      cbv beta in Hrun
  | Hrun : bindM (read _ _) _ _ = Ok _ |- _ =>
      let v := fresh "v" in
      apply step_read in Hrun; destruct Hrun as [v Hrun];
      cbv beta in Hrun
  | Hrun : bindM (lift _) _ _ = Ok _ |- _ =>
      let v := fresh "v" in
      apply step_lift in Hrun; destruct Hrun as [v Hrun];
      cbv beta in Hrun
  end.

Lemma step_fingers {B : Type} (self : ICYP_OT_MAKE_ARMATURE)
    (hands : nat * nat) (finger_name : string) (proximal_pos : vec3)
    (finger_len_sum : R)
    (k : (nat * nat) * (nat * nat) * (nat * nat) -> M B)
    (rig : Rig) (res : B * Rig) (s : list (string * option nat)) :
  outline rig = s ->
  bindM (fingers self hands finger_name proximal_pos finger_len_sum) k rig
    = Ok res ->
  exists rig1 f s1,
    f = ((List.length s, S (List.length s)),
         (List.length s + 2, List.length s + 3),
         (List.length s + 4, List.length s + 5))%nat /\
    s1 = s ++ finger_outline finger_name hands (List.length s) (nail_bone self) /\
    outline rig1 = s1 /\ k f rig1 = Ok res.
Proof.
  intros Hout H. destruct res as [x rig2].
  apply bindM_Ok_inv in H. destruct H as (f & rig1 & Hrun & Hk).
  unfold fingers in Hrun.
  outline_step. destruct v as [[p i] d].
  outline_step. outline_step. outline_step. outline_step. outline_step.
  outline_step. outline_step. outline_step.
  rewrite !length_app in Hrun. cbn [List.length] in Hrun.
  replace (S (List.length s + 2)) with (List.length s + 3)%nat in Hrun by lia.
  replace (List.length s + 2 + 2)%nat with (List.length s + 4)%nat in Hrun by lia.
  replace (S (List.length s + 4)) with (List.length s + 5)%nat in Hrun by lia.
  unfold finger_outline.
  destruct (nail_bone self).
  - apply bindM_Ok_inv in Hrun. destruct Hrun as ([] & rig' & Hrun & Hret).
    unfold ret in Hret. injection Hret as <- <-.
    outline_step. outline_step. outline_step.
    unfold bindM, ret in Hrun. injection Hrun as <-.
    eexists. eexists. eexists.
    split; [reflexivity |]. split; [reflexivity |]. split; [| exact Hk].
    rewrite Hout. rewrite <- !app_assoc. cbn [app].
    rewrite !length_app. cbn [List.length].
    repeat f_equal; lia.
  - unfold bindM, ret in Hrun. injection Hrun as <- <-.
    eexists. eexists. eexists.
    split; [reflexivity |]. split; [reflexivity |]. split; [| exact Hk].
    rewrite Hout. rewrite <- !app_assoc. cbn [app].
    rewrite ?length_app. cbn [List.length].
    rewrite ?app_nil_r. repeat f_equal; lia.
Qed.


Ltac fingers_step :=
  lazymatch goal with
  | Hnail : nail_bone ?self = _,
    Hout : outline ?rig = ?s,
    Hrun : bindM (fingers ?self _ _ _ _) _ ?rig = Ok _ |- _ =>
      let rig1 := fresh "rig" in
      let b := fresh "b" in
      let s1 := fresh "s" in
      let Hb := fresh "Hb" in
      let Hs1 := fresh "Hs" in
      let Ho := fresh "Ho" in
      let H1 := fresh "H" in
      destruct (step_fingers _ _ _ _ _ _ _ _ _ Hout Hrun)
        as (rig1 & b & s1 & Hb & Hs1 & Ho & H1);
      clear Hrun Hout; rename H1 into Hrun; rename Ho into Hout;
      rewrite Hnail in Hs1;
      cbn [finger_outline List.length app String.append fst snd Nat.add]
        in Hb, Hs1;
      subst b s1; cbv beta in Hrun
  end.

(** Whatever the operator's field values, a run of [make_bones] that
    returns has created the same bones with the same parents, in the same
    order; only [nail_bone] changes the list. *)
Lemma make_bones_outline (self : ICYP_OT_MAKE_ARMATURE)
    (sk : Skeleton) (rig : Rig) :
  make_bones self empty_rig = Ok (sk, rig) ->
  sk = synthesized_skeleton (nail_bone self) /\
  outline rig = synthesized_outline (nail_bone self).
Proof.
  intros Hrun.
  assert (Hout : outline empty_rig = []) by reflexivity.
  unfold make_bones in Hrun.
  destruct (nail_bone self) eqn:Hnail.
  - do 2 outline_step. cbv beta zeta in Hrun.
    repeat first [ outline_step | fingers_step ].
    unfold ret in Hrun. injection Hrun as <- <-.
    split; [reflexivity | exact Hout].
  - do 2 outline_step. cbv beta zeta in Hrun.
    repeat first [ outline_step | fingers_step ].
    unfold ret in Hrun. injection Hrun as <- <-.
    split; [reflexivity | exact Hout].
Qed.


(** *** The bone tree of the synthesized rig *)

Lemma name_bone_at (rig : Rig) (h : nat) :
  name (bone_at rig h) = fst (nth h (outline rig) (EmptyString, None)).
Proof.
  unfold bone_at, outline.
  change (EmptyString, @None nat)
    with ((fun b => (name b, parent b)) null_bone).
  rewrite map_nth. reflexivity.
Qed.

Lemma nth_error_outline (rig : Rig) (i : nat) (b : EditBone) :
  nth_error (edit_bones rig) i = Some b ->
  nth_error (outline rig) i = Some (name b, parent b).
Proof.
  intros H. unfold outline.
  exact (map_nth_error (fun b => (name b, parent b)) i (edit_bones rig) H).
Qed.

Lemma outline_nth_error (rig : Rig) (i : nat) (n : string) (p : option nat) :
  nth_error (outline rig) i = Some (n, p) ->
  exists b, nth_error (edit_bones rig) i = Some b /\ name b = n /\ parent b = p.
Proof.
  unfold outline. rewrite nth_error_map.
  destruct (nth_error (edit_bones rig) i) as [b |]; cbn [option_map];
    [| discriminate].
  intros [= <- <-]. exists b. repeat split.
Qed.

Lemma names_of_outline (rig : Rig) :
  map name (edit_bones rig) = map fst (outline rig).
Proof.
  unfold outline. rewrite map_map. reflexivity.
Qed.

Lemma parents_earlier_sound (l : list (string * option nat)) :
  forall k i e,
    parents_earlier k l = true ->
    nth_error l i = Some e ->
    match snd e with
    | None => (k + i = 0)%nat
    | Some p => (p < k + i)%nat
    end.
Proof.
  induction l as [| [n p] l IH]; intros k i e Hall Hnth.
  - destruct i; discriminate Hnth.
  - cbn [parents_earlier] in Hall. apply andb_prop in Hall.
    destruct Hall as [Hhere Hrest].
    destruct i as [| i]; cbn [nth_error] in Hnth.
    + injection Hnth as <-. cbn [snd]. destruct p as [q |].
      * apply Nat.ltb_lt in Hhere. lia.
      * apply Nat.eqb_eq in Hhere. lia.
    + specialize (IH (S k) i e Hrest Hnth).
      destruct (snd e); lia.
Qed.

Lemma parents_first_reaches_root (l : list EditBone) :
  parents_first l ->
  forall i, (i < List.length l)%nat -> reaches_root l i.
Proof.
  intros Hall i. induction i as [i IH] using (well_founded_induction lt_wf).
  intros Hi. destruct (nth_error l i) as [b |] eqn:Hb.
  - pose proof (Hall i b Hb) as Hp.
    destruct (parent b) as [p |] eqn:Hparent.
    + apply reaches_root_up with p b; [exact Hb | exact Hparent |].
      apply IH; lia.
    + subst i. constructor.
  - apply nth_error_None in Hb. lia.
Qed.

Lemma parents_earlier_parents_first (rig : Rig) :
  parents_earlier 0 (outline rig) = true -> parents_first (edit_bones rig).
Proof.
  intros Hall i b Hb.
  exact (parents_earlier_sound _ 0 i _ Hall (nth_error_outline rig i b Hb)).
Qed.

Lemma synthesized_outline_checks (nail : bool) :
  List.length (synthesized_outline nail) = (24 + 5 * bones_per_finger nail)%nat /\
  HumanBones.no_repeat (map fst (synthesized_outline nail)) = true /\
  parents_earlier 0 (synthesized_outline nail) = true.
Proof. destruct nail; vm_compute; repeat split. Qed.

(** *** The name table of the synthesized rig *)

Lemma bone_name_all_dict_synthesized (rig : Rig) (nail : bool) :
  outline rig = synthesized_outline nail ->
  bone_name_all_dict rig (synthesized_skeleton nail) = synthesized_bone_names.
Proof.
  intros Hout.
  assert (Hname : forall h,
             name (bone_at rig h)
             = fst (nth h (synthesized_outline nail) (EmptyString, None))).
  { intros h. rewrite name_bone_at, Hout. reflexivity. }
  destruct nail; cbv - [bone_at name] in *;
    rewrite !Hname; reflexivity.
Qed.

(** X5.  The name table [make_armature] returns is the same for every choice
    of the operator's properties: the VRM names of the 53 humanoid bones the
    synthesizer creates, each with the Blender name of its bone. *)
Theorem make_armature_name_table (self : ICYP_OT_MAKE_ARMATURE)
    (rig : Rig) (d : Dict.t string) :
  make_armature self = Ok (rig, d) -> d = synthesized_bone_names.
Proof.
  intros Hrun.
  destruct (make_armature_Ok_inv self rig d Hrun)
    as (sk & rig0 & Hbones & _ & ->).
  destruct (make_bones_outline self sk rig0 Hbones) as [-> Hout].
  exact (bone_name_all_dict_synthesized rig0 (nail_bone self) Hout).
Qed.

Lemma make_armature_name_table_default :
  exists rig d,
    make_armature default_operator = Ok (rig, d) /\ d = synthesized_bone_names.
Proof.
  destruct (make_armature_returns default_operator
              (proj1 default_operator_divisors)
              (proj2 default_operator_divisors)) as (rig & d & Hrun).
  exists rig, d. split; [exact Hrun |].
  exact (make_armature_name_table default_operator rig d Hrun).
Defined.



(** *** The declared ranges are safe *)


Lemma default_operator_in_declared_range : in_declared_range default_operator.
Proof.
  unfold in_declared_range, within. simpl. repeat split; lra.
Qed.


(** *** The rig follows the VRM humanoid hierarchy *)

Lemma get_Some_In {V : Type} (d : Dict.t V) (k : string) (v : V) :
  Dict.get d k = Some v -> In (k, v) d.
Proof.
  induction d as [| [k' v'] d IH]; cbn [Dict.get]; intros H.
  - discriminate H.
  - destruct (String.eqb_spec k' k) as [-> | Hne].
    + injection H as ->. left. reflexivity.
    + right. apply IH. exact H.
Qed.

Lemma vrm_parent_inb_sound (d : Dict.t string) (child anc : string) :
  vrm_parent_inb d child anc = true -> vrm_parent_in d child anc.
Proof.
  unfold vrm_parent_inb, vrm_parent_in, HumanBones.parent_of.
  destruct (Dict.get HumanBones.hierarchy child) as [p1 |]; [| discriminate].
  intros H. apply orb_prop in H. destruct H as [H | H].
  - apply String.eqb_eq in H. subst p1. left. reflexivity.
  - destruct (Dict.get d p1) eqn:Hd; [discriminate |].
    destruct (Dict.get HumanBones.hierarchy p1) as [p2 |] eqn:Hp2;
      [| discriminate].
    apply String.eqb_eq in H. subst p2.
    right. exists p1. repeat split; assumption.
Qed.

Lemma follows_vrm_parent_sound (rig : Rig) (d : Dict.t string)
    (child bn : string) :
  follows_vrm_parent (outline rig) d child bn = true ->
  exists i b p pb anc,
    nth_error (edit_bones rig) i = Some b /\ name b = bn /\
    parent b = Some p /\ nth_error (edit_bones rig) p = Some pb /\
    Dict.get d anc = Some (name pb) /\ vrm_parent_in d child anc.
Proof.
  unfold follows_vrm_parent. intros H.
  apply existsb_exists in H. destruct H as (i & _ & H).
  destruct (nth_error (outline rig) i) as [[n [p |]] |] eqn:Hi;
    try discriminate.
  destruct (String.eqb_spec n bn) as [-> | _]; [| discriminate].
  destruct (nth_error (outline rig) p) as [[pn pp] |] eqn:Hp;
    [| discriminate].
  apply existsb_exists in H. destruct H as (anc & _ & H).
  destruct (Dict.get d anc) as [an |] eqn:Hanc; [| discriminate].
  destruct (String.eqb_spec an pn) as [-> | _]; [| discriminate].
  destruct (outline_nth_error rig i bn (Some p) Hi) as (b & Hb & Hbn & Hbp).
  destruct (outline_nth_error rig p pn pp Hp) as (pb & Hpb & Hpn & _).
  exists i, b, p, pb, anc.
  split; [exact Hb |]. split; [exact Hbn |]. split; [exact Hbp |].
  split; [exact Hpb |]. split; [rewrite Hpn; exact Hanc |].
  apply vrm_parent_inb_sound. exact H.
Qed.

Lemma synthesized_names_follow_vrm_parents (nail : bool) :
  forallb
    (fun kv =>
       String.eqb (fst kv) "hips"
       || follows_vrm_parent (synthesized_outline nail) synthesized_bone_names
            (fst kv) (snd kv))
    synthesized_bone_names = true.
Proof. destruct nail; vm_compute; reflexivity. Qed.

(** *** What the construction steps do to the list of bones *)

Lemma replace_nth_beyond {A : Type} (n : nat) (x : A) (l : list A) :
  (List.length l <= n)%nat -> replace_nth n x l = l.
Proof.
  revert n. induction l as [| y l IH]; intros [| n] H; cbn in *;
    try reflexivity; try lia.
  f_equal. apply IH. lia.
Qed.

Lemma replace_nth_twice {A : Type} (n : nat) (x y : A) (l : list A) :
  replace_nth n y (replace_nth n x l) = replace_nth n y l.
Proof.
  revert n. induction l as [| z l IH]; intros [| n]; cbn; try reflexivity.
  f_equal. apply IH.
Qed.

Lemma nth_replace_nth_same {A : Type} (n : nat) (x d : A) (l : list A) :
  (n < List.length l)%nat -> nth n (replace_nth n x l) d = x.
Proof.
  revert n. induction l as [| z l IH]; intros [| n] H; cbn in *;
    try reflexivity; try lia.
  apply IH. lia.
Qed.

Lemma replace_with_twice (b : nat) (f g : EditBone -> EditBone)
    (l : list EditBone) :
  replace_with b g (replace_with b f l) = replace_with b (fun x => g (f x)) l.
Proof.
  unfold replace_with.
  destruct (Nat.lt_ge_cases b (List.length l)) as [Hlt | Hge].
  - rewrite nth_replace_nth_same by exact Hlt. apply replace_nth_twice.
  - rewrite !(replace_nth_beyond b _ l) by exact Hge. reflexivity.
Qed.

Lemma edit_bones_update_bone (b : nat) (f : EditBone -> EditBone) (rig : Rig) :
  edit_bones (update_bone b f rig) = replace_with b f (edit_bones rig).
Proof. reflexivity. Qed.

(** The loop body of the thumb correction, on the list of bones. *)
Lemma turn_about_run (o : vec3) (angle r : R) (b : nat) (rig : Rig) :
  exists rig',
    (inv <- lift (inverted (Matrix_Translation o)) ;;
     modify b (transform inv) ;;;
     modify b (transform (Matrix_Rotation_Z (radians angle))) ;;;
     modify b (transform (Matrix_Translation o)) ;;;
     modify b (set_roll r))%arm rig = Ok (tt, rig') /\
    edit_bones rig' = replace_with b (turn o angle r) (edit_bones rig).
Proof.
  rewrite inverted_Translation. eexists. split; [reflexivity |].
  rewrite !edit_bones_update_bone, !replace_with_twice. reflexivity.
Qed.

Lemma thumb_correction_run
    (thumbs : (nat * nat) * (nat * nat) * (nat * nat)) (rig : Rig) :
  exists rig',
    thumb_correction thumbs rig = Ok (tt, rig') /\
    edit_bones rig' = turned thumbs (edit_bones rig).
Proof.
  unfold thumb_correction, turned.
  unfold bindM at 1. unfold read at 1. unfold bindM at 1. unfold read at 1.
  cbv zeta. fold (bone_at rig (pick (segment thumbs 0) 0)).
  fold (bone_at rig (pick (segment thumbs 0) 1)).
  set (ol := head (bone_at rig (pick (segment thumbs 0) 0))).
  set (or := head (bone_at rig (pick (segment thumbs 0) 1))).
  assert (Hpair : forall j rig0,
             exists rig1,
               for_each (enumerate [-45; 45])
                 (fun '(n, angle) =>
                    inv <- lift (inverted
                                   (pick (Matrix_Translation ol,
                                          Matrix_Translation or) n)) ;;
                    modify (pick (segment thumbs j) n) (transform inv) ;;;
                    modify (pick (segment thumbs j) n)
                      (transform (Matrix_Rotation_Z (radians angle))) ;;;
                    modify (pick (segment thumbs j) n)
                      (transform (pick (Matrix_Translation ol,
                                        Matrix_Translation or) n)) ;;;
                    modify (pick (segment thumbs j) n)
                      (set_roll (pick (0, radians 180) n)))%arm rig0
               = Ok (tt, rig1) /\
               edit_bones rig1 =
               replace_with (pick (segment thumbs j) 1)
                 (turn or 45 (radians 180))
                 (replace_with (pick (segment thumbs j) 0)
                    (turn ol (-45) 0) (edit_bones rig0))).
  { intros j rig0. cbn [enumerate List.length seq combine for_each pick fst snd].
    destruct (turn_about_run ol (-45) 0 (fst (segment thumbs j)) rig0)
      as (rigl & El & Hl).
    destruct (turn_about_run or 45 (radians 180) (snd (segment thumbs j)) rigl)
      as (rigr & Er & Hr).
    exists rigr. split.
    - unfold bindM at 1. rewrite El. unfold bindM at 1. rewrite Er.
      reflexivity.
    - rewrite Hr, Hl. reflexivity. }
  cbn [seq for_each fold_left].
  destruct (Hpair 0%nat rig) as (rig1 & E1 & H1).
  destruct (Hpair 1%nat rig1) as (rig2 & E2 & H2).
  destruct (Hpair 2%nat rig2) as (rig3 & E3 & H3).
  exists rig3. split.
  - unfold bindM at 1. rewrite E1. unfold bindM at 1. rewrite E2.
    unfold bindM at 1. rewrite E3. reflexivity.
  - rewrite H3, H2, H1. reflexivity.
Qed.

Lemma step_lift_eq {A B : Type} (r : result A) (k : A -> M B)
    (rig : Rig) (res : B * Rig) :
  bindM (lift r) k rig = Ok res ->
  exists v, r = Ok v /\ k v rig = Ok res.
Proof.
  unfold bindM, lift. destruct r as [v | e]; intros H.
  - exists v. split; [reflexivity | exact H].
  - discriminate H.
Qed.

Lemma full_bone_add {B : Type} (n : string) (h t : vec3) (p : option nat)
    (r ro : R) (k : nat -> M B) (rig : Rig) (res : B * Rig)
    (l : list EditBone) (len : nat) :
  edit_bones rig = l ->
  List.length (edit_bones rig) = len ->
  bindM (bone_add n h t p r ro) k rig = Ok res ->
  exists rig1,
    edit_bones rig1 = l ++ [Bone n h t r r 0.01 (radians ro) p] /\
    List.length (edit_bones rig1) = S len /\
    k len rig1 = Ok res.
Proof.
  intros <- <- H. unfold bindM in H. rewrite bone_add_run in H.
  eexists. split; [| split; [| exact H]].
  - reflexivity.
  - cbn [edit_bones]. rewrite length_app. cbn [List.length]. lia.
Qed.

Lemma full_x_mirror_bones_add {B : Type} (base_name : string)
    (h t : vec3) (parents : nat * nat) (r : R) (bone_type : string)
    (k : nat * nat -> M B) (rig : Rig) (res : B * Rig)
    (l : list EditBone) (len : nat) :
  edit_bones rig = l ->
  List.length (edit_bones rig) = len ->
  bindM (x_mirror_bones_add base_name h t parents r bone_type) k rig = Ok res ->
  exists left_roll right_roll rig1,
    edit_bones rig1 =
      l ++ [ Bone (base_name ++ "_L") h t r r 0.01 (radians left_roll)
                  (Some (fst parents));
             Bone (base_name ++ "_R") (x_mirrored h) (x_mirrored t) r r 0.01
                  (radians right_roll) (Some (snd parents)) ] /\
    List.length (edit_bones rig1) = S (S len) /\
    k (len, S len) rig1 = Ok res.
Proof.
  intros <- <- H. unfold x_mirror_bones_add in H. cbv zeta in H.
  destruct (if String.eqb bone_type "arm" then (180, 0)
            else if String.eqb bone_type "leg" then (90, 90) else (0, 0))
    as [right_roll left_roll].
  unfold bindM in H. rewrite !bone_add_run in H. unfold ret in H.
  cbn [edit_bones] in H. rewrite length_app in H. cbn [List.length] in H.
  replace (List.length (edit_bones rig) + 1)%nat
    with (S (List.length (edit_bones rig))) in H by lia.
  exists left_roll, right_roll. eexists. split; [| split; [| exact H]].
  - cbn [edit_bones]. rewrite <- app_assoc. reflexivity.
  - cbn [edit_bones]. rewrite !length_app. cbn [List.length]. lia.
Qed.

Lemma full_read {A B : Type} (field : EditBone -> A) (b : nat)
    (k : A -> M B) (rig : Rig) (res : B * Rig) (l : list EditBone) :
  edit_bones rig = l ->
  bindM (read field b) k rig = Ok res ->
  exists v, v = field (nth b l null_bone) /\ k v rig = Ok res.
Proof. intros <- H. eexists. split; [reflexivity | exact H]. Qed.

Lemma length_replace_with (b : nat) (f : EditBone -> EditBone)
    (l : list EditBone) :
  List.length (replace_with b f l) = List.length l.
Proof. apply length_replace_nth. Qed.

Lemma length_turned (thumbs : (nat * nat) * (nat * nat) * (nat * nat))
    (l : list EditBone) :
  List.length (turned thumbs l) = List.length l.
Proof.
  unfold turned. cbn [seq fold_left]. rewrite !length_replace_with.
  reflexivity.
Qed.

Lemma full_thumb_correction {B : Type}
    (thumbs : (nat * nat) * (nat * nat) * (nat * nat))
    (k : unit -> M B) (rig : Rig) (res : B * Rig) (l : list EditBone)
    (len : nat) :
  edit_bones rig = l ->
  List.length (edit_bones rig) = len ->
  bindM (thumb_correction thumbs) k rig = Ok res ->
  exists rig1,
    edit_bones rig1 = turned thumbs l /\
    List.length (edit_bones rig1) = len /\
    k tt rig1 = Ok res.
Proof.
  intros <- <- H. destruct (thumb_correction_run thumbs rig) as (rig1 & E & Hb).
  unfold bindM in H. rewrite E in H. exists rig1.
  split; [exact Hb |]. split; [| exact H].
  rewrite Hb. apply length_turned.
Qed.

(** A local variable of the method that is at the head of the run that is
    left: a number is given a name and an equation, anything else is
    replaced by its value. *)
Ltac name_let :=
  lazymatch goal with
  | Hrun : (let x := ?e in @?f x) ?rig = ?res |- _ =>
      lazymatch type of e with
      | R =>
          let y := fresh x in
          let Hy := fresh "H" y in
          pose (y := e); assert (Hy : y = e) by reflexivity;
          change (f y rig = res) in Hrun; clearbody y; cbv beta in Hrun
      | _ => change (f e rig = res) in Hrun; cbv beta in Hrun
      end
  end.

(** One step of a run whose bones are known: [Hrun] is the run that is
    left, [Hbones] the bones made so far, [Hlen] their number. *)
Ltac bones_step :=
  lazymatch goal with
  | Hbones : edit_bones ?rig = ?l,
    Hlen : List.length (edit_bones ?rig) = _,
    Hrun : bindM (bone_add _ _ _ _ _ _) _ ?rig = Ok _ |- _ =>
      let rig1 := fresh "rig" in
      let Hb := fresh "Hb" in
      let Hl := fresh "Hl" in
      let H1 := fresh "H" in
      destruct (full_bone_add _ _ _ _ _ _ _ _ _ _ _ Hbones Hlen Hrun)
        as (rig1 & Hb & Hl & H1);
      clear Hrun Hbones Hlen;
      rename H1 into Hrun; rename Hb into Hbones; rename Hl into Hlen;
      lazy beta iota delta [app String.append fst snd] in Hbones;
      cbv beta in Hrun
  | Hbones : edit_bones ?rig = ?l,
    Hlen : List.length (edit_bones ?rig) = _,
    Hrun : bindM (x_mirror_bones_add _ _ _ _ _ _) _ ?rig = Ok _ |- _ =>
      let rig1 := fresh "rig" in
      let ll := fresh "left_roll" in
      let rr := fresh "right_roll" in
      let Hb := fresh "Hb" in
      let Hl := fresh "Hl" in
      let H1 := fresh "H" in
      destruct (full_x_mirror_bones_add _ _ _ _ _ _ _ _ _ _ _
                  Hbones Hlen Hrun)
        as (ll & rr & rig1 & Hb & Hl & H1);
      clear Hrun Hbones Hlen;
      rename H1 into Hrun; rename Hb into Hbones; rename Hl into Hlen;
      lazy beta iota delta [app String.append fst snd] in Hbones;
      cbv beta in Hrun
  | Hbones : edit_bones ?rig = ?l,
    Hlen : List.length (edit_bones ?rig) = _,
    Hrun : bindM (thumb_correction _) _ ?rig = Ok _ |- _ =>
      let rig1 := fresh "rig" in
      let Hb := fresh "Hb" in
      let Hl := fresh "Hl" in
      let H1 := fresh "H" in
      destruct (full_thumb_correction _ _ _ _ _ _ Hbones Hlen Hrun)
        as (rig1 & Hb & Hl & H1);
      clear Hrun Hbones Hlen;
      rename H1 into Hrun; rename Hb into Hbones; rename Hl into Hlen;
      lazy beta iota zeta delta
        [turned fold_left seq pick segment fst snd replace_with
         replace_nth nth head] in Hbones;
      cbv beta in Hrun
  | Hbones : edit_bones ?rig = ?l,
    Hrun : bindM (read _ _) _ ?rig = Ok _ |- _ =>
      let v := fresh "v" in
      let Hv := fresh "Hv" in
      let H1 := fresh "H" in
      destruct (full_read _ _ _ _ _ _ Hbones Hrun) as (v & Hv & H1);
      clear Hrun; rename H1 into Hrun;
      lazy beta iota delta [nth pick fst snd head tail] in Hv;
      subst v; cbv beta in Hrun
  | Hrun : bindM (lift _) _ _ = Ok _ |- _ =>
      let v := fresh "v" in
      let Hv := fresh "Hv" in
      apply step_lift_eq in Hrun; destruct Hrun as (v & Hv & Hrun);
      cbv beta in Hrun;
      lazymatch type of v with
      | (R * R * R)%type => destruct v as [[? ?] ?]
      | _ => idtac
      end
  end.

Ltac full_step := first [ name_let | bones_step ].

Ltac enter_fingers :=
  lazymatch goal with
  | Hnail : nail_bone ?self = _,
    Hrun : bindM (fingers ?self _ _ _ _) _ _ = Ok (_, _) |- _ =>
      let f := fresh "f" in
      let rigf := fresh "rigf" in
      let Hrest := fresh "Hrest" in
      apply bindM_Ok_inv in Hrun;
      destruct Hrun as (f & rigf & Hrun & Hrest);
      unfold fingers in Hrun; rewrite Hnail in Hrun;
      repeat full_step;
      apply bindM_Ok_inv in Hrun;
      let u := fresh "u" in
      let rigu := fresh "rigu" in
      let Hret := fresh "Hret" in
      destruct Hrun as (u & rigu & Hrun & Hret);
      repeat full_step;
      unfold ret in Hrun, Hret;
      injection Hrun as <- <-; injection Hret as <- <-;
      rename Hrest into Hrun; cbv beta in Hrun
  end.

(** *** The geometry of the synthesized rig *)

Lemma hand_size_Ok_inv (self : ICYP_OT_MAKE_ARMATURE) (v : R) :
  hand_size self = Ok v ->
  head_ratio self <> 0 /\
  v = tall self / head_ratio self * 0.75 * hand_ratio self.
Proof.
  unfold hand_size, head_size, bind.
  destruct (py_div (tall self) (head_ratio self)) as [hs |] eqn:E;
    [| discriminate].
  apply py_div_Ok_inv in E. destruct E as [Hne ->].
  intros [= <-]. split; [exact Hne | reflexivity].
Qed.

Lemma hand_size_nonzero (self : ICYP_OT_MAKE_ARMATURE) (v : R) :
  hand_size self = Ok v -> tall self <> 0 -> hand_ratio self <> 0 -> v <> 0.
Proof.
  intros Hv Ht Hr. apply hand_size_Ok_inv in Hv. destruct Hv as [Hh ->].
  unfold Rdiv.
  apply Rmult_integral_contrapositive_currified; [| exact Hr].
  apply Rmult_integral_contrapositive_currified; [| lra].
  apply Rmult_integral_contrapositive_currified; [exact Ht |].
  apply Rinv_neq_0_compat. exact Hh.
Qed.

Lemma finger_lens_total (self : ICYP_OT_MAKE_ARMATURE) (L p i d : R) :
  finger_lens self L = Ok (p, i, d) -> p + i + d = L.
Proof.
  unfold finger_lens, bind.
  destruct (py_div 1 (finger_1_2_ratio self * finger_2_3_ratio self
                      + finger_1_2_ratio self + 1)) as [k |] eqn:E;
    [| discriminate].
  apply py_div_Ok_inv in E. destruct E as [Hne ->].
  intros [= <- <- <-]. field. exact Hne.
Qed.

Lemma cos_45_not_1 : cos (radians 45) <> 1.
Proof.
  replace (radians 45) with (PI / 4) by (unfold radians; lra).
  rewrite cos_PI4. intros H.
  assert (Hs : sqrt 2 = 1).
  { assert (Hpos : 0 < sqrt 2) by (apply sqrt_lt_R0; lra).
    apply (f_equal (fun x => x * sqrt 2)) in H.
    unfold Rdiv in H. rewrite Rmult_assoc, Rinv_l in H by lra. lra. }
  pose proof (sqrt_sqrt 2 ltac:(lra)) as Hsq. rewrite Hs in Hsq. lra.
Qed.

(** The matrices of the thumb correction do not scale. *)
Lemma unit_diagonal_square : (1 / sqrt 3) * (1 / sqrt 3) = 1 / 3.
Proof.
  assert (Hpos : 0 < sqrt 3) by (apply sqrt_lt_R0; lra).
  pose proof (sqrt_sqrt 3 ltac:(lra)) as Hsq.
  replace (1 / sqrt 3 * (1 / sqrt 3)) with (1 / (sqrt 3 * sqrt 3))
    by (field; lra).
  rewrite Hsq. reflexivity.
Qed.

Lemma median_scale_Translation (v : vec3) :
  median_scale (Matrix_Translation v) = 1.
Proof.
  pose proof unit_diagonal_square as Ha. revert Ha.
  unfold median_scale. generalize (1 / sqrt 3). intros a Ha.
  cbv [Matrix_Translation mat3_apply dot identity3 block row1 row2 row3
       vx vy vz].
  replace ((1 * a + 0 * a + 0 * a) * (1 * a + 0 * a + 0 * a)
           + (0 * a + 1 * a + 0 * a) * (0 * a + 1 * a + 0 * a)
           + (0 * a + 0 * a + 1 * a) * (0 * a + 0 * a + 1 * a))
    with (3 * (a * a)) by ring.
  rewrite Ha. replace (3 * (1 / 3)) with 1 by lra. apply sqrt_1.
Qed.

Lemma median_scale_Rotation_Z (angle : R) :
  median_scale (Matrix_Rotation_Z angle) = 1.
Proof.
  pose proof unit_diagonal_square as Ha. revert Ha.
  pose proof (sin2_cos2 angle) as Hsc. unfold Rsqr in Hsc. revert Hsc.
  unfold median_scale.
  cbv [Matrix_Rotation_Z mat3_apply dot block row1 row2 row3 vx vy vz].
  generalize (1 / sqrt 3) (cos angle) (sin angle).
  intros a c s Hsc Ha.
  replace ((c * a + - s * a + 0 * a) * (c * a + - s * a + 0 * a)
           + (s * a + c * a + 0 * a) * (s * a + c * a + 0 * a)
           + (0 * a + 0 * a + 1 * a) * (0 * a + 0 * a + 1 * a))
    with ((a * a) * (2 * (s * s + c * c) + 1)) by ring.
  rewrite Ha, Hsc. replace (1 / 3 * (2 * 1 + 1)) with 1 by lra. apply sqrt_1.
Qed.

Lemma head_radius_turn (o : vec3) (angle r : R) (b : EditBone) :
  head_radius (turn o angle r b) = head_radius b.
Proof.
  unfold turn, set_roll, transform. cbn [head_radius].
  rewrite !median_scale_Translation, median_scale_Rotation_Z. ring.
Qed.

Lemma tail_radius_turn (o : vec3) (angle r : R) (b : EditBone) :
  tail_radius (turn o angle r b) = tail_radius b.
Proof.
  unfold turn, set_roll, transform. cbn [tail_radius].
  rewrite !median_scale_Translation, median_scale_Rotation_Z. ring.
Qed.

(** Turning the mirror image by +45 degrees about the mirrored origin
    gives the mirror image of turning by -45 degrees. *)
Lemma turn_mirror (o h : vec3) :
  Matrix_apply (Matrix_Translation (x_mirrored o))
    (Matrix_apply (Matrix_Rotation_Z (radians 45))
       (Matrix_apply (Matrix_Translation (vscale (-1) (x_mirrored o)))
          (x_mirrored h)))
  = x_mirrored
      (Matrix_apply (Matrix_Translation o)
         (Matrix_apply (Matrix_Rotation_Z (radians (-45)))
            (Matrix_apply (Matrix_Translation (vscale (-1) o)) h))).
Proof.
  replace (radians (-45)) with (- radians 45) by (unfold radians; lra).
  unfold Matrix_Rotation_Z. rewrite cos_neg, sin_neg.
  generalize (cos (radians 45)) (sin (radians 45)). intros c s.
  destruct o as [ox oy oz], h as [hx hy hz].
  cbv [Matrix_apply Matrix_Translation mat3_apply vadd dot identity3
       vscale x_mirrored block translation row1 row2 row3 vx vy vz].
  f_equal; ring.
Qed.

Lemma x_mirrored_injective (a b : vec3) : x_mirrored a = x_mirrored b -> a = b.
Proof.
  destruct a as [ax ay az], b as [bx by_ bz]. unfold x_mirrored.
  cbn [vx vy vz]. intros [= Hx Hy Hz]. f_equal; lra.
Qed.

(** The correction moves the tip of a left thumb of length [a + b + c]:
    the point where the nail bone was put is not where the distal bone
    ends afterwards. *)
Lemma thumb_tip_moves_L (o : vec3) (a b c : R) :
  a + b + c <> 0 ->
  x_add (x_add (x_add o a) b) c
  <> Matrix_apply (Matrix_Translation o)
       (Matrix_apply (Matrix_Rotation_Z (radians (-45)))
          (Matrix_apply (Matrix_Translation (vscale (-1) o))
             (x_add (x_add (x_add o a) b) c))).
Proof.
  intros Hne H.
  replace (radians (-45)) with (- radians 45) in H by (unfold radians; lra).
  unfold Matrix_Rotation_Z in H. rewrite cos_neg, sin_neg in H.
  pose proof cos_45_not_1 as Hc. revert H Hc.
  generalize (cos (radians 45)) (sin (radians 45)). intros C S H Hc.
  destruct o as [ox oy oz].
  cbv [Matrix_apply Matrix_Translation mat3_apply vadd dot identity3
       vscale x_add block translation row1 row2 row3 vx vy vz] in H.
  injection H as Hx _ _.
  assert (E : (1 - C) * (a + b + c) = 0).
  { match type of Hx with
    | ?l = ?r => replace ((1 - C) * (a + b + c)) with (l - r) by ring
    end.
    rewrite <- Hx. ring. }
  apply Rmult_integral in E. destruct E as [E | E]; [apply Hc; lra | auto].
Qed.

Lemma thumb_tip_moves_R (o : vec3) (a b c : R) :
  a + b + c <> 0 ->
  x_mirrored (x_add (x_add (x_add o a) b) c)
  <> Matrix_apply (Matrix_Translation (x_mirrored o))
       (Matrix_apply (Matrix_Rotation_Z (radians 45))
          (Matrix_apply (Matrix_Translation (vscale (-1) (x_mirrored o)))
             (x_mirrored (x_add (x_add (x_add o a) b) c)))).
Proof.
  intros Hne H. rewrite turn_mirror in H. apply x_mirrored_injective in H.
  exact (thumb_tip_moves_L o a b c Hne H).
Qed.

Lemma starts_at_parent_root (l : list EditBone) (b : EditBone) :
  parent b = None -> starts_at_parent l b.
Proof. unfold starts_at_parent. intros ->. exact I. Qed.

Lemma starts_at_parent_head (l : list EditBone) (b : EditBone) (p : nat) :
  parent b = Some p ->
  existsb (String.eqb (name b)) chain_heads = true ->
  starts_at_parent l b.
Proof.
  unfold starts_at_parent. intros -> H. left.
  apply DictFacts.existsb_eqb_In. exact H.
Qed.

Lemma starts_at_parent_link (l : list EditBone) (b pb : EditBone) (p : nat) :
  parent b = Some p ->
  nth_error l p = Some pb ->
  head b = tail pb ->
  starts_at_parent l b.
Proof.
  unfold starts_at_parent. intros -> Hp H. right. exists pb.
  split; assumption.
Qed.

Ltac mirror_pair :=
  unfold mirror_of; cbn [name head tail head_radius tail_radius];
  split;
  [ lazymatch goal with
    | |- exists base, ?n = _ /\ _ =>
        exists (substring 0 (String.length n - 2) n); split; reflexivity
    end
  | split; [first [reflexivity | apply turn_mirror] |];
    split; [first [reflexivity | apply turn_mirror] |];
    split;
    first [ reflexivity
          | rewrite !head_radius_turn; reflexivity
          | rewrite !tail_radius_turn; reflexivity ] ].

Ltac chain_link :=
  first
    [ apply starts_at_parent_root; reflexivity
    | eapply starts_at_parent_head; reflexivity
    | eapply starts_at_parent_link;
      [ reflexivity | reflexivity
      | first [ reflexivity
              | unfold z_add; cbn [head tail vx vy vz]; f_equal;
                repeat match goal with
                       | H : ?y = _ |- _ => is_var y; subst y
                       end;
                first [lra | field] ] ] ].

(** The total length of the thumb is not zero. *)
Ltac thumb_length self Ht Hr :=
  lazymatch goal with
  | |- ?p + ?i + ?d <> 0 =>
      match goal with
      | H : finger_lens self ?L = Ok (p, i, d) |- _ =>
          rewrite (finger_lens_total self L p i d H);
          match goal with
          | Hh : hand_size self = Ok ?v |- ?v / 2 <> 0 =>
              pose proof (hand_size_nonzero self v Hh Ht Hr); lra
          end
      end
  end.

Ltac upright_bone :=
  lazy beta iota zeta delta
    [upright named center_bones sole_bones existsb String.eqb Ascii.eqb
     Bool.eqb orb name head tail vx vy vz z_add x_add x_mirrored];
  repeat split; first [reflexivity | lra].

(** The calls of [hand_size] of one run return the same number. *)
Ltac same_hand_size self :=
  repeat match goal with
         | H1 : hand_size self = Ok ?a, H2 : hand_size self = Ok ?b |- _ =>
             tryif constr_eq a b then fail
             else (assert (b = a) by congruence; subst b; clear H2)
         end.

(** From the wrist to the tip of the middle finger. *)
Ltac hand_span self :=
  cbn [head tail];
  lazymatch goal with
  | |- context [x_add (x_add (x_add (y_add (x_add ?T _) _) ?p) ?i) ?d] =>
      match goal with
      | H : finger_lens self ?L = Ok (p, i, d) |- _ =>
          pose proof (finger_lens_total self L p i d H);
          generalize T; intros [tx ty tz];
          cbv [x_add y_add x_mirrored vx vy vz]; lra
      end
  end.

Ltac hand_and_tip self hand_l tip_l :=
  same_hand_size self;
  lazymatch goal with
  | H : hand_size self = Ok ?v |- _ => exists v; split; [exact H |]
  end;
  unfold hand_measures; eexists; eexists; eexists; eexists;
  split; [apply (nth_error_In _ hand_l); reflexivity |];
  split; [reflexivity |];
  split; [apply (nth_error_In _ tip_l); reflexivity |];
  split; [reflexivity |];
  split; [apply (nth_error_In _ (S hand_l)); reflexivity |];
  split; [reflexivity |];
  split; [apply (nth_error_In _ (S tip_l)); reflexivity |];
  split; [reflexivity |];
  split; hand_span self.

Ltac first_bones :=
  split;
  [ eexists; split; [reflexivity |]; repeat split
  | eexists; eexists;
    split; [reflexivity |]; split; [reflexivity |];
    split; [reflexivity |]; split; [reflexivity |];
    split;
    cbv [length_squared head tail vx vy vz x_mirrored];
    repeat match goal with
           | H : ?y = _ |- _ => is_var y; subst y
           end;
    ring ].

Lemma make_bones_geometry (self : ICYP_OT_MAKE_ARMATURE)
    (sk : Skeleton) (rig : Rig) :
  make_bones self empty_rig = Ok (sk, rig) ->
  pairs_mirrored (skipn 6 (edit_bones rig)) /\
  Forall (starts_at_parent (edit_bones rig)) (edit_bones rig) /\
  Forall (upright self) (edit_bones rig) /\
  (nail_bone self = true -> tall self <> 0 -> hand_ratio self <> 0 ->
   thumb_nail_detached (edit_bones rig) "_L" /\
   thumb_nail_detached (edit_bones rig) "_R") /\
  (exists hs, hand_size self = Ok hs /\ hand_measures (edit_bones rig) hs) /\
  root_and_eyes self (edit_bones rig).
Proof.
  intros Hrun.
  assert (Hbones : edit_bones empty_rig = []) by reflexivity.
  assert (Hlen : List.length (edit_bones empty_rig) = 0%nat) by reflexivity.
  unfold make_bones in Hrun.
  destruct (nail_bone self) eqn:Hnail.
  - repeat first [ full_step | enter_fingers ].
    unfold ret in Hrun. injection Hrun as <- <-.
    rewrite Hbones. clear Hbones Hlen.
    split; [| split; [| split; [| split; [| split]]]].
    + clear. cbn [skipn pairs_mirrored].
      repeat (split; [mirror_pair |]). exact I.
    + lazymatch goal with
      | |- Forall (starts_at_parent ?l) _ => set (bones := l) at 1
      end.
      repeat (apply Forall_cons; [chain_link |]). apply Forall_nil.
    + clear. repeat (apply Forall_cons; [upright_bone |]). apply Forall_nil.
    + intros _ Ht Hr. split.
      * exists 28%nat. eexists. eexists.
        split; [reflexivity |]. split; [reflexivity |].
        split; [apply (nth_error_In _ 30%nat); reflexivity |].
        split; [reflexivity |]. split; [reflexivity |].
        apply thumb_tip_moves_L. thumb_length self Ht Hr.
      * exists 29%nat. eexists. eexists.
        split; [reflexivity |]. split; [reflexivity |].
        split; [apply (nth_error_In _ 31%nat); reflexivity |].
        split; [reflexivity |]. split; [reflexivity |].
        apply thumb_tip_moves_R. thumb_length self Ht Hr.
    + hand_and_tip self 22%nat 44%nat.
    + first_bones.
  - repeat first [ full_step | enter_fingers ].
    unfold ret in Hrun. injection Hrun as <- <-.
    rewrite Hbones. clear Hbones Hlen.
    split; [| split; [| split; [| split; [| split]]]].
    + clear. cbn [skipn pairs_mirrored].
      repeat (split; [mirror_pair |]). exact I.
    + lazymatch goal with
      | |- Forall (starts_at_parent ?l) _ => set (bones := l) at 1
      end.
      repeat (apply Forall_cons; [chain_link |]). apply Forall_nil.
    + clear. repeat (apply Forall_cons; [upright_bone |]). apply Forall_nil.
    + intros Hno. discriminate Hno.
    + hand_and_tip self 22%nat 40%nat.
    + first_bones.
Qed.

(** *** Leaving edit mode *)

Lemma nth_error_remove_nth {A : Type} (l : list A) :
  forall i j,
    nth_error (remove_nth i l) j =
    if Nat.ltb j i then nth_error l j else nth_error l (S j).
Proof.
  induction l as [| x l IH]; intros i j.
  - cbn [remove_nth]. destruct (Nat.ltb j i), j; reflexivity.
  - destruct i as [| i]; cbn [remove_nth].
    + reflexivity.
    + destruct j as [| j]; [reflexivity |].
      cbn [nth_error]. rewrite IH.
      change (Nat.ltb (S j) (S i)) with (Nat.ltb j i). reflexivity.
Qed.

Lemma length_remove_nth {A : Type} (l : list A) :
  forall i, (i < List.length l)%nat ->
            S (List.length (remove_nth i l)) = List.length l.
Proof.
  induction l as [| x l IH]; intros i Hi; [cbn in Hi; lia |].
  destruct i as [| i]; cbn [remove_nth List.length]; [reflexivity |].
  cbn [List.length] in Hi. rewrite IH by lia. reflexivity.
Qed.

Lemma firstn_remove_nth {A : Type} (l : list A) :
  forall i, firstn i (remove_nth i l) = firstn i l.
Proof.
  induction l as [| x l IH]; intros [| i]; cbn [remove_nth firstn];
    try reflexivity.
  rewrite IH. reflexivity.
Qed.

Lemma skipn_remove_nth {A : Type} (l : list A) :
  forall i, skipn i (remove_nth i l) = skipn (S i) l.
Proof.
  induction l as [| x l IH]; intros i.
  - cbn [remove_nth]. rewrite !skipn_nil. reflexivity.
  - destruct i as [| i]; [reflexivity |].
    cbn [remove_nth]. change (skipn (S i) (x :: remove_nth i l))
      with (skipn i (remove_nth i l)).
    rewrite IH. reflexivity.
Qed.

Lemma bone_free_parents_first (i : nat) (l : list EditBone) :
  parents_first l -> (1 <= i)%nat -> parents_first (bone_free i l).
Proof.
  intros Hall Hi j b Hb. unfold bone_free in Hb.
  rewrite nth_error_map in Hb.
  destruct (nth_error (remove_nth i l) j) as [c |] eqn:Hc;
    cbn [option_map] in Hb; [| discriminate Hb].
  injection Hb as <-. cbn [parent set_parent].
  rewrite nth_error_remove_nth in Hc.
  assert (Hgone : match parent (nth i l null_bone) with
                  | None => (List.length l <= i)%nat
                  | Some p => (p < i)%nat
                  end).
  { destruct (nth_error l i) as [bi |] eqn:Hbi.
    - rewrite (nth_error_nth l i null_bone Hbi).
      pose proof (Hall i bi Hbi) as H. destruct (parent bi); lia.
    - apply nth_error_None in Hbi.
      rewrite (nth_overflow l null_bone Hbi). exact Hbi. }
  destruct (Nat.ltb_spec j i) as [Hlt | Hge].
  - pose proof (Hall j c Hc) as H.
    destruct (parent c) as [q |]; cbn [relinked]; [| exact H].
    destruct (Nat.eqb_spec q i) as [-> | _]; [lia |].
    unfold shifted. destruct (Nat.ltb_spec i q); lia.
  - pose proof (Hall (S j) c Hc) as H.
    assert (Hj : (S j < List.length l)%nat).
    { apply nth_error_Some. rewrite Hc. discriminate. }
    destruct (parent c) as [q |]; cbn [relinked]; [| lia].
    destruct (Nat.eqb_spec q i) as [-> | Hne].
    + destruct (parent (nth i l null_bone)) as [p |]; cbn [option_map];
        [| lia].
      unfold shifted. destruct (Nat.ltb_spec i p); lia.
    + unfold shifted. destruct (Nat.ltb_spec i q); lia.
Qed.

Lemma from_edit_parents_first (n : nat) :
  forall i l,
    parents_first l -> (1 <= i)%nat -> parents_first (from_edit n i l).
Proof.
  induction n as [| n IH]; intros i l Hall Hi; cbn [from_edit]; [exact Hall |].
  destruct (nth_error l i) as [b |]; [| exact Hall].
  destruct (zero_sized b).
  - apply IH; [apply bone_free_parents_first; assumption | exact Hi].
  - apply IH; [exact Hall | lia].
Qed.

Lemma unlinked_set_parent (p : option nat) (b : EditBone) :
  unlinked (set_parent p b) = unlinked b.
Proof. reflexivity. Qed.

Lemma zero_sized_unlinked (b : EditBone) :
  zero_sized (unlinked b) = zero_sized b.
Proof. reflexivity. Qed.

Lemma kept_relinked (g : EditBone -> EditBone) (l : list EditBone) :
  (forall b, unlinked (g b) = unlinked b) ->
  map unlinked (kept (map g l)) = map unlinked (kept l).
Proof.
  intros Hg. induction l as [| b l IH]; [reflexivity |].
  cbn [map kept filter].
  assert (Hz : zero_sized (g b) = zero_sized b).
  { rewrite <- (zero_sized_unlinked (g b)), Hg. reflexivity. }
  rewrite Hz. destruct (zero_sized b); cbn [negb map].
  - exact IH.
  - rewrite Hg. f_equal. exact IH.
Qed.

Lemma map_unlinked_relinked (g : EditBone -> EditBone) (l : list EditBone) :
  (forall b, unlinked (g b) = unlinked b) ->
  map unlinked (map g l) = map unlinked l.
Proof.
  intros Hg. rewrite map_map. apply map_ext. exact Hg.
Qed.

(** What the walk keeps: the bones before [i], and of the others those
    that are not zero-sized, each up to its parent link. *)
Lemma from_edit_kept (n : nat) :
  forall i l,
    (List.length l <= n + i)%nat ->
    map unlinked (from_edit n i l)
    = map unlinked (firstn i l ++ kept (skipn i l)).
Proof.
  induction n as [| n IH]; intros i l Hn.
  - cbn [from_edit]. rewrite firstn_all2 by lia. rewrite skipn_all2 by lia.
    rewrite app_nil_r. reflexivity.
  - cbn [from_edit]. destruct (nth_error l i) as [b |] eqn:Hb.
    + assert (Hi : (i < List.length l)%nat).
      { apply nth_error_Some. rewrite Hb. discriminate. }
      assert (Hskip : skipn i l = b :: skipn (S i) l).
      { rewrite <- (firstn_skipn i l) in Hb at 1.
        rewrite nth_error_app2 in Hb by (rewrite length_firstn; lia).
        rewrite length_firstn in Hb.
        replace (i - Nat.min i (List.length l))%nat with 0%nat in Hb by lia.
        destruct (skipn i l) as [| x rest] eqn:E; [discriminate Hb |].
        injection Hb as ->. f_equal.
        replace (S i) with (1 + i)%nat by lia.
        rewrite <- skipn_skipn, E. reflexivity. }
      destruct (zero_sized b) eqn:Hz.
      * rewrite IH
          by (unfold bone_free; rewrite length_map;
              pose proof (length_remove_nth l i Hi); lia).
        unfold bone_free.
        set (g := fun b0 : EditBone =>
                    set_parent
                      (relinked i (parent (nth i l null_bone)) (parent b0))
                      b0).
        assert (Hg : forall b0, unlinked (g b0) = unlinked b0)
          by (intros b0; reflexivity).
        rewrite !map_app, firstn_map, skipn_map.
        rewrite (map_unlinked_relinked g _ Hg), (kept_relinked g _ Hg).
        rewrite firstn_remove_nth, skipn_remove_nth, Hskip.
        cbn [kept filter]. rewrite Hz. reflexivity.
      * rewrite IH by lia. rewrite Hskip. cbn [kept filter]. rewrite Hz.
        cbn [negb].
        assert (Hfirst : firstn (S i) l = firstn i l ++ [b]).
        { rewrite <- (firstn_skipn i l) at 1.
          rewrite firstn_app, length_firstn.
          replace (S i - Nat.min i (List.length l))%nat with 1%nat by lia.
          rewrite firstn_firstn. replace (Nat.min (S i) i) with i by lia.
          rewrite Hskip. reflexivity. }
        rewrite Hfirst, <- app_assoc. reflexivity.
    + apply nth_error_None in Hb.
      rewrite firstn_all2 by lia. rewrite skipn_all2 by lia.
      rewrite app_nil_r. reflexivity.
Qed.

Lemma from_edit_nothing_to_free (n : nat) :
  forall i l,
    Forall (fun b => zero_sized b = false) l -> from_edit n i l = l.
Proof.
  induction n as [| n IH]; intros i l Hall; cbn [from_edit]; [reflexivity |].
  destruct (nth_error l i) as [b |] eqn:Hb; [| reflexivity].
  rewrite Forall_forall in Hall.
  rewrite (Hall b (nth_error_In l i Hb)).
  apply IH. rewrite Forall_forall. exact Hall.
Qed.

(** The armature in object mode: the bones that were not zero-sized, in
    the order of their creation, and still one tree when the first bone
    is among them. *)
Lemma mode_set_OBJECT_bones (rig : Rig) :
  map unlinked (bones (mode_set_OBJECT rig))
  = map unlinked (kept (edit_bones rig)) /\
  (parents_first (edit_bones rig) ->
   (forall b, nth_error (edit_bones rig) 0 = Some b -> zero_sized b = false) ->
   parents_first (bones (mode_set_OBJECT rig))) /\
  (Forall (fun b => zero_sized b = false) (edit_bones rig) ->
   bones (mode_set_OBJECT rig) = edit_bones rig).
Proof.
  cbn [mode_set_OBJECT bones]. split; [| split].
  - rewrite from_edit_kept by lia. reflexivity.
  - intros Hall Hroot.
    destruct (edit_bones rig) as [| r l] eqn:E; [intros i b; destruct i; discriminate |].
    cbn [List.length from_edit nth_error].
    rewrite (Hroot r eq_refl).
    apply from_edit_parents_first; [exact Hall | lia].
  - apply from_edit_nothing_to_free.
Qed.

Lemma make_bones_first_bones (self : ICYP_OT_MAKE_ARMATURE)
    (sk : Skeleton) (rig : Rig) :
  make_bones self empty_rig = Ok (sk, rig) ->
  root_and_eyes self (edit_bones rig).
Proof.
  intros Hrun.
  destruct (make_bones_geometry self sk rig Hrun) as (_ & _ & _ & _ & _ & H).
  exact H.
Qed.

Lemma zero_sized_false (b : EditBone) :
  0.000001 * 0.000001 < length_squared b -> zero_sized b = false.
Proof.
  intros H. unfold zero_sized.
  destruct (Rle_dec (length_squared b) (0.000001 * 0.000001)); [lra |].
  reflexivity.
Qed.

Lemma zero_sized_true (b : EditBone) :
  length_squared b <= 0.000001 * 0.000001 -> zero_sized b = true.
Proof.
  intros H. unfold zero_sized.
  destruct (Rle_dec (length_squared b) (0.000001 * 0.000001));
    [reflexivity | contradiction].
Qed.

Lemma names_of_unlinked (l : list EditBone) :
  map name (map unlinked l) = map name l.
Proof. rewrite map_map. reflexivity. Qed.

Lemma NoDup_map_injective {A B : Type} (f : A -> B) (l : list A) (a b : A) :
  NoDup (map f l) -> In a l -> In b l -> f a = f b -> a = b.
Proof.
  induction l as [| x l IH]; intros Hnd Ha Hb E; [destruct Ha |].
  cbn [map] in Hnd. apply NoDup_cons_iff in Hnd. destruct Hnd as [Hx Hnd].
  destruct Ha as [-> | Ha], Hb as [-> | Hb].
  - reflexivity.
  - exfalso. apply Hx. rewrite E. apply in_map. exact Hb.
  - exfalso. apply Hx. rewrite <- E. apply in_map. exact Ha.
  - apply IH; assumption.
Qed.

Lemma kept_In (l : list EditBone) (b : EditBone) :
  In b (kept l) <-> In b l /\ zero_sized b = false.
Proof.
  unfold kept. rewrite filter_In. rewrite negb_true_iff. reflexivity.
Qed.

Lemma length_kept (l : list EditBone) :
  (List.length (kept l) <= List.length l)%nat.
Proof. apply filter_length_le. Qed.

Lemma kept_app (l1 l2 : list EditBone) : kept (l1 ++ l2) = kept l1 ++ kept l2.
Proof. apply filter_app. Qed.

(** Two bones that are zero-sized, at places [i] and [S i], are both
    missing from what is kept. *)
Lemma length_kept_less_two (l : list EditBone) (i : nat) (a b : EditBone) :
  nth_error l i = Some a -> nth_error l (S i) = Some b ->
  zero_sized a = true -> zero_sized b = true ->
  (List.length (kept l) + 2 <= List.length l)%nat.
Proof.
  intros Ha Hb Hza Hzb.
  destruct (nth_error_split l i Ha) as (l1 & l2 & -> & Hlen).
  rewrite nth_error_app2 in Hb by lia.
  replace (S i - List.length l1)%nat with 1%nat in Hb by lia.
  destruct l2 as [| b' l2]; [discriminate Hb |].
  cbn [nth_error] in Hb. injection Hb as ->.
  rewrite kept_app. cbn [kept filter]. rewrite Hza, Hzb. cbn [negb].
  rewrite !length_app. cbn [List.length].
  pose proof (length_kept l1). pose proof (length_kept l2).
  fold (kept l2). lia.
Qed.

(** X4.  The bones [make_armature] builds are one tree: 54 of them, 64
    with nails; no two were given the same name, so that Blender names
    each as it was asked; the first has no parent, every other one has a
    parent created before it, and following parents from any bone arrives
    at the first.  The armature that is returned has left edit mode, which
    frees the bones not longer than 0.000001: it has the other bones, in
    the order of their creation, the root first among them, and is still
    one tree.  It has all the bones when none is zero-sized; with an
    [eye_depth] of 0, a value its declaration allows, both eye bones are
    gone, and the name table still has "leftEye" and "rightEye". *)
Theorem synthesized_rig_is_tree (self : ICYP_OT_MAKE_ARMATURE)
    (rig : Rig) (d : Dict.t string) :
  make_armature self = Ok (rig, d) ->
  List.length (edit_bones rig)
    = (24 + 5 * bones_per_finger (nail_bone self))%nat /\
  NoDup (map name (edit_bones rig)) /\
  (forall unique_name : list string -> string -> string,
      (forall used n, ~ In n used -> unique_name used n = n) ->
      blender_names unique_name (edit_bones rig) = map name (edit_bones rig)) /\
  parents_first (edit_bones rig) /\
  (forall i, (i < List.length (edit_bones rig))%nat ->
             reaches_root (edit_bones rig) i) /\
  map unlinked (bones rig) = map unlinked (kept (edit_bones rig)) /\
  (exists r, nth_error (bones rig) 0 = Some r /\ name r = "root" /\
             parent r = None) /\
  parents_first (bones rig) /\
  (forall i, (i < List.length (bones rig))%nat -> reaches_root (bones rig) i) /\
  (Forall (fun b => zero_sized b = false) (edit_bones rig) ->
   bones rig = edit_bones rig) /\
  (eye_depth self = 0 ->
   ~ In "eye_L" (map name (bones rig)) /\
   ~ In "eye_R" (map name (bones rig)) /\
   (List.length (bones rig) + 2 <= List.length (edit_bones rig))%nat /\
   Dict.get d "leftEye" = Some "eye_L" /\
   Dict.get d "rightEye" = Some "eye_R").
Proof.
  intros Hrun.
  destruct (make_armature_Ok_inv self rig d Hrun)
    as (sk & rig0 & Hbones & -> & ->).
  change (edit_bones (mode_set_OBJECT rig0)) with (edit_bones rig0) in *.
  destruct (make_bones_outline self sk rig0 Hbones) as [-> Hout].
  destruct (synthesized_outline_checks (nail_bone self))
    as (Hlen & Hnames & Hparents).
  rewrite <- Hout in Hlen, Hnames, Hparents.
  destruct (make_bones_first_bones self _ rig0 Hbones)
    as ((r & Hr & Hrname & Hrhead & Hrtail)
        & (eye_l & eye_r & Hl & Hlname & Hr' & Hrname' & Hllen & Hrlen)).
  destruct (mode_set_OBJECT_bones rig0) as (Hkept & Htree & Hall).
  assert (Hnd : NoDup (map name (edit_bones rig0))).
  { rewrite names_of_outline. apply HumanBonesFacts.no_repeat_NoDup.
    exact Hnames. }
  assert (Hpf : parents_first (edit_bones rig0))
    by (apply parents_earlier_parents_first; exact Hparents).
  assert (Hroot : zero_sized r = false).
  { apply zero_sized_false. unfold length_squared. rewrite Hrhead, Hrtail.
    cbn [vx vy vz]. lra. }
  assert (Hpf' : parents_first (bones (mode_set_OBJECT rig0))).
  { apply Htree; [exact Hpf |]. intros b Hb. rewrite Hr in Hb.
    injection Hb as <-. exact Hroot. }
  split; [rewrite <- outline_length; exact Hlen |].
  split; [exact Hnd |].
  split; [intros unique_name Hfree;
          apply blender_names_as_asked; assumption |].
  split; [exact Hpf |].
  split; [apply parents_first_reaches_root; exact Hpf |].
  split; [exact Hkept |].
  split.
  { assert (H0 : nth_error (map unlinked (bones (mode_set_OBJECT rig0))) 0
                 = Some (unlinked r)).
    { rewrite Hkept. destruct (edit_bones rig0) as [| x l]; [discriminate Hr |].
      cbn [nth_error] in Hr. injection Hr as ->.
      cbn [kept filter]. rewrite Hroot. reflexivity. }
    rewrite nth_error_map in H0.
    destruct (nth_error (bones (mode_set_OBJECT rig0)) 0) as [r0 |] eqn:E;
      [| discriminate H0].
    cbn [option_map] in H0.
    assert (Hu : unlinked r0 = unlinked r) by congruence.
    exists r0. split; [reflexivity |].
    split.
    - transitivity (name (unlinked r0)); [reflexivity |].
      rewrite Hu. exact Hrname.
    - pose proof (Hpf' 0%nat r0 E) as Hp.
      destruct (parent r0); [lia | reflexivity]. }
  split; [exact Hpf' |].
  split; [apply parents_first_reaches_root; exact Hpf' |].
  split; [exact Hall |].
  intros Hdepth.
  assert (Hzl : zero_sized eye_l = true)
    by (apply zero_sized_true; rewrite Hllen, Hdepth; lra).
  assert (Hzr : zero_sized eye_r = true)
    by (apply zero_sized_true; rewrite Hrlen, Hdepth; lra).
  assert (Hgone : forall eye, In eye (edit_bones rig0) ->
                              zero_sized eye = true ->
                              ~ In (name eye)
                                  (map name (bones (mode_set_OBJECT rig0)))).
  { intros eye Hin Hz H.
    rewrite <- names_of_unlinked, Hkept, names_of_unlinked in H.
    apply in_map_iff in H. destruct H as (b & Hname & Hb).
    apply kept_In in Hb. destruct Hb as [Hb Hnz].
    assert (b = eye)
      by (apply (NoDup_map_injective name (edit_bones rig0)); assumption).
    congruence. }
  split; [rewrite <- Hlname; apply Hgone;
          [exact (nth_error_In _ _ Hl) | exact Hzl] |].
  split; [rewrite <- Hrname'; apply Hgone;
          [exact (nth_error_In _ _ Hr') | exact Hzr] |].
  split.
  { rewrite <- (length_map unlinked (bones (mode_set_OBJECT rig0))), Hkept,
      length_map.
    exact (length_kept_less_two _ 6 eye_l eye_r Hl Hr' Hzl Hzr). }
  rewrite (bone_name_all_dict_synthesized rig0 (nail_bone self) Hout).
  split; reflexivity.
Qed.



(** The armature a run returns, from the bones the run built. *)
Lemma synthesized_rig_returned (self : ICYP_OT_MAKE_ARMATURE)
    (rig : Rig) (d : Dict.t string) :
  make_armature self = Ok (rig, d) ->
  map unlinked (bones rig) = map unlinked (kept (edit_bones rig)) /\
  (parents_first (edit_bones rig) ->
   (forall b, nth_error (edit_bones rig) 0 = Some b -> zero_sized b = false) ->
   parents_first (bones rig)) /\
  (Forall (fun b => zero_sized b = false) (edit_bones rig) ->
   bones rig = edit_bones rig).
Proof.
  intros Hrun.
  destruct (make_armature_Ok_inv self rig d Hrun)
    as (sk & rig0 & _ & -> & _).
  exact (mode_set_OBJECT_bones rig0).
Qed.

(** *** The default armature has no zero-sized bone *)

Lemma length_squared_turn (o : vec3) (angle r : R) (b : EditBone) :
  length_squared (turn o angle r b) = length_squared b.
Proof.
  unfold turn.
  change (length_squared (set_roll r ?x)) with (length_squared x).
  rewrite !transform_rigid_length;
    [reflexivity | apply rigid_Translation | apply rigid_Rotation_Z
    | apply rigid_Translation].
Qed.

Lemma zero_sized_turn (o : vec3) (angle r : R) (b : EditBone) :
  zero_sized (turn o angle r b) = zero_sized b.
Proof. unfold zero_sized. rewrite length_squared_turn. reflexivity. Qed.

Lemma head_size_default : head_size default_operator = Ok (1.70 / 8.0).
Proof.
  unfold head_size. apply py_div_ok.
  cbn [head_ratio default_operator default head_ratio_prop]. lra.
Qed.

Lemma hand_size_default :
  hand_size default_operator = Ok (1.70 / 8.0 * 0.75 * 1).
Proof. unfold hand_size. rewrite head_size_default. reflexivity. Qed.

Lemma finger_lens_default (L : R) :
  finger_lens default_operator L
  = Ok (L * (16 / 37), L * (12 / 37), L * (9 / 37)).
Proof.
  unfold finger_lens.
  cbn [finger_1_2_ratio finger_2_3_ratio default_operator default
       finger_1_2_ratio_prop finger_2_3_ratio_prop].
  rewrite py_div_ok by lra. cbn [bind].
  replace (1 / (0.75 * 0.75 + 0.75 + 1)) with (16 / 37) by lra.
  apply f_equal. apply f_equal2; [apply f_equal2 |]; lra.
Qed.

Ltac long_enough :=
  rewrite ?zero_sized_turn; apply zero_sized_false;
  cbv [length_squared head tail vx vy vz x_add y_add z_add x_mirrored
       tall head_ratio head_width_ratio aging_ratio eye_depth
       shoulder_in_width shoulder_width arm_length_ratio hand_ratio
       finger_1_2_ratio finger_2_3_ratio leg_length_ratio leg_width_ratio
       leg_size default_operator default tall_prop head_ratio_prop
       head_width_ratio_prop aging_ratio_prop eye_depth_prop
       shoulder_in_width_prop shoulder_width_prop arm_length_ratio_prop
       hand_ratio_prop finger_1_2_ratio_prop finger_2_3_ratio_prop
       leg_length_ratio_prop leg_width_ratio_prop leg_size_prop];
  nra.

Lemma default_operator_no_zero_sized (sk : Skeleton) (rig : Rig) :
  make_bones default_operator empty_rig = Ok (sk, rig) ->
  Forall (fun b => zero_sized b = false) (edit_bones rig).
Proof.
  intros Hrun.
  assert (Hbones : edit_bones empty_rig = []) by reflexivity.
  assert (Hlen : List.length (edit_bones empty_rig) = 0%nat) by reflexivity.
  assert (Hnail : nail_bone default_operator = false) by reflexivity.
  unfold make_bones in Hrun.
  repeat first [ full_step | enter_fingers ].
  unfold ret in Hrun. injection Hrun as <- <-.
  rewrite Hbones. clear Hbones Hlen.
  repeat match goal with
         | H : head_size default_operator = Ok ?v |- _ =>
             rewrite head_size_default in H; injection H as <-
         | H : hand_size default_operator = Ok ?v |- _ =>
             rewrite hand_size_default in H; injection H as <-
         | H : finger_lens default_operator _ = Ok _ |- _ =>
             rewrite finger_lens_default in H; injection H as <- <- <-
         | H : bind _ _ = Ok _ |- _ => clear H
         end.
  clear.
  lazymatch goal with
  | |- context [Rmax ?a ?b] =>
      pose proof (Rmax_r a b) as Hmax; set (fl := Rmax a b) in *
  end.
  cbv [tall head_ratio arm_length_ratio default_operator default tall_prop
       head_ratio_prop arm_length_ratio_prop] in Hmax.
  repeat (apply Forall_cons; [long_enough |]).
  apply Forall_nil.
Qed.

Lemma make_armature_default_no_zero_sized (rig : Rig) (d : Dict.t string) :
  make_armature default_operator = Ok (rig, d) ->
  Forall (fun b => zero_sized b = false) (edit_bones rig).
Proof.
  intros Hrun.
  destruct (make_armature_Ok_inv default_operator rig d Hrun)
    as (sk & rig0 & Hbones & -> & _).
  exact (default_operator_no_zero_sized sk rig0 Hbones).
Qed.

Lemma synthesized_rig_is_tree_default :
  exists rig d,
    make_armature default_operator = Ok (rig, d) /\
    List.length (edit_bones rig) = 54%nat /\
    NoDup (map name (edit_bones rig)) /\
    parents_first (edit_bones rig) /\
    bones rig = edit_bones rig /\
    parents_first (bones rig).
Proof.
  destruct (make_armature_returns default_operator
              (proj1 default_operator_divisors)
              (proj2 default_operator_divisors)) as (rig & d & Hrun).
  exists rig, d. split; [exact Hrun |].
  destruct (synthesized_rig_is_tree default_operator rig d Hrun)
    as (Hlen & Hnd & _ & Hpf & _ & _ & _ & Hpf' & _ & Hall & _).
  pose proof (make_armature_default_no_zero_sized rig d Hrun) as Hnz.
  repeat split; try assumption. exact (Hall Hnz).
Defined.

(** X7.  The bone tree [make_armature] builds conforms to the VRM humanoid
    hierarchy: the bone the name table gives to a VRM name other than
    "hips" has, as its Blender parent, the bone the table gives to that
    name's parent in [HumanBones.hierarchy], or to its grandparent where
    the rig has no bone for the parent (the neck hangs from the chest,
    there being no upper chest).  So does the armature that is returned
    when no bone is zero-sized, as is the case with the default
    properties; a zero-sized bone is missing from the armature, though
    the table names it. *)
Theorem synthesized_rig_follows_vrm_hierarchy (self : ICYP_OT_MAKE_ARMATURE)
    (rig : Rig) (d : Dict.t string) :
  make_armature self = Ok (rig, d) ->
  follows_hierarchy (edit_bones rig) d /\
  (Forall (fun b => zero_sized b = false) (edit_bones rig) ->
   follows_hierarchy (bones rig) d).
Proof.
  intros Hrun.
  assert (Hbuilt : follows_hierarchy (edit_bones rig) d).
  { intros child bn Hget Hne.
    destruct (make_armature_Ok_inv self rig d Hrun)
      as (sk & rig0 & Hbones & -> & ->).
    change (edit_bones (mode_set_OBJECT rig0)) with (edit_bones rig0) in *.
    destruct (make_bones_outline self sk rig0 Hbones) as [-> Hout].
    rewrite (bone_name_all_dict_synthesized rig0 (nail_bone self) Hout) in *.
    apply follows_vrm_parent_sound. rewrite Hout.
    pose proof (synthesized_names_follow_vrm_parents (nail_bone self)) as Hall.
    rewrite forallb_forall in Hall.
    specialize (Hall (child, bn) (get_Some_In _ _ _ Hget)).
    cbn [fst snd] in Hall. apply orb_prop in Hall.
    destruct Hall as [Hhips | Hok]; [| exact Hok].
    apply String.eqb_eq in Hhips. contradiction. }
  split; [exact Hbuilt |].
  intros Hnz.
  destruct (synthesized_rig_returned self rig d Hrun) as (_ & _ & Hall).
  rewrite (Hall Hnz). exact Hbuilt.
Qed.

Lemma synthesized_rig_follows_vrm_hierarchy_default :
  exists rig d,
    make_armature default_operator = Ok (rig, d) /\
    Forall (fun b => zero_sized b = false) (edit_bones rig) /\
    follows_hierarchy (bones rig) d.
Proof.
  destruct (make_armature_returns default_operator
              (proj1 default_operator_divisors)
              (proj2 default_operator_divisors)) as (rig & d & Hrun).
  exists rig, d. split; [exact Hrun |].
  pose proof (make_armature_default_no_zero_sized rig d Hrun) as Hnz.
  split; [exact Hnz |].
  exact (proj2 (synthesized_rig_follows_vrm_hierarchy default_operator rig d
                  Hrun) Hnz).
Defined.

(** *** The geometry of the synthesized rig, bone by bone *)

Lemma pairs_mirrored_nth :
  forall i l a b,
    pairs_mirrored l ->
    Nat.even i = true ->
    nth_error l i = Some a ->
    nth_error l (S i) = Some b ->
    mirror_of a b.
Proof.
  intros i. induction i as [i IH] using (well_founded_induction lt_wf).
  intros l a b Hall Hev Ha Hb.
  destruct l as [| x [| y rest]].
  - destruct i; discriminate Ha.
  - destruct i as [| i]; [discriminate Hb |].
    destruct i; discriminate Ha.
  - cbn [pairs_mirrored] in Hall. destruct Hall as [Hxy Hrest].
    destruct i as [| [| i]].
    + cbn [nth_error] in Ha, Hb. injection Ha as <-. injection Hb as <-.
      exact Hxy.
    + discriminate Hev.
    + apply (IH i ltac:(lia) rest a b Hrest); assumption.
Qed.





Lemma named_In (names : list string) (b : EditBone) :
  In (name b) names -> named names b = true.
Proof.
  intros H. unfold named. apply DictFacts.existsb_eqb_In. exact H.
Qed.

(** X10.  The finished rig stands upright on the ground and is [tall] high:
    the root, hips, spine, chest, neck and head lie on the vertical axis,
    the root starts at the origin, the head ends at height [tall], and feet
    and toes end at height 0. *)
Theorem synthesized_rig_stands_upright (self : ICYP_OT_MAKE_ARMATURE)
    (rig : Rig) (d : Dict.t string) :
  make_armature self = Ok (rig, d) ->
  forall b,
    In b (edit_bones rig) ->
    (In (name b) center_bones ->
     vx (head b) = 0 /\ vy (head b) = 0 /\
     vx (tail b) = 0 /\ vy (tail b) = 0) /\
    (name b = "root" -> head b = Vec 0 0 0) /\
    (name b = "Head" -> tail b = Vec 0 0 (tall self)) /\
    (In (name b) sole_bones -> vz (tail b) = 0).
Proof.
  intros Hrun b Hb.
  destruct (make_armature_Ok_inv self rig d Hrun)
    as (sk & rig0 & Hbones & -> & _).
  change (edit_bones (mode_set_OBJECT rig0)) with (edit_bones rig0) in *.
  destruct (make_bones_geometry self sk rig0 Hbones) as (_ & _ & Hall & _).
  rewrite Forall_forall in Hall. specialize (Hall b Hb).
  destruct Hall as (Hcenter & Hroot & Hhead & Hsole).
  split; [| split; [| split]].
  - intros Hn. rewrite (named_In _ _ Hn) in Hcenter. exact Hcenter.
  - intros Hn. rewrite (named_In ["root"] b) in Hroot; [exact Hroot |].
    left. symmetry. exact Hn.
  - intros Hn. rewrite (named_In ["Head"] b) in Hhead; [exact Hhead |].
    left. symmetry. exact Hn.
  - intros Hn. rewrite (named_In _ _ Hn) in Hsole. exact Hsole.
Qed.

Lemma synthesized_rig_stands_upright_default :
  exists rig d,
    make_armature default_operator = Ok (rig, d) /\
    forall b,
      In b (edit_bones rig) ->
      (In (name b) center_bones ->
       vx (head b) = 0 /\ vy (head b) = 0 /\
       vx (tail b) = 0 /\ vy (tail b) = 0) /\
      (name b = "root" -> head b = Vec 0 0 0) /\
      (name b = "Head" -> tail b = Vec 0 0 (tall default_operator)) /\
      (In (name b) sole_bones -> vz (tail b) = 0).
Proof.
  destruct (make_armature_returns default_operator
              (proj1 default_operator_divisors)
              (proj2 default_operator_divisors)) as (rig & d & Hrun).
  exists rig, d. split; [exact Hrun |].
  exact (synthesized_rig_stands_upright default_operator rig d Hrun).
Defined.

(** X11.  With nail bones, the thumb correction leaves the nail bones of the
    thumbs behind: it turns the three bones [fingers] returned, and the nail
    bone, a child of the distal bone, stays where the tip of the thumb was
    before. Unless the hand has no size, the nail bone of each thumb starts
    away from the end of its parent. *)
Theorem thumb_nails_are_left_behind (self : ICYP_OT_MAKE_ARMATURE)
    (rig : Rig) (d : Dict.t string) :
  nail_bone self = true ->
  tall self <> 0 ->
  hand_ratio self <> 0 ->
  make_armature self = Ok (rig, d) ->
  thumb_nail_detached (edit_bones rig) "_L" /\
  thumb_nail_detached (edit_bones rig) "_R".
Proof.
  intros Hnail Ht Hr Hrun.
  destruct (make_armature_Ok_inv self rig d Hrun)
    as (sk & rig0 & Hbones & -> & _).
  change (edit_bones (mode_set_OBJECT rig0)) with (edit_bones rig0) in *.
  destruct (make_bones_geometry self sk rig0 Hbones) as (_ & _ & _ & H & _).
  exact (H Hnail Ht Hr).
Qed.

Lemma nailed_operator_divisors :
  head_ratio nailed_operator <> 0 /\ finger_divisor nailed_operator <> 0.
Proof.
  unfold finger_divisor. simpl. split; lra.
Qed.

Lemma thumb_nails_are_left_behind_nailed_operator :
  exists rig d,
    make_armature nailed_operator = Ok (rig, d) /\
    thumb_nail_detached (edit_bones rig) "_L" /\
    thumb_nail_detached (edit_bones rig) "_R".
Proof.
  destruct (make_armature_returns nailed_operator
              (proj1 nailed_operator_divisors)
              (proj2 nailed_operator_divisors)) as (rig & d & Hrun).
  exists rig, d. split; [exact Hrun |].
  apply (thumb_nails_are_left_behind nailed_operator rig d).
  - reflexivity.
  - simpl. lra.
  - simpl. lra.
  - exact Hrun.
Defined.





(** *** The metadata written on the armature *)

Section ArmatureObjectFacts.

Context {IDProperty : Type}.

Variable of_str : string -> IDProperty.

Variable texts_new : list string -> string -> string.

Lemma get_set_other (d : Dict.t IDProperty) (k k' : string) (v : IDProperty) :
  k <> k' -> Dict.get (Dict.set d k v) k' = Dict.get d k'.
Proof.
  intros Hne. induction d as [| [k0 v0] d IH]; cbn [Dict.set Dict.get].
  - destruct (String.eqb_spec k k'); [contradiction | reflexivity].
  - destruct (String.eqb_spec k0 k) as [-> | Hk0]; cbn [Dict.get].
    + destruct (String.eqb_spec k k'); [contradiction | reflexivity].
    + destruct (String.eqb_spec k0 k'); [reflexivity | exact IH].
Qed.

Lemma get_fill (items : list (string * IDProperty)) :
  forall (d : Dict.t IDProperty) (k : string),
    Dict.get (fill items d) k =
    match Dict.get d k with
    | Some v => Some v
    | None => Dict.get items k
    end.
Proof.
  unfold fill.
  induction items as [| [k0 v0] items IH]; intros d k; cbn [fold_left fst snd].
  - destruct (Dict.get d k); reflexivity.
  - rewrite IH. unfold Dict.mem. cbn [Dict.get].
    destruct (Dict.get d k0) as [w0 |] eqn:E0.
    + destruct (Dict.get d k) as [w |] eqn:E; [reflexivity |].
      destruct (String.eqb_spec k0 k) as [-> | Hne]; [congruence | reflexivity].
    + destruct (String.eqb_spec k0 k) as [-> | Hne].
      * rewrite DictFacts.get_set_same, E0. reflexivity.
      * rewrite (get_set_other d k0 k v0 Hne). reflexivity.
Qed.

Lemma fill_present (items : list (string * IDProperty)) :
  forall d : Dict.t IDProperty,
    (forall k, In k (map fst items) -> Dict.get d k <> None) ->
    fill items d = d.
Proof.
  unfold fill.
  induction items as [| [k0 v0] items IH]; intros d Hall; cbn [fold_left fst snd].
  - reflexivity.
  - unfold Dict.mem. destruct (Dict.get d k0) eqn:E0.
    + apply IH. intros k Hk. apply Hall. right. exact Hk.
    + exfalso. apply (Hall k0); [left; reflexivity | exact E0].
Qed.

Lemma set_default_fill (key : string) (value : IDProperty) (s : Scene IDProperty) :
  set_default IDProperty key value s =
  MkScene IDProperty (texts s) (armature_name s)
    (fill [(key, value)] (armature_props s)).
Proof.
  unfold set_default, fill. cbn [fold_left fst snd].
  destruct s as [t n p]. cbn [texts armature_name armature_props].
  destruct (Dict.mem p key); reflexivity.
Qed.

Lemma fill_app (a b : list (string * IDProperty)) (d : Dict.t IDProperty) :
  fill (a ++ b) d = fill b (fill a d).
Proof. unfold fill. apply fold_left_app. Qed.

Lemma fold_set_default_fill {A : Type} (key : A -> string)
    (value : A -> IDProperty) (items : list A) :
  forall s : Scene IDProperty,
    fold_left (fun s x => set_default IDProperty (key x) (value x) s) items s =
    MkScene IDProperty (texts s) (armature_name s)
      (fill (map (fun x => (key x, value x)) items) (armature_props s)).
Proof.
  induction items as [| x items IH]; intros s; cbn [fold_left map].
  - destruct s; reflexivity.
  - rewrite IH, set_default_fill.
    cbn [texts armature_name armature_props].
    change ((key x, value x) :: map (fun x0 => (key x0, value x0)) items)
      with ([(key x, value x)] ++ map (fun x0 => (key x0, value x0)) items).
    rewrite fill_app. reflexivity.
Qed.

Lemma write_textblock_fill (block_name : string) (value : param_table)
    (t : list (string * param_table)) (n : string) (p : Dict.t IDProperty) :
  write_textblock_and_assign_to_armature IDProperty of_str texts_new
    block_name value (MkScene IDProperty t n p) =
  let text_block_name :=
    texts_new (map fst t) (n ++ "_" ++ block_name ++ ".json") in
  MkScene IDProperty (t ++ [(text_block_name, value)]) n
    (fill [(block_name, of_str text_block_name)] p).
Proof.
  unfold write_textblock_and_assign_to_armature. cbv zeta.
  cbn [texts armature_name armature_props].
  rewrite set_default_fill. reflexivity.
Qed.

(** The method, in one step: four text blocks are added, and the offered
    items fill the keys the armature does not have. *)
Lemma make_extension_setting_and_metas_run (s : Scene IDProperty) :
  make_extension_setting_and_metas IDProperty of_str texts_new s =
  MkScene IDProperty (texts s ++ new_texts IDProperty texts_new s)
    (armature_name s)
    (fill (offered IDProperty of_str texts_new s) (armature_props s)).
Proof.
  destruct s as [t n p].
  unfold make_extension_setting_and_metas.
  rewrite write_textblock_fill. cbv zeta.
  rewrite write_textblock_fill. cbv zeta.
  rewrite write_textblock_fill. cbv zeta.
  rewrite write_textblock_fill. cbv zeta.
  rewrite (fold_set_default_fill (fun v => v) (fun _ => of_str "undefined")).
  rewrite (fold_set_default_fill fst (fun kv => of_str (snd kv))).
  unfold offered, new_texts. cbv zeta.
  cbn [texts armature_name armature_props].
  set (n1 := texts_new (map fst t) _).
  set (n2 := texts_new (map fst (t ++ [(n1, humanoid_params)])) _).
  set (n3 := texts_new
               (map fst
                  ((t ++ [(n1, humanoid_params)])
                     ++ [(n2, first_person_params)])) _).
  set (n4 := texts_new
               (map fst
                  (((t ++ [(n1, humanoid_params)])
                      ++ [(n2, first_person_params)])
                     ++ [(n3, blendshape_group)])) _).
  cbn [combine map fst].
  apply f_equal3.
  - rewrite <- !app_assoc. reflexivity.
  - reflexivity.
  - change [("humanoid_params", of_str n1); ("firstPerson_params", of_str n2);
            ("blendshape_group", of_str n3); ("spring_bone", of_str n4)]
      with ([("humanoid_params", of_str n1)]
              ++ [("firstPerson_params", of_str n2)]
              ++ [("blendshape_group", of_str n3)]
              ++ [("spring_bone", of_str n4)]).
    rewrite !fill_app. reflexivity.
Qed.

Lemma offered_keys (s : Scene IDProperty) :
  map fst (offered IDProperty of_str texts_new s) = extension_keys.
Proof.
  unfold offered, extension_keys, Dict.keys.
  rewrite !map_app, !map_map. cbn [fst].
  rewrite map_id. reflexivity.
Qed.

Lemma get_not_in_keys (items : list (string * IDProperty)) (k : string) :
  ~ In k (map fst items) -> Dict.get items k = None.
Proof.
  intros Hnin. destruct (Dict.get items k) as [v |] eqn:E; [| reflexivity].
  exfalso. apply Hnin. exact (DictFacts.get_Some_in_keys items k v E).
Qed.

Lemma get_in_keys (items : list (string * IDProperty)) (k : string) :
  In k (map fst items) -> Dict.get items k <> None.
Proof.
  intros Hin. destruct (DictFacts.in_keys_get items k Hin) as [v ->].
  discriminate.
Qed.

(** X14.  What [make_extension_setting_and_metas] does to an armature
    object, whatever properties it has already. It overwrites no property;
    after it every key of [extension_keys] is present and no other key is
    new; a key of [Vrm0.METAS] that was absent holds "undefined" and a key
    of [Vrm0.REQUIRED_METAS] that was absent holds the value [vrm_types]
    gives it; four text blocks are created in any case, one per table, and a
    text key that was absent holds the name of its block. *)
Theorem make_extension_setting_and_metas_fills_defaults
    (s : Scene IDProperty) :
  let s' := make_extension_setting_and_metas IDProperty of_str texts_new s in
  (forall k v,
      Dict.get (armature_props s) k = Some v ->
      Dict.get (armature_props s') k = Some v) /\
  (forall k, In k extension_keys -> Dict.get (armature_props s') k <> None) /\
  (forall k,
      ~ In k extension_keys ->
      Dict.get (armature_props s') k = Dict.get (armature_props s) k) /\
  (forall k,
      In k Vrm0.METAS ->
      Dict.get (armature_props s) k = None ->
      Dict.get (armature_props s') k = Some (of_str "undefined")) /\
  (forall k v,
      Dict.get Vrm0.REQUIRED_METAS k = Some v ->
      Dict.get (armature_props s) k = None ->
      Dict.get (armature_props s') k = Some (of_str v)) /\
  (exists n1 n2 n3 n4,
      texts s' =
      texts s ++ [ (n1, humanoid_params); (n2, first_person_params);
                   (n3, blendshape_group); (n4, spring_bone_prams) ] /\
      forall key n,
        In (key, n) [ ("humanoid_params", n1); ("firstPerson_params", n2);
                      ("blendshape_group", n3); ("spring_bone", n4) ] ->
        Dict.get (armature_props s) key = None ->
        Dict.get (armature_props s') key = Some (of_str n)) /\
  armature_name s' = armature_name s.
Proof.
  cbv zeta. rewrite make_extension_setting_and_metas_run.
  cbn [texts armature_name armature_props].
  split; [| split; [| split; [| split; [| split; [| split]]]]].
  - intros k v Hk. rewrite get_fill, Hk. reflexivity.
  - intros k Hk. rewrite get_fill.
    destruct (Dict.get (armature_props s) k); [discriminate |].
    apply get_in_keys. rewrite offered_keys. exact Hk.
  - intros k Hk. rewrite get_fill.
    destruct (Dict.get (armature_props s) k); [reflexivity |].
    apply get_not_in_keys. rewrite offered_keys. exact Hk.
  - intros k Hk Habsent. rewrite get_fill, Habsent.
    cbn [Vrm0.METAS In] in Hk.
    repeat (destruct Hk as [<- | Hk]; [reflexivity |]). contradiction.
  - intros k v Hk Habsent. rewrite get_fill, Habsent.
    apply get_Some_In in Hk.
    cbv [Vrm0.REQUIRED_METAS Dict.of_items Dict.update fold_left Dict.set
         String.eqb Ascii.eqb Bool.eqb fst snd In] in Hk.
    repeat (destruct Hk as [[= <- <-] | Hk]; [reflexivity |]). contradiction.
  - unfold new_texts. cbv zeta.
    eexists. eexists. eexists. eexists. split; [reflexivity |].
    intros key n Hin Habsent. rewrite get_fill, Habsent.
    cbn [In] in Hin.
    repeat (destruct Hin as [[= <- <-] | Hin]; [reflexivity |]). contradiction.
  - reflexivity.
Qed.


End ArmatureObjectFacts.

End ArmatureFacts.

(** ** The weight normalisation *)

Module GlFloatFacts.

Import GlFloat.

Local Open Scope Z_scope.

(** *** Error paths *)

Lemma truediv_by_zero (x y : float) :
  is_zero y = true -> truediv x y = Err ZeroDivisionError.
Proof. intros H. unfold truediv. rewrite H. reflexivity. Qed.

Lemma quotients_by_zero (w : array4) :
  is_zero (sum w) = true -> quotients w = Err ZeroDivisionError.
Proof.
  intros H. destruct w as [[[a b] c] d]. unfold quotients.
  rewrite (truediv_by_zero a _ H). reflexivity.
Qed.

Lemma pack_unpack_errors (x : float) (e : py_error) :
  pack_unpack x = Err e -> e = OverflowError.
Proof.
  unfold pack_unpack.
  destruct x as [s | s | | s m ex]; try discriminate.
  destruct (to_binary32 (S754_finite s m ex)); try discriminate.
  intros [= <-]. reflexivity.
Qed.

Lemma to_gl_float_errors (w : array4) (e : py_error) :
  to_gl_float w = Err e -> e = OverflowError.
Proof.
  destruct w as [[[a b] c] d]. unfold to_gl_float.
  destruct (pack_unpack a) as [a' | ea] eqn:Ea;
    [| intros [= <-]; exact (pack_unpack_errors a ea Ea)].
  destruct (pack_unpack b) as [b' | eb] eqn:Eb;
    [| intros [= <-]; exact (pack_unpack_errors b eb Eb)].
  destruct (pack_unpack c) as [c' | ec] eqn:Ec;
    [| intros [= <-]; exact (pack_unpack_errors c ec Ec)].
  destruct (pack_unpack d) as [d' | ed] eqn:Ed;
    [| intros [= <-]; exact (pack_unpack_errors d ed Ed)].
  discriminate.
Qed.

Lemma quotients_errors (w : array4) (e : py_error) :
  quotients w = Err e -> e = ZeroDivisionError.
Proof.
  destruct w as [[[a b] c] d]. unfold quotients, truediv.
  destruct (is_zero (sum (a, b, c, d))); cbn [bind].
  - intros [= <-]. reflexivity.
  - discriminate.
Qed.

Lemma exact_sum_errors (xs : list float) :
  forall acc e, exact_sum acc xs = Err e -> e = OverflowError.
Proof.
  induction xs as [| x xs IH]; intros acc e; cbn [exact_sum].
  - discriminate.
  - destruct (round_exact (exact_add acc (exact x)));
      try apply IH.
    intros [= <-]. reflexivity.
Qed.

Lemma fsum_errors (xs : list float) (e : py_error) :
  fsum xs = Err e -> e = ValueError \/ e = OverflowError.
Proof.
  unfold fsum.
  destruct (existsb (is_inf false) xs && existsb (is_inf true) xs).
  { intros [= <-]. left. reflexivity. }
  destruct (existsb is_nan xs); [discriminate |].
  destruct (existsb (is_inf false) xs); [discriminate |].
  destruct (existsb (is_inf true) xs); [discriminate |].
  destruct (exact_sum (0, 0) xs) as [s | e'] eqn:E; cbn [bind].
  - discriminate.
  - intros [= <-]. right. exact (exact_sum_errors xs _ _ E).
Qed.

Lemma sum_error_errors (w : array4) (e : py_error) :
  sum_error w = Err e -> e = ValueError \/ e = OverflowError.
Proof.
  unfold sum_error.
  destruct (fsum (items w)) as [s | e'] eqn:E; cbn [bind].
  - discriminate.
  - intros [= <-]. exact (fsum_errors _ _ E).
Qed.

Lemma refine_round_errors (w : array4) (e : py_error) :
  refine_round w = Err e -> arithmetic_error e.
Proof.
  unfold refine_round, arithmetic_error.
  destruct (quotients w) as [q | e1] eqn:E1; cbn [bind];
    [| intros [= <-]; left; exact (quotients_errors w e1 E1)].
  destruct (to_gl_float q) as [n | e2] eqn:E2; cbn [bind];
    [| intros [= <-]; right; left; exact (to_gl_float_errors q e2 E2)].
  destruct (sum_error w) as [err | e3] eqn:E3; cbn [bind];
    [| intros [= <-]; destruct (sum_error_errors w e3 E3); auto].
  destruct (sum_error n) as [nerr | e4] eqn:E4; cbn [bind];
    [| intros [= <-]; destruct (sum_error_errors n e4 E4); auto].
  destruct (ge err epsilon && gt err nerr); discriminate.
Qed.

Lemma refine_errors (rounds : nat) :
  forall w e, refine rounds w = Err e -> arithmetic_error e.
Proof.
  induction rounds as [| rounds IH]; intros w e; cbn [refine].
  - discriminate.
  - destruct (refine_round w) as [[n |] | e1] eqn:E1; cbn [bind].
    + apply IH.
    + discriminate.
    + intros [= <-]. exact (refine_round_errors w e1 E1).
Qed.

Lemma refine_round_by_zero (w : array4) :
  is_zero (sum w) = true -> refine_round w = Err ZeroDivisionError.
Proof.
  intros H. unfold refine_round. rewrite (quotients_by_zero w H). reflexivity.
Qed.

(** C4, as stated, fails: the four zero weights raise
    [ZeroDivisionError], and so do four weights too small for the 32-bit
    format; a weight too large for it raises [OverflowError].  Weights
    of both signs can raise though each fits and their sum is not zero:
    with 1, -1 and 2^-140 the first quotient is too large for the 32-bit
    format; and infinities of both signs raise [ValueError]. *)
Lemma normalize_zero_weights_raises :
  normalize_weights_compatible_with_gl_float (zero, zero, zero, zero)
    = Err ZeroDivisionError /\
  normalize_weights_compatible_with_gl_float
    (float_of 1 (-160), zero, zero, zero) = Err ZeroDivisionError /\
  normalize_weights_compatible_with_gl_float
    (float_of 1 128, zero, zero, zero) = Err OverflowError /\
  normalize_weights_compatible_with_gl_float
    (float_of 1 0, float_of (-1) 0, float_of 1 (-140), zero)
    = Err OverflowError /\
  normalize_weights_compatible_with_gl_float
    (S754_infinity false, S754_infinity true, zero, zero) = Err ValueError.
Proof.
  repeat split; vm_compute; reflexivity.
Qed.

(** *** Shifting mantissas *)

Lemma digits2_pos_size (p : positive) : digits2_pos p = Pos.size p.
Proof. induction p as [p IH | p IH |]; simpl; congruence. Qed.

Lemma Zdigits2_log2 (p : positive) :
  Zdigits2 (Zpos p) = Z.log2 (Zpos p) + 1.
Proof.
  unfold Zdigits2. destruct p as [p | p |]; cbn [digits2_pos Z.log2];
    rewrite ?digits2_pos_size; lia.
Qed.

Lemma Zdigits2_bounds (m : Z) :
  0 < m -> 1 <= Zdigits2 m /\ 2 ^ (Zdigits2 m - 1) <= m < 2 ^ Zdigits2 m.
Proof.
  intros Hm. destruct m as [| p | p]; try lia.
  rewrite Zdigits2_log2.
  pose proof (Z.log2_nonneg (Zpos p)) as H0.
  pose proof (Z.log2_spec (Zpos p) Hm) as [H1 H2].
  replace (Z.log2 (Zpos p) + 1 - 1) with (Z.log2 (Zpos p)) by lia.
  replace (Z.log2 (Zpos p) + 1) with (Z.succ (Z.log2 (Zpos p))) by lia.
  lia.
Qed.

Lemma Zdigits2_unique (m d : Z) :
  1 <= d -> 2 ^ (d - 1) <= m < 2 ^ d -> Zdigits2 m = d.
Proof.
  intros Hd [H1 H2].
  assert (Hm : 0 < m).
  { pose proof (Z.pow_pos_nonneg 2 (d - 1)). lia. }
  destruct m as [| p | p]; try lia.
  rewrite Zdigits2_log2.
  rewrite (Z.log2_unique (Zpos p) (d - 1)); try lia.
  replace (Z.succ (d - 1)) with d by lia. lia.
Qed.

Lemma shr_m_shr_1 (mrs : shr_record) :
  0 <= shr_m mrs -> shr_m (shr_1 mrs) = shr_m mrs / 2.
Proof.
  destruct mrs as [m r s]. cbn [shr_m]. intros Hm.
  destruct m as [| [p | p |] | p]; cbn [shr_1 shr_m]; try lia.
  - reflexivity.
  - rewrite Pos2Z.inj_xI. apply Z.div_unique with 1; lia.
  - rewrite Pos2Z.inj_xO. apply Z.div_unique with 0; lia.
  - reflexivity.
Qed.

Lemma iter_pos_nat {A : Type} (f : A -> A) (p : positive) :
  forall x, SpecFloat.iter_pos f p x = Nat.iter (Pos.to_nat p) f x.
Proof.
  induction p as [p IH | p IH |]; intros x; cbn [SpecFloat.iter_pos].
  - rewrite !IH. rewrite Pos2Nat.inj_xI.
    replace (S (2 * Pos.to_nat p)) with (Pos.to_nat p + Pos.to_nat p + 1)%nat by lia.
    rewrite !Nat.iter_add. reflexivity.
  - rewrite !IH. rewrite Pos2Nat.inj_xO.
    replace (2 * Pos.to_nat p)%nat with (Pos.to_nat p + Pos.to_nat p)%nat by lia.
    rewrite Nat.iter_add. reflexivity.
  - reflexivity.
Qed.

Lemma shr_m_iter_nat (n : nat) :
  forall mrs, 0 <= shr_m mrs ->
              shr_m (Nat.iter n shr_1 mrs) = shr_m mrs / 2 ^ Z.of_nat n.
Proof.
  induction n as [| n IH]; intros mrs Hm.
  - change (Nat.iter 0 shr_1 mrs) with mrs.
    rewrite Z.pow_0_r, Z.div_1_r. reflexivity.
  - change (Nat.iter (S n) shr_1 mrs) with (shr_1 (Nat.iter n shr_1 mrs)).
    rewrite shr_m_shr_1.
    + rewrite IH by exact Hm.
      rewrite Nat2Z.inj_succ, Z.pow_succ_r by lia.
      rewrite Z.div_div by lia.
      f_equal. lia.
    + rewrite IH by exact Hm. apply Z.div_pos; [exact Hm |].
      apply Z.pow_pos_nonneg; lia.
Qed.

Lemma shr_m_iter_pos (p : positive) (mrs : shr_record) :
  0 <= shr_m mrs ->
  shr_m (SpecFloat.iter_pos shr_1 p mrs) = shr_m mrs / 2 ^ Zpos p.
Proof.
  intros Hm. rewrite iter_pos_nat, shr_m_iter_nat by exact Hm.
  rewrite positive_nat_Z. reflexivity.
Qed.

Lemma Zdigits2_mul_pow2 (m k : Z) :
  0 < m -> 0 <= k -> Zdigits2 (m * 2 ^ k) = Zdigits2 m + k.
Proof.
  intros Hm Hk. destruct (Zdigits2_bounds m Hm) as (Hd & Hlo & Hhi).
  assert (Hp : 0 < 2 ^ k) by (apply Z.pow_pos_nonneg; lia).
  apply Zdigits2_unique; [lia |].
  replace (Zdigits2 m + k - 1) with (Zdigits2 m - 1 + k) by lia.
  rewrite !Z.pow_add_r by lia. split.
  - apply Z.mul_le_mono_nonneg_r; lia.
  - apply Z.mul_lt_mono_pos_r; lia.
Qed.

Lemma Zdigits2_div_pow2 (m q : Z) :
  0 < m -> 0 <= q < Zdigits2 m -> Zdigits2 (m / 2 ^ q) = Zdigits2 m - q.
Proof.
  intros Hm Hq. destruct (Zdigits2_bounds m Hm) as (Hd & Hlo & Hhi).
  assert (Hp : 0 < 2 ^ q) by (apply Z.pow_pos_nonneg; lia).
  apply Zdigits2_unique; [lia |]. split.
  - apply Z.div_le_lower_bound; [exact Hp |].
    rewrite <- Z.pow_add_r by lia.
    replace (q + (Zdigits2 m - q - 1)) with (Zdigits2 m - 1) by lia.
    exact Hlo.
  - apply Z.div_lt_upper_bound; [exact Hp |].
    rewrite <- Z.pow_add_r by lia.
    replace (q + (Zdigits2 m - q)) with (Zdigits2 m) by lia.
    exact Hhi.
Qed.

Lemma div_pow2_small (m q : Z) :
  0 < m -> Zdigits2 m <= q -> m / 2 ^ q = 0.
Proof.
  intros Hm Hq. destruct (Zdigits2_bounds m Hm) as (Hd & Hlo & Hhi).
  apply Z.div_small. split; [lia |].
  apply Z.lt_le_trans with (2 ^ Zdigits2 m); [exact Hhi |].
  apply Z.pow_le_mono_r; lia.
Qed.

Lemma Zdigits2_succ (m : Z) :
  0 < m ->
  Zdigits2 (m + 1) = Zdigits2 m \/
  (m + 1 = 2 ^ Zdigits2 m /\ Zdigits2 (m + 1) = Zdigits2 m + 1).
Proof.
  intros Hm. destruct (Zdigits2_bounds m Hm) as (Hd & Hlo & Hhi).
  destruct (Z.eq_dec (m + 1) (2 ^ Zdigits2 m)) as [E | N].
  - right. split; [exact E |].
    apply Zdigits2_unique; [lia |].
    replace (Zdigits2 m + 1 - 1) with (Zdigits2 m) by lia.
    rewrite Z.pow_add_r by lia. lia.
  - left. apply Zdigits2_unique; lia.
Qed.

Lemma shr_m_of_loc (m : Z) (l : location) :
  shr_m (shr_record_of_loc m l) = m.
Proof. destruct l as [| []]; reflexivity. Qed.

(** [shr_fexp] divides the mantissa by the power of two that brings the
    exponent up to the format's. *)
Lemma shr_fexp_spec (prec emax m e : Z) (l : location) :
  0 <= m ->
  shr_m (fst (shr_fexp prec emax m e l)) =
    m / 2 ^ Z.max 0 (fexp prec emax (Zdigits2 m + e) - e) /\
  snd (shr_fexp prec emax m e l) =
    e + Z.max 0 (fexp prec emax (Zdigits2 m + e) - e).
Proof.
  intros Hm. unfold shr_fexp, shr.
  destruct (fexp prec emax (Zdigits2 m + e) - e) as [| p | p];
    cbn [fst snd].
  - rewrite shr_m_of_loc, Z.max_id, Z.pow_0_r, Z.div_1_r. split; lia.
  - rewrite shr_m_iter_pos by (rewrite shr_m_of_loc; exact Hm).
    rewrite shr_m_of_loc. rewrite Z.max_r by lia. split; reflexivity.
  - rewrite shr_m_of_loc, Z.max_l by lia.
    rewrite Z.pow_0_r, Z.div_1_r. split; lia.
Qed.

Lemma round_nearest_even_cases (m : Z) (l : location) :
  round_nearest_even m l = m \/ round_nearest_even m l = m + 1.
Proof.
  destruct l as [| []]; cbn [round_nearest_even]; auto.
  destruct (Z.even m); auto.
Qed.

Lemma fexp32_eq (x : Z) : fexp prec32 emax32 x = Z.max (x - 24) (-149).
Proof. reflexivity. Qed.

Lemma fexp64_eq (x : Z) : fexp prec64 emax64 x = Z.max (x - 53) (-1074).
Proof. reflexivity. Qed.

(** The arithmetic of [binary_round_aux] in the 32-bit format: divide,
    round, divide again; what is left is canonical. *)
Lemma round32_canonical (mz ez m1 m2 m3 e3 : Z) :
  0 < mz ->
  ez <= Z.max (Zdigits2 mz + ez - 24) (-149) ->
  m1 = mz / 2 ^ (Z.max (Zdigits2 mz + ez - 24) (-149) - ez) ->
  m2 = m1 \/ m2 = m1 + 1 ->
  m3 = m2 / 2 ^ Z.max 0 (Z.max (Zdigits2 m2 + Z.max (Zdigits2 mz + ez - 24) (-149) - 24) (-149)
                          - Z.max (Zdigits2 mz + ez - 24) (-149)) ->
  e3 = Z.max (Zdigits2 mz + ez - 24) (-149)
       + Z.max 0 (Z.max (Zdigits2 m2 + Z.max (Zdigits2 mz + ez - 24) (-149) - 24) (-149)
                  - Z.max (Zdigits2 mz + ez - 24) (-149)) ->
  0 < m3 ->
  Z.max (Zdigits2 m3 + e3 - 24) (-149) = e3.
Proof.
  intros Hmz Hal.
  destruct (Zdigits2_bounds mz Hmz) as (Hdz & _ & _).
  set (F := Z.max (Zdigits2 mz + ez - 24) (-149)) in *.
  intros Hm1 Hm2 Hm3 He3 Hpos.
  destruct (Z_lt_le_dec (F - ez) (Zdigits2 mz)) as [Hq | Hq].
  - (* the first division leaves a mantissa *)
    assert (Hd1 : Zdigits2 m1 = Zdigits2 mz - (F - ez)).
    { rewrite Hm1. apply Zdigits2_div_pow2; lia. }
    assert (Hm1pos : 0 < m1).
    { assert (0 <= m1).
      { rewrite Hm1. apply Z.div_pos; [lia |]. apply Z.pow_pos_nonneg; lia. }
      destruct m1 as [| p | p]; cbn [Zdigits2] in Hd1; lia. }
    destruct Hm2 as [-> | ->].
    + rewrite Hd1 in Hm3, He3.
      replace (Z.max 0 (Z.max (Zdigits2 mz - (F - ez) + F - 24) (-149) - F))
        with 0 in * by lia.
      rewrite Z.pow_0_r, Z.div_1_r in Hm3. subst m3 e3. rewrite Hd1. lia.
    + destruct (Zdigits2_succ m1 Hm1pos) as [Hsame | [Hcarry Hd2]].
      * rewrite Hsame, Hd1 in Hm3, He3.
        replace (Z.max 0 (Z.max (Zdigits2 mz - (F - ez) + F - 24) (-149) - F))
          with 0 in * by lia.
        rewrite Z.pow_0_r, Z.div_1_r in Hm3. subst m3 e3.
        rewrite Hsame, Hd1. lia.
      * rewrite Hd2, Hd1 in Hm3, He3.
        destruct (Z_le_gt_dec (-149) (Zdigits2 mz + ez - 24)) as [Hn | Hs].
        -- (* normal range: one more halving *)
           replace (Z.max 0 (Z.max (Zdigits2 mz - (F - ez) + 1 + F - 24) (-149) - F))
             with 1 in * by lia.
           assert (Hd3 : Zdigits2 m3 = Zdigits2 m1).
           { rewrite Hm3. rewrite Zdigits2_div_pow2; lia. }
           rewrite Hd3, Hd1, He3. lia.
        -- replace (Z.max 0 (Z.max (Zdigits2 mz - (F - ez) + 1 + F - 24) (-149) - F))
             with 0 in * by lia.
           rewrite Z.pow_0_r, Z.div_1_r in Hm3. subst m3 e3.
           rewrite Hd2, Hd1. lia.
  - (* the first division leaves nothing *)
    assert (E1 : m1 = 0) by (rewrite Hm1; apply div_pow2_small; lia).
    clear Hm1. subst m1. destruct Hm2 as [-> | ->].
    + rewrite Zdiv_0_l in Hm3. lia.
    + change (Zdigits2 (0 + 1)) with 1 in Hm3, He3.
      replace (Z.max 0 (Z.max (1 + F - 24) (-149) - F)) with 0 in * by lia.
      rewrite Z.pow_0_r, Z.div_1_r in Hm3. subst m3 e3.
      change (Zdigits2 (0 + 1)) with 1. lia.
Qed.

Lemma Zpos_iter_xO (m d : positive) :
  Zpos (Pos.iter xO m d) = Zpos m * 2 ^ Zpos d.
Proof.
  induction d as [| d IH] using Pos.peano_ind.
  - cbn [Pos.iter]. rewrite Pos2Z.inj_xO. lia.
  - rewrite Pos.iter_succ, Pos2Z.inj_xO, IH, Pos2Z.inj_succ.
    rewrite Z.pow_succ_r by lia. lia.
Qed.

Lemma shl_align_spec (mx : positive) (ex ex' : Z) :
  (ex' < ex /\
   snd (shl_align mx ex ex') = ex' /\
   Zpos (fst (shl_align mx ex ex')) = Zpos mx * 2 ^ (ex - ex')) \/
  (ex <= ex' /\ shl_align mx ex ex' = (mx, ex)).
Proof.
  unfold shl_align. destruct (ex' - ex) as [| d | d] eqn:E.
  - right. split; [lia | reflexivity].
  - right. split; [lia | reflexivity].
  - left. cbn [fst snd]. split; [lia |]. split; [reflexivity |].
    rewrite Zpos_iter_xO. f_equal. f_equal. lia.
Qed.

(** After [shl_align] towards the format's exponent, the exponent is at
    most the format's. *)
Lemma shl_align_fexp (prec emax : Z) (mx : positive) (ex : Z) :
  let a := shl_align mx ex (fexp prec emax (Zpos (digits2_pos mx) + ex)) in
  snd a <= fexp prec emax (Zdigits2 (Zpos (fst a)) + snd a).
Proof.
  cbv zeta.
  set (F := fexp prec emax (Zpos (digits2_pos mx) + ex)).
  destruct (shl_align_spec mx ex F) as [(Hlt & He & Hm) | (Hle & E)].
  - rewrite He, Hm.
    rewrite Zdigits2_mul_pow2 by lia.
    change (Zdigits2 (Zpos mx)) with (Zpos (digits2_pos mx)).
    replace (Zpos (digits2_pos mx) + (ex - F) + F)
      with (Zpos (digits2_pos mx) + ex) by lia.
    fold F. lia.
  - rewrite E. cbn [fst snd].
    change (Zdigits2 (Zpos mx)) with (Zpos (digits2_pos mx)).
    fold F. exact Hle.
Qed.

(** Every finite result of rounding to 32 bits is a valid binary32
    number, with the sign of the argument. *)
Lemma binary_round32_bounded (s : bool) (m : positive) (e : Z) :
  match binary_round prec32 emax32 s m e with
  | S754_finite s' m' e' => s' = s /\ SpecFloat.bounded prec32 emax32 m' e' = true
  | _ => True
  end.
Proof.
  unfold binary_round.
  pose proof (shl_align_fexp prec32 emax32 m e) as Hal. cbv zeta in Hal.
  destruct (shl_align m e (fexp prec32 emax32 (Zpos (digits2_pos m) + e)))
    as [mz ez]. cbn [fst snd] in Hal.
  unfold binary_round_aux.
  pose proof (shr_fexp_spec prec32 emax32 (Zpos mz) ez loc_Exact
                ltac:(lia)) as [Hm1 He1].
  destruct (shr_fexp prec32 emax32 (Zpos mz) ez loc_Exact) as [mrs1 e1].
  cbn [fst snd] in Hm1, He1.
  set (m2 := round_nearest_even (shr_m mrs1) (loc_of_shr_record mrs1)).
  assert (Hm2 : m2 = shr_m mrs1 \/ m2 = shr_m mrs1 + 1)
    by apply round_nearest_even_cases.
  assert (Hm1nn : 0 <= shr_m mrs1).
  { rewrite Hm1. apply Z.div_pos; [lia |]. apply Z.pow_pos_nonneg; lia. }
  pose proof (shr_fexp_spec prec32 emax32 m2 e1 loc_Exact
                ltac:(lia)) as [Hm3 He3].
  destruct (shr_fexp prec32 emax32 m2 e1 loc_Exact) as [mrs3 e3].
  cbn [fst snd] in Hm3, He3.
  destruct (shr_m mrs3) as [| m3 | m3] eqn:E3; try exact I.
  destruct (Z.leb_spec e3 (emax32 - prec32)) as [Hle | Hgt]; try exact I.
  split; [reflexivity |].
  unfold SpecFloat.bounded, canonical_mantissa. rewrite fexp32_eq in *.
  apply andb_true_intro. split; [| apply Z.leb_le; exact Hle].
  apply Z.eqb_eq.
  change (Zpos (digits2_pos m3)) with (Zdigits2 (Zpos m3)).
  rewrite Z.max_r in Hm1, He1 by lia.
  assert (He1' : e1 = Z.max (Zdigits2 (Zpos mz) + ez - 24) (-149)) by lia.
  apply (round32_canonical (Zpos mz) ez (shr_m mrs1) m2 (Zpos m3) e3);
    try lia.
  rewrite Hm3. clear He1. subst e1. reflexivity.
Qed.

(** A canonical mantissa goes through [binary_round_aux] unchanged. *)
Lemma binary_round_aux_canonical (prec emax : Z) (s : bool) (m : positive) (e : Z) :
  fexp prec emax (Zpos (digits2_pos m) + e) = e ->
  e <= emax - prec ->
  binary_round_aux prec emax s (Zpos m) e loc_Exact = S754_finite s m e.
Proof.
  intros Hc He. unfold binary_round_aux.
  assert (Hs : shr_fexp prec emax (Zpos m) e loc_Exact =
               (Build_shr_record (Zpos m) false false, e)).
  { unfold shr_fexp. cbn [Zdigits2]. rewrite Hc, Z.sub_diag. reflexivity. }
  rewrite Hs. cbn [shr_m loc_of_shr_record round_nearest_even].
  rewrite Hs. cbn [shr_m].
  destruct (Z.leb_spec e (emax - prec)); [reflexivity | lia].
Qed.

Lemma shr_fexp_canonical (prec emax : Z) (m : positive) (e : Z) :
  fexp prec emax (Zpos (digits2_pos m) + e) = e ->
  shr_fexp prec emax (Zpos m) e loc_Exact =
  (Build_shr_record (Zpos m) false false, e).
Proof.
  intros Hc. unfold shr_fexp. cbn [Zdigits2].
  rewrite Hc, Z.sub_diag. reflexivity.
Qed.

(** Halving [d] times a mantissa that was doubled [d] times is exact. *)
Lemma shr_iter_xO (d : positive) :
  forall m : positive,
    SpecFloat.iter_pos shr_1 d
      (Build_shr_record (Zpos (Pos.iter xO m d)) false false)
    = Build_shr_record (Zpos m) false false.
Proof.
  induction d as [d IH | d IH |]; intros m;
    cbn [SpecFloat.iter_pos Pos.iter shr_1 orb].
  - rewrite !IH. reflexivity.
  - rewrite !IH. reflexivity.
  - reflexivity.
Qed.

Lemma bounded32_inv (m : positive) (e : Z) :
  SpecFloat.bounded prec32 emax32 m e = true ->
  Zpos (digits2_pos m) <= 24 /\ -149 <= e <= 104 /\
  Z.max (Zpos (digits2_pos m) + e - 24) (-149) = e.
Proof.
  unfold SpecFloat.bounded, canonical_mantissa. rewrite fexp32_eq.
  intros H. apply andb_prop in H. destruct H as [Hc He].
  apply Z.eqb_eq in Hc. apply Z.leb_le in He.
  change (emax32 - prec32) with 104 in He. lia.
Qed.

(** A binary32 number is a binary64 number, and rounding that one to 32
    bits gives the binary32 number back. *)
Lemma binary32_round_trip (s : bool) (m : positive) (e : Z) :
  SpecFloat.bounded prec32 emax32 m e = true ->
  exists m2 e2,
    binary_round prec64 emax64 s m e = S754_finite s m2 e2 /\
    binary_round prec32 emax32 s m2 e2 = S754_finite s m e.
Proof.
  intros Hb. destruct (bounded32_inv m e Hb) as (Hd & He & Hc).
  assert (Hd1 : 1 <= Zpos (digits2_pos m)) by lia.
  set (D := Zpos (digits2_pos m)) in *.
  assert (H64 : fexp prec64 emax64 (D + e) = D + e - 53)
    by (rewrite fexp64_eq; lia).
  destruct (Z.sub (D + e - 53) e) as [| d | d] eqn:Ed; try lia.
  exists (Pos.iter xO m d), (D + e - 53).
  assert (Hmz : Zdigits2 (Zpos (Pos.iter xO m d)) = 53).
  { rewrite Zpos_iter_xO, Zdigits2_mul_pow2 by lia.
    change (Zdigits2 (Zpos m)) with D. lia. }
  split.
  - unfold binary_round. fold D. rewrite H64.
    unfold shl_align. rewrite Ed.
    apply binary_round_aux_canonical.
    + change (Zpos (digits2_pos (Pos.iter xO m d)))
        with (Zdigits2 (Zpos (Pos.iter xO m d))).
      rewrite Hmz, fexp64_eq. lia.
    + change (emax64 - prec64) with 971. lia.
  - unfold binary_round.
    change (Zpos (digits2_pos (Pos.iter xO m d)))
      with (Zdigits2 (Zpos (Pos.iter xO m d))).
    rewrite Hmz.
    assert (H32 : fexp prec32 emax32 (53 + (D + e - 53)) = e)
      by (rewrite fexp32_eq; lia).
    rewrite H32. unfold shl_align.
    destruct (e - (D + e - 53)) as [| d' | d'] eqn:Ed'; try lia.
    assert (d' = d) by lia. subst d'.
    unfold binary_round_aux, shr_fexp at 1.
    rewrite Hmz, H32, Ed'. unfold shr. cbn [shr_record_of_loc].
    rewrite shr_iter_xO.
    cbn [shr_m loc_of_shr_record round_nearest_even].
    replace (D + e - 53 + Zpos d) with e by lia.
    rewrite shr_fexp_canonical by (rewrite fexp32_eq; exact Hc).
    cbn [shr_m].
    destruct (Z.leb_spec e (emax32 - prec32)) as [_ | Hgt];
      [reflexivity | change (emax32 - prec32) with 104 in Hgt; lia].
Qed.

(** *** The transport format is a projection *)

(** Packing what packing returned changes nothing. *)
Lemma pack_unpack_idempotent (x y : float) :
  pack_unpack x = Ok y -> pack_unpack y = Ok y.
Proof.
  unfold pack_unpack.
  destruct x as [s | s | | s m e]; cbn [to_binary32 of_binary32].
  - intros [= <-]. reflexivity.
  - intros [= <-]. reflexivity.
  - intros [= <-]. reflexivity.
  - pose proof (binary_round32_bounded s m e) as Hb.
    destruct (binary_round prec32 emax32 s m e) as [s' | s' | | s' m' e'].
    + intros [= <-]. reflexivity.
    + discriminate.
    + intros [= <-]. reflexivity.
    + destruct Hb as [-> Hb].
      destruct (binary32_round_trip s m' e' Hb) as (m2 & e2 & H64 & H32).
      cbn [of_binary32]. rewrite H64. intros [= <-].
      cbn [to_binary32]. rewrite H32. cbn [of_binary32]. rewrite H64.
      reflexivity.
Qed.

Lemma to_gl_float_idempotent (w v : array4) :
  to_gl_float w = Ok v -> to_gl_float v = Ok v.
Proof.
  destruct w as [[[a b] c] d]. unfold to_gl_float at 1.
  destruct (pack_unpack a) as [a' |] eqn:Ea; [| discriminate].
  destruct (pack_unpack b) as [b' |] eqn:Eb; [| discriminate].
  destruct (pack_unpack c) as [c' |] eqn:Ec; [| discriminate].
  destruct (pack_unpack d) as [d' |] eqn:Ed; [| discriminate].
  cbn [bind]. intros [= <-]. unfold to_gl_float.
  rewrite (pack_unpack_idempotent a a' Ea), (pack_unpack_idempotent b b' Eb),
    (pack_unpack_idempotent c c' Ec), (pack_unpack_idempotent d d' Ed).
  reflexivity.
Qed.

(** *** Idempotence *)

Lemma refine_round_adopts_packed (w next_weights : array4) :
  refine_round w = Ok (Some next_weights) ->
  to_gl_float next_weights = Ok next_weights.
Proof.
  unfold refine_round.
  destruct (quotients w) as [q |]; [| discriminate]. cbn [bind].
  destruct (to_gl_float q) as [n |] eqn:En; [| discriminate]. cbn [bind].
  destruct (sum_error w) as [err |]; [| discriminate]. cbn [bind].
  destruct (sum_error n) as [nerr |]; [| discriminate]. cbn [bind].
  destruct (ge err epsilon && gt err nerr); [| discriminate].
  intros [= <-]. exact (to_gl_float_idempotent q n En).
Qed.

(** The loop returns a tuple of 32-bit values when it starts from one. *)
Lemma refine_returns_packed (rounds : nat) :
  forall w r,
    to_gl_float w = Ok w -> refine rounds w = Ok r -> to_gl_float r = Ok r.
Proof.
  induction rounds as [| rounds IH]; intros w r Hw; cbn [refine].
  - intros [= <-]. exact Hw.
  - destruct (refine_round w) as [[n |] |] eqn:E; cbn [bind].
    + apply IH. exact (refine_round_adopts_packed w n E).
    + intros [= <-]. exact Hw.
    + discriminate.
Qed.

(** Unless every round adopted a new tuple, the loop left through
    [break]. *)
Lemma refine_stops_early (rounds : nat) :
  forall w r,
    refine rounds w = Ok r ->
    (adoptions rounds w < rounds)%nat ->
    refine_round r = Ok None.
Proof.
  induction rounds as [| rounds IH]; intros w r; cbn [refine adoptions].
  - intros _ H. inversion H.
  - destruct (refine_round w) as [[n |] |] eqn:E; cbn [bind].
    + intros Hr Hlt. apply (IH n r Hr). apply PeanoNat.lt_S_n. exact Hlt.
    + intros [= <-] _. exact E.
    + discriminate.
Qed.

Lemma refine_at_rest (rounds : nat) (r : array4) :
  refine_round r = Ok None -> refine (S rounds) r = Ok r.
Proof. intros H. cbn [refine]. rewrite H. reflexivity. Qed.

Lemma eq_refl_not_nan (x : float) : is_nan x = false -> eq x x = true.
Proof.
  unfold eq, SFeqb, SFcompare.
  destruct x as [s | s | | s m e]; cbn [is_nan]; try reflexivity.
  - destruct s; reflexivity.
  - discriminate.
  - intros _. rewrite Z.compare_refl, Pos.compare_cont_refl.
    destruct s; reflexivity.
Qed.

Lemma array4_eq_refl_not_nan (w : array4) :
  has_nan w = false -> array4_eq w w = true.
Proof.
  destruct w as [[[a b] c] d]. unfold has_nan, array4_eq.
  cbn [items existsb]. intros H.
  apply orb_false_elim in H. destruct H as [Ha H].
  apply orb_false_elim in H. destruct H as [Hb H].
  apply orb_false_elim in H. destruct H as [Hc H].
  apply orb_false_elim in H. destruct H as [Hd _].
  rewrite !eq_refl_not_nan by assumption. reflexivity.
Qed.

(** C5, as stated, fails.  The weights (1, 5, 20, 43) use up the ten
    rounds of the loop, each lowering the first component by one unit in
    the last place; a second call goes on from there and returns a first
    component that is one unit lower again. *)
Lemma normalize_not_idempotent :
  exists r r',
    normalize_weights_compatible_with_gl_float w_1_5_20_43 = Ok r /\
    normalize_weights_compatible_with_gl_float r = Ok r' /\
    has_nan r = false /\
    array4_eq r' r = false /\
    fst (fst (fst r)) = S754_finite false 8354508644024320 (-59) /\
    fst (fst (fst r')) = S754_finite false 8354509180895232 (-59).
Proof.
  eexists. eexists.
  split; [vm_compute; reflexivity |].
  split; [vm_compute; reflexivity |].
  repeat split; vm_compute; reflexivity.
Qed.

(** C5 (amended).  When the first call came to rest at its result [r] (it
    returned its argument at once, or the loop ended in [break]), a second
    call returns [r] again, bit for bit, and so a tuple equal to it under
    the float [==] when [r] holds no NaN.  The loop comes to rest whenever
    fewer than ten of its rounds adopted a new tuple. *)
Theorem normalize_idempotent_at_rest (w r : array4) :
  normalize_weights_compatible_with_gl_float w = Ok r ->
  settled r ->
  normalize_weights_compatible_with_gl_float r = Ok r /\
  (has_nan r = false -> array4_eq r r = true).
Proof.
  intros Hrun Hrest.
  split; [| apply array4_eq_refl_not_nan].
  unfold normalize_weights_compatible_with_gl_float in *.
  destruct (sums_to_one r) eqn:Hr; [reflexivity |].
  destruct Hrest as [Hone | Hbreak]; [congruence |].
  destruct (sums_to_one w) eqn:Hw.
  - injection Hrun as <-. congruence.
  - destruct (to_gl_float w) as [w32 |] eqn:Hpack; [| discriminate].
    cbn [bind] in Hrun.
    assert (Hr32 : to_gl_float r = Ok r).
    { apply (refine_returns_packed 10 w32 r); [| exact Hrun].
      exact (to_gl_float_idempotent w w32 Hpack). }
    rewrite Hr32. cbn [bind]. apply refine_at_rest. exact Hbreak.
Qed.

(** The first call comes to rest unless all ten rounds adopted a new
    tuple. *)
Lemma normalize_settles_before_tenth_adoption (w w32 r : array4) :
  normalize_weights_compatible_with_gl_float w = Ok r ->
  sums_to_one w = false ->
  to_gl_float w = Ok w32 ->
  (adoptions 10 w32 < 10)%nat ->
  settled r.
Proof.
  intros Hrun Hw Hpack Hlt. right.
  unfold normalize_weights_compatible_with_gl_float in Hrun.
  rewrite Hw, Hpack in Hrun. cbn [bind] in Hrun.
  exact (refine_stops_early 10 w32 r Hrun Hlt).
Qed.

Lemma normalize_idempotent_thirds :
  exists r,
    normalize_weights_compatible_with_gl_float w_0_0_1_2 = Ok r /\
    settled r /\
    sums_to_one r = false /\
    normalize_weights_compatible_with_gl_float r = Ok r /\
    (has_nan r = false -> array4_eq r r = true).
Proof.
  eexists.
  assert (Hrun : normalize_weights_compatible_with_gl_float w_0_0_1_2 =
                 Ok (zero, zero,
                     S754_finite false 6004799682117632 (-54),
                     S754_finite false 6004799682117632 (-53)))
    by (vm_compute; reflexivity).
  assert (Hrest : settled (zero, zero,
                           S754_finite false 6004799682117632 (-54),
                           S754_finite false 6004799682117632 (-53)))
    by (right; vm_compute; reflexivity).
  split; [exact Hrun |]. split; [exact Hrest |].
  split; [vm_compute; reflexivity |].
  exact (normalize_idempotent_at_rest _ _ Hrun Hrest).
Defined.

(** *** More on the 32-bit format and on the refinement *)

(** X16.  [to_gl_float] is a projection onto the 32-bit floats: a tuple it
    returns goes through it again unchanged, the only exception it raises is
    [OverflowError], and every binary32 number, taken as a float, is left as
    it is. *)
Theorem to_gl_float_projection :
  (forall w,
      match to_gl_float w with
      | Ok v => to_gl_float v = Ok v
      | Err e => e = OverflowError
      end) /\
  (forall s m e,
      SpecFloat.bounded prec32 emax32 m e = true ->
      pack_unpack (of_binary32 (S754_finite s m e)) =
      Ok (of_binary32 (S754_finite s m e))).
Proof.
  split.
  - intros w. destruct (to_gl_float w) as [v | e] eqn:E.
    + exact (to_gl_float_idempotent w v E).
    + exact (to_gl_float_errors w e E).
  - intros s m e Hb.
    destruct (binary32_round_trip s m e Hb) as (m2 & e2 & H64 & H32).
    cbn [of_binary32]. rewrite H64. unfold pack_unpack.
    cbn [to_binary32]. rewrite H32. cbn [of_binary32]. rewrite H64.
    reflexivity.
Qed.

(** X17.  Unless the weights are returned at once, what the normalisation
    returns is a tuple of 32-bit floats: it goes through [to_gl_float]
    unchanged. *)
Theorem normalize_returns_gl_floats (w r : array4) :
  sums_to_one w = false ->
  normalize_weights_compatible_with_gl_float w = Ok r ->
  to_gl_float r = Ok r.
Proof.
  intros Hw Hrun.
  unfold normalize_weights_compatible_with_gl_float in Hrun.
  rewrite Hw in Hrun.
  destruct (to_gl_float w) as [w32 |] eqn:Hpack; [| discriminate].
  cbn [bind] in Hrun.
  apply (refine_returns_packed 10 w32 r); [| exact Hrun].
  exact (to_gl_float_idempotent w w32 Hpack).
Qed.

Lemma normalize_returns_gl_floats_thirds :
  exists r,
    sums_to_one w_0_0_1_2 = false /\
    normalize_weights_compatible_with_gl_float w_0_0_1_2 = Ok r /\
    to_gl_float r = Ok r.
Proof.
  eexists.
  assert (Hw : sums_to_one w_0_0_1_2 = false) by (vm_compute; reflexivity).
  assert (Hrun : normalize_weights_compatible_with_gl_float w_0_0_1_2 =
                 Ok (zero, zero,
                     S754_finite false 6004799682117632 (-54),
                     S754_finite false 6004799682117632 (-53)))
    by (vm_compute; reflexivity).
  split; [exact Hw |]. split; [exact Hrun |].
  exact (normalize_returns_gl_floats _ _ Hw Hrun).
Defined.

(** The float [<] is transitive. *)
Lemma lt_trans (x y z : float) :
  lt x y = true -> lt y z = true -> lt x z = true.
Proof.
  unfold lt, SFltb, SFcompare.
  destruct x as [sx | sx | | sx mx ex]; destruct y as [sy | sy | | sy my ey];
    destruct z as [sz | sz | | sz mz ez];
    try destruct sx; try destruct sy; try destruct sz;
    try discriminate; try reflexivity.
  - (* three negative finite floats *)
    destruct (Z.compare_spec ex ey) as [E1 | L1 | G1];
      destruct (Z.compare_spec ey ez) as [E2 | L2 | G2];
      destruct (Z.compare_spec ex ez) as [E3 | L3 | G3];
      try discriminate; try reflexivity; try lia.
    rewrite !Pos.compare_cont_spec. cbn [Pos.switch_Eq].
    destruct (Pos.compare_spec mx my); destruct (Pos.compare_spec my mz);
      destruct (Pos.compare_spec mx mz);
      cbn [CompOpp]; try discriminate; try reflexivity; try lia.
  - (* three positive finite floats *)
    destruct (Z.compare_spec ex ey) as [E1 | L1 | G1];
      destruct (Z.compare_spec ey ez) as [E2 | L2 | G2];
      destruct (Z.compare_spec ex ez) as [E3 | L3 | G3];
      try discriminate; try reflexivity; try lia.
    rewrite !Pos.compare_cont_spec. cbn [Pos.switch_Eq].
    destruct (Pos.compare_spec mx my); destruct (Pos.compare_spec my mz);
      destruct (Pos.compare_spec mx mz);
      try discriminate; try reflexivity; try lia.
Qed.

Lemma refine_round_Ok_inv (w : array4) (step : option array4) :
  refine_round w = Ok step ->
  exists err,
    sum_error w = Ok err /\
    match step with
    | Some next_weights =>
        exists next_err,
          sum_error next_weights = Ok next_err /\
          ge err epsilon = true /\ lt next_err err = true
    | None => True
    end.
Proof.
  unfold refine_round.
  destruct (quotients w) as [q |]; [| discriminate]. cbn [bind].
  destruct (to_gl_float q) as [n |]; [| discriminate]. cbn [bind].
  destruct (sum_error w) as [err |]; [| discriminate]. cbn [bind].
  destruct (sum_error n) as [nerr |] eqn:En; [| discriminate]. cbn [bind].
  destruct (ge err epsilon && gt err nerr) eqn:C; intros [= <-];
    exists err; split; try reflexivity; try exact I.
  apply andb_prop in C. destruct C as [Cge Cgt].
  exists nerr. split; [exact En |]. split; [exact Cge | exact Cgt].
Qed.

Lemma refine_lowers_error (rounds : nat) :
  forall w r e0,
    sum_error w = Ok e0 ->
    refine rounds w = Ok r ->
    exists e1, sum_error r = Ok e1 /\ (r = w \/ lt e1 e0 = true).
Proof.
  induction rounds as [| rounds IH]; intros w r e0 He0; cbn [refine].
  - intros [= <-]. exists e0. split; [exact He0 | left; reflexivity].
  - destruct (refine_round w) as [[n |] |] eqn:E; cbn [bind].
    + destruct (refine_round_Ok_inv w (Some n) E)
        as (err & Herr & nerr & Hnerr & _ & Hlt).
      assert (err = e0) by congruence. subst err.
      intros Hr. destruct (IH n r nerr Hnerr Hr) as (e1 & He1 & [-> | Hlt1]).
      * exists e1. split; [exact He1 |]. right.
        assert (e1 = nerr) by congruence. subst e1. exact Hlt.
      * exists e1. split; [exact He1 |]. right.
        exact (lt_trans e1 nerr e0 Hlt1 Hlt).
    + intros [= <-]. exists e0. split; [exact He0 | left; reflexivity].
    + discriminate.
Qed.

(** X18.  The refinement never returns a tuple with a larger sum error than
    the weights as rounded to 32 bits: it returns those, or a tuple whose
    [abs(1 - fsum)] is strictly smaller. *)
Theorem normalize_lowers_sum_error (w w32 r : array4) :
  sums_to_one w = false ->
  to_gl_float w = Ok w32 ->
  normalize_weights_compatible_with_gl_float w = Ok r ->
  exists e0 e1,
    sum_error w32 = Ok e0 /\ sum_error r = Ok e1 /\
    (r = w32 \/ lt e1 e0 = true).
Proof.
  intros Hw Hpack Hrun.
  unfold normalize_weights_compatible_with_gl_float in Hrun.
  rewrite Hw, Hpack in Hrun. cbn [bind] in Hrun.
  assert (He0 : exists e0, sum_error w32 = Ok e0).
  { cbn [refine] in Hrun.
    destruct (refine_round w32) as [step |] eqn:E; [| discriminate].
    destruct (refine_round_Ok_inv w32 step E) as (err & Herr & _).
    exists err. exact Herr. }
  destruct He0 as [e0 He0].
  destruct (refine_lowers_error 10 w32 r e0 He0 Hrun) as (e1 & He1 & H).
  exists e0, e1. split; [exact He0 |]. split; [exact He1 | exact H].
Qed.

Lemma normalize_lowers_sum_error_1_5_20_43 :
  exists w32 r e0 e1,
    sums_to_one w_1_5_20_43 = false /\
    to_gl_float w_1_5_20_43 = Ok w32 /\
    normalize_weights_compatible_with_gl_float w_1_5_20_43 = Ok r /\
    sum_error w32 = Ok e0 /\ sum_error r = Ok e1 /\
    (r = w32 \/ lt e1 e0 = true).
Proof.
  assert (Hw : sums_to_one w_1_5_20_43 = false) by (vm_compute; reflexivity).
  assert (Hpack : to_gl_float w_1_5_20_43 = Ok w_1_5_20_43)
    by (vm_compute; reflexivity).
  assert (Hrun : normalize_weights_compatible_with_gl_float w_1_5_20_43 =
                 Ok (S754_finite false 8354508644024320 (-59),
                     S754_finite false 5221564614180864 (-56),
                     S754_finite false 5221564614180864 (-54),
                     S754_finite false 5613181879713792 (-53)))
    by (vm_compute; reflexivity).
  destruct (normalize_lowers_sum_error _ _ _ Hw Hpack Hrun)
    as (e0 & e1 & H0 & H1 & H).
  eexists. eexists. exists e0, e1.
  split; [exact Hw |]. split; [exact Hpack |]. split; [exact Hrun |].
  split; [exact H0 |]. split; [exact H1 | exact H].
Defined.

(** *** Magnitudes

    The magnitude of a finite float: the number of bits of its mantissa
    plus its exponent, so that the value lies in [2^(mag-1), 2^mag). *)

Lemma Zdigits2_le (a b : Z) : 0 < a -> a <= b -> Zdigits2 a <= Zdigits2 b.
Proof.
  intros Ha Hab.
  destruct (Zdigits2_bounds a Ha) as (Hda & Hlo & _).
  destruct (Zdigits2_bounds b ltac:(lia)) as (Hdb & _ & Hhi).
  assert (H : 2 ^ (Zdigits2 a - 1) < 2 ^ Zdigits2 b) by lia.
  apply Z.pow_lt_mono_r_iff in H; lia.
Qed.

Lemma Zdigits2_add (a b : Z) :
  0 < a -> 0 < b ->
  Zdigits2 (a + b) <= Z.max (Zdigits2 a) (Zdigits2 b) + 1.
Proof.
  intros Ha Hb.
  destruct (Zdigits2_bounds a Ha) as (Hda & _ & Hahi).
  destruct (Zdigits2_bounds b Hb) as (Hdb & _ & Hbhi).
  destruct (Zdigits2_bounds (a + b) ltac:(lia)) as (Hd & Hlo & _).
  set (k := Z.max (Zdigits2 a) (Zdigits2 b)).
  assert (Hka : 2 ^ Zdigits2 a <= 2 ^ k) by (apply Z.pow_le_mono_r; lia).
  assert (Hkb : 2 ^ Zdigits2 b <= 2 ^ k) by (apply Z.pow_le_mono_r; lia).
  assert (H : 2 ^ (Zdigits2 (a + b) - 1) < 2 ^ (k + 1)).
  { rewrite (Z.pow_add_r 2 k 1) by lia. lia. }
  apply Z.pow_lt_mono_r_iff in H; lia.
Qed.

(** The quotient of [a] by [b], when [a] has [k] bits more than [b]. *)
Lemma Zdigits2_quotient (a b k : Z) :
  0 < b -> 0 < a -> 1 <= k -> Zdigits2 a = Zdigits2 b + k ->
  k <= Zdigits2 (a / b) <= k + 1.
Proof.
  intros Hb Ha Hk Hd.
  destruct (Zdigits2_bounds a Ha) as (Hda & Halo & Hahi).
  destruct (Zdigits2_bounds b Hb) as (Hdb & Hblo & Hbhi).
  pose proof (Z.mul_div_le a b Hb) as Hq1.
  pose proof (Z.mul_succ_div_gt a b Hb) as Hq2.
  assert (Hqnn : 0 <= a / b) by (apply Z.div_pos; lia).
  rewrite Hd in Halo, Hahi.
  replace (Zdigits2 b + k - 1) with (Zdigits2 b + (k - 1)) in Halo by lia.
  rewrite Z.pow_add_r in Halo, Hahi by lia.
  assert (Hp1 : 0 < 2 ^ (k - 1)) by (apply Z.pow_pos_nonneg; lia).
  assert (Hpb : 0 < 2 ^ (Zdigits2 b - 1)) by (apply Z.pow_pos_nonneg; lia).
  assert (Hlow : 2 ^ (k - 1) <= a / b).
  { assert (H : 2 ^ (k - 1) < Z.succ (a / b)); [| lia].
    apply (Z.mul_lt_mono_pos_l (2 ^ Zdigits2 b));
      [apply Z.pow_pos_nonneg; lia |].
    apply Z.le_lt_trans with a; [exact Halo |].
    apply Z.lt_le_trans with (b * Z.succ (a / b)); [exact Hq2 |].
    apply Z.mul_le_mono_nonneg_r; lia. }
  assert (Hhigh : a / b < 2 ^ (k + 1)).
  { apply (Z.mul_lt_mono_pos_l (2 ^ (Zdigits2 b - 1))); [exact Hpb |].
    apply Z.le_lt_trans with a.
    - apply Z.le_trans with (b * (a / b)); [| exact Hq1].
      apply Z.mul_le_mono_nonneg_r; lia.
    - replace (2 ^ (Zdigits2 b - 1) * 2 ^ (k + 1))
        with (2 ^ Zdigits2 b * 2 ^ k); [exact Hahi |].
      rewrite <- !Z.pow_add_r by lia. f_equal. lia. }
  assert (Hqpos : 0 < a / b) by lia.
  destruct (Zdigits2_bounds (a / b) Hqpos) as (Hdq & Hqlo & Hqhi).
  split.
  - assert (H : 2 ^ (k - 1) < 2 ^ Zdigits2 (a / b)) by lia.
    apply Z.pow_lt_mono_r_iff in H; lia.
  - assert (H : 2 ^ (Zdigits2 (a / b) - 1) < 2 ^ (k + 1)) by lia.
    apply Z.pow_lt_mono_r_iff in H; lia.
Qed.

(** The arithmetic of [binary_round_aux]: divide, round, divide again.
    What is left, when it is not zero, has at most [prec] bits and the
    magnitude of the argument, or that of the least number of the
    format, or one more. *)
Lemma round_magnitude (prec emin mz ez m1 m2 m3 e3 : Z) :
  1 <= prec -> 0 < mz ->
  ez <= Z.max (Zdigits2 mz + ez - prec) emin ->
  m1 = mz / 2 ^ (Z.max (Zdigits2 mz + ez - prec) emin - ez) ->
  m2 = m1 \/ m2 = m1 + 1 ->
  m3 = m2 / 2 ^ Z.max 0 (Z.max (Zdigits2 m2
                                   + Z.max (Zdigits2 mz + ez - prec) emin
                                   - prec) emin
                          - Z.max (Zdigits2 mz + ez - prec) emin) ->
  e3 = Z.max (Zdigits2 mz + ez - prec) emin
       + Z.max 0 (Z.max (Zdigits2 m2
                         + Z.max (Zdigits2 mz + ez - prec) emin
                         - prec) emin
                  - Z.max (Zdigits2 mz + ez - prec) emin) ->
  0 <= m3 /\
  (m3 = 0 -> Zdigits2 mz + ez <= emin) /\
  (0 < m3 ->
   Zdigits2 m3 <= prec /\
   Zdigits2 mz + ez <= Zdigits2 m3 + e3 /\
   Zdigits2 m3 + e3 <= Z.max (Zdigits2 mz + ez) emin + 1 /\
   emin <= e3 /\
   e3 <= Z.max (Zdigits2 mz + ez + 1 - prec) emin).
Proof.
  intros Hprec Hmz Hal.
  destruct (Zdigits2_bounds mz Hmz) as (Hdz & _ & _).
  set (F := Z.max (Zdigits2 mz + ez - prec) emin) in *.
  assert (HF : F = Z.max (Zdigits2 mz + ez - prec) emin) by reflexivity.
  clearbody F.
  intros Hm1 Hm2 Hm3 He3.
  destruct (Z_lt_le_dec (F - ez) (Zdigits2 mz)) as [Hq | Hq].
  - assert (Hd1 : Zdigits2 m1 = Zdigits2 mz - (F - ez)).
    { rewrite Hm1. apply Zdigits2_div_pow2; lia. }
    assert (Hm1pos : 0 < m1).
    { assert (0 <= m1).
      { rewrite Hm1. apply Z.div_pos; [lia |]. apply Z.pow_pos_nonneg; lia. }
      destruct m1 as [| p | p]; cbn [Zdigits2] in Hd1; lia. }
    assert (Hsame : Zdigits2 m2 = Zdigits2 m1 ->
                    m3 = m2 /\ e3 = F).
    { intros E. rewrite E, Hd1 in Hm3, He3.
      replace (Z.max 0 (Z.max (Zdigits2 mz - (F - ez) + F - prec) emin - F))
        with 0 in * by lia.
      rewrite Z.pow_0_r, Z.div_1_r in Hm3. split; lia. }
    destruct Hm2 as [Hm2 | Hm2].
    + destruct (Hsame ltac:(rewrite Hm2; reflexivity)) as [E3 Ee].
      clear Hm3 He3 Hsame. rewrite E3, Ee, Hm2, Hd1.
      split; [lia |]. split; [lia |]. lia.
    + destruct (Zdigits2_succ m1 Hm1pos) as [Hs | [Hcarry Hd2]].
      * rewrite <- Hm2 in Hs.
        destruct (Hsame Hs) as [E3 Ee].
        clear Hm3 He3 Hsame. rewrite E3, Ee, Hs, Hd1.
        split; [lia |]. split; [lia |]. lia.
      * rewrite <- Hm2 in Hd2, Hcarry. rewrite Hd2, Hd1 in Hm3, He3.
        destruct (Z_le_gt_dec emin (Zdigits2 mz + ez - prec)) as [Hn | Hs].
        -- replace (Z.max 0 (Z.max (Zdigits2 mz - (F - ez) + 1 + F - prec)
                               emin - F))
             with 1 in * by lia.
           assert (Hd3 : Zdigits2 m3 = Zdigits2 m1).
           { rewrite Hm3. rewrite Zdigits2_div_pow2; lia. }
           assert (Hm3pos : 0 < m3).
           { destruct m3 as [| p | p]; cbn [Zdigits2] in Hd3; try lia.
             rewrite Hcarry in Hm3.
             assert (0 <= 2 ^ Zdigits2 m1 / 2 ^ 1)
               by (apply Z.div_pos; [apply Z.pow_nonneg |]; lia).
             lia. }
           rewrite Hd3, Hd1, He3. split; [lia |]. split; [lia |]. lia.
        -- replace (Z.max 0 (Z.max (Zdigits2 mz - (F - ez) + 1 + F - prec)
                               emin - F))
             with 0 in * by lia.
           rewrite Z.pow_0_r, Z.div_1_r in Hm3.
           rewrite Hm3, He3, Hd2, Hd1. split; [lia |]. split; [lia |]. lia.
  - assert (E1 : m1 = 0) by (rewrite Hm1; apply div_pow2_small; lia).
    clear Hm1. subst m1. destruct Hm2 as [-> | ->].
    + rewrite Zdiv_0_l in Hm3. subst m3. split; [lia |]. split; lia.
    + change (Zdigits2 (0 + 1)) with 1 in Hm3, He3.
      replace (Z.max 0 (Z.max (1 + F - prec) emin - F)) with 0 in * by lia.
      rewrite Z.pow_0_r, Z.div_1_r in Hm3. subst m3.
      change (Zdigits2 (0 + 1)) with 1. split; [lia |]. split; lia.
Qed.

Lemma fexp_eq (prec emax x : Z) :
  fexp prec emax x = Z.max (x - prec) (3 - emax - prec).
Proof. reflexivity. Qed.

(** What [binary_round_aux] returns, by the magnitude of its argument:
    zero only below the format, an infinity only above it, and else a
    number of about that magnitude. *)
Lemma binary_round_aux_magnitude (prec emax : Z) (s : bool) (mz : positive)
    (ez : Z) (l : location) :
  1 <= prec -> 3 <= 2 * emax ->
  ez <= fexp prec emax (Zdigits2 (Zpos mz) + ez) ->
  match binary_round_aux prec emax s (Zpos mz) ez l with
  | S754_zero _ => Zdigits2 (Zpos mz) + ez <= 3 - emax - prec
  | S754_finite s' m' e' =>
      s' = s /\
      Zdigits2 (Zpos m') <= prec /\
      Zdigits2 (Zpos mz) + ez <= Zdigits2 (Zpos m') + e' /\
      Zdigits2 (Zpos m') + e'
        <= Z.max (Zdigits2 (Zpos mz) + ez) (3 - emax - prec) + 1 /\
      3 - emax - prec <= e' <= emax - prec
  | S754_infinity _ => emax <= Zdigits2 (Zpos mz) + ez
  | S754_nan => False
  end.
Proof.
  intros Hprec Hemax Hal. rewrite fexp_eq in Hal.
  unfold binary_round_aux.
  pose proof (shr_fexp_spec prec emax (Zpos mz) ez l ltac:(lia))
    as [Hm1 He1].
  destruct (shr_fexp prec emax (Zpos mz) ez l) as [mrs1 e1].
  cbn [fst snd] in Hm1, He1.
  set (m2 := round_nearest_even (shr_m mrs1) (loc_of_shr_record mrs1)).
  assert (Hm2 : m2 = shr_m mrs1 \/ m2 = shr_m mrs1 + 1)
    by apply round_nearest_even_cases.
  assert (Hm1nn : 0 <= shr_m mrs1).
  { rewrite Hm1. apply Z.div_pos; [lia |]. apply Z.pow_pos_nonneg; lia. }
  pose proof (shr_fexp_spec prec emax m2 e1 loc_Exact ltac:(lia))
    as [Hm3 He3].
  destruct (shr_fexp prec emax m2 e1 loc_Exact) as [mrs3 e3].
  cbn [fst snd] in Hm3, He3.
  rewrite fexp_eq in Hm1, He1, Hm3, He3.
  rewrite Z.max_r in Hm1, He1 by lia.
  assert (He1' : e1 = Z.max (Zdigits2 (Zpos mz) + ez - prec)
                        (3 - emax - prec)) by lia.
  clear He1. subst e1.
  destruct (round_magnitude prec (3 - emax - prec) (Zpos mz) ez
              (shr_m mrs1) m2 (shr_m mrs3) e3
              Hprec ltac:(lia) Hal Hm1 Hm2 Hm3 He3)
    as (Hnn & Hzero & Hpos).
  destruct (shr_m mrs3) as [| m3 | m3] eqn:E3.
  - apply Hzero. reflexivity.
  - specialize (Hpos ltac:(lia)).
    destruct (Z.leb_spec e3 (emax - prec)) as [Hle | Hgt].
    + split; [reflexivity |]. lia.
    + lia.
  - lia.
Qed.

Lemma binary_round_magnitude (prec emax : Z) (s : bool) (m : positive)
    (e : Z) :
  1 <= prec -> 3 <= 2 * emax ->
  match binary_round prec emax s m e with
  | S754_zero _ => Zdigits2 (Zpos m) + e <= 3 - emax - prec
  | S754_finite s' m' e' =>
      s' = s /\
      Zdigits2 (Zpos m') <= prec /\
      Zdigits2 (Zpos m) + e <= Zdigits2 (Zpos m') + e' /\
      Zdigits2 (Zpos m') + e'
        <= Z.max (Zdigits2 (Zpos m) + e) (3 - emax - prec) + 1 /\
      3 - emax - prec <= e' <= emax - prec
  | S754_infinity _ => emax <= Zdigits2 (Zpos m) + e
  | S754_nan => False
  end.
Proof.
  intros Hprec Hemax. unfold binary_round.
  pose proof (shl_align_fexp prec emax m e) as Hal. cbv zeta in Hal.
  assert (Hsame : let a := shl_align m e
                             (fexp prec emax (Zpos (digits2_pos m) + e)) in
                  Zdigits2 (Zpos (fst a)) + snd a = Zdigits2 (Zpos m) + e).
  { cbv zeta.
    destruct (shl_align_spec m e (fexp prec emax (Zpos (digits2_pos m) + e)))
      as [(Hlt & He & Hm) | (Hle & E)].
    - rewrite He, Hm. rewrite Zdigits2_mul_pow2 by lia. lia.
    - rewrite E. reflexivity. }
  cbv zeta in Hsame.
  destruct (shl_align m e (fexp prec emax (Zpos (digits2_pos m) + e)))
    as [mz ez]. cbn [fst snd] in Hal, Hsame.
  rewrite <- Hsame.
  apply binary_round_aux_magnitude; assumption.
Qed.

(** *** Non-negative weights *)

Lemma within_mag_weaken (lo hi hi' : Z) (x : float) :
  hi <= hi' -> within_mag lo hi x -> within_mag lo hi' x.
Proof.
  intros H. destruct x as [s | s | | s m e]; cbn [within_mag]; try tauto.
  intros (Hs & Hd & Hm). repeat split; try assumption; lia.
Qed.

Lemma shl_align_min (mx : positive) (ex ez : Z) :
  ez <= ex ->
  Zpos (fst (shl_align mx ex ez)) = Zpos mx * 2 ^ (ex - ez).
Proof.
  intros Hle. destruct (shl_align_spec mx ex ez) as [(_ & _ & H) | (Hge & E)].
  - exact H.
  - rewrite E. cbn [fst]. replace (ex - ez) with 0 by lia.
    rewrite Z.pow_0_r. lia.
Qed.

(** The sum of two positive floats is a positive float, of the magnitude
    of the larger or up to two more. *)
Lemma add_positive (mx my : positive) (ex ey : Z) :
  -1073 <= Zdigits2 (Zpos mx) + ex -> -1073 <= Zdigits2 (Zpos my) + ey ->
  Zdigits2 (Zpos mx) + ex < 1022 -> Zdigits2 (Zpos my) + ey < 1022 ->
  exists m e,
    add (S754_finite false mx ex) (S754_finite false my ey)
      = S754_finite false m e /\
    Zdigits2 (Zpos m) <= 53 /\
    Z.max (Zdigits2 (Zpos mx) + ex) (Zdigits2 (Zpos my) + ey)
      <= Zdigits2 (Zpos m) + e /\
    Zdigits2 (Zpos m) + e
      <= Z.max (Zdigits2 (Zpos mx) + ex) (Zdigits2 (Zpos my) + ey) + 2.
Proof.
  intros Hxlo Hylo Hxhi Hyhi.
  unfold add, SFadd. cbn [cond_Zopp].
  set (ez := Z.min ex ey).
  rewrite (shl_align_min mx ex ez) by (unfold ez; lia).
  rewrite (shl_align_min my ey ez) by (unfold ez; lia).
  assert (Hpx : 0 < 2 ^ (ex - ez)) by (apply Z.pow_pos_nonneg; unfold ez; lia).
  assert (Hpy : 0 < 2 ^ (ey - ez)) by (apply Z.pow_pos_nonneg; unfold ez; lia).
  assert (Hdx : Zdigits2 (Zpos mx * 2 ^ (ex - ez))
                = Zdigits2 (Zpos mx) + (ex - ez))
    by (apply Zdigits2_mul_pow2; unfold ez; lia).
  assert (Hdy : Zdigits2 (Zpos my * 2 ^ (ey - ez))
                = Zdigits2 (Zpos my) + (ey - ez))
    by (apply Zdigits2_mul_pow2; unfold ez; lia).
  assert (Hax : 0 < Zpos mx * 2 ^ (ex - ez)) by lia.
  assert (Hay : 0 < Zpos my * 2 ^ (ey - ez)) by lia.
  pose proof (Zdigits2_add _ _ Hax Hay) as Hsum.
  pose proof (Zdigits2_le _ (Zpos mx * 2 ^ (ex - ez) + Zpos my * 2 ^ (ey - ez))
                Hax ltac:(lia)) as Hlx.
  pose proof (Zdigits2_le _ (Zpos mx * 2 ^ (ex - ez) + Zpos my * 2 ^ (ey - ez))
                Hay ltac:(lia)) as Hly.
  destruct (Zpos mx * 2 ^ (ex - ez) + Zpos my * 2 ^ (ey - ez))
    as [| p | p] eqn:Ep; try lia.
  cbn [binary_normalize].
  pose proof (binary_round_magnitude prec64 emax64 false p ez
                ltac:(unfold prec64; lia) ltac:(unfold emax64; lia)) as H.
  unfold prec64, emax64 in *.
  destruct (binary_round 53 1024 false p ez) as [s | s | | s m e].
  - exfalso. lia.
  - exfalso. lia.
  - destruct H.
  - destruct H as (-> & Hd & Hlo & Hhi & _).
    exists m, e. split; [reflexivity |]. split; [exact Hd |]. lia.
Qed.

Lemma add_within (lo hi : Z) (x y : float) :
  -1073 <= lo -> hi < 1022 ->
  within_mag lo hi x -> within_mag lo hi y ->
  within_mag lo (hi + 2) (add x y) /\
  (nonzero x -> nonzero (add x y) /\ fmag x <= fmag (add x y)) /\
  (nonzero y -> nonzero (add x y) /\ fmag y <= fmag (add x y)) /\
  (nonzero (add x y) ->
   (nonzero x /\ fmag (add x y) <= fmag x + 2) \/
   (nonzero y /\ fmag (add x y) <= fmag y + 2)).
Proof.
  intros Hlo Hhi Hx Hy.
  destruct x as [sx | sx | | sx mx ex]; cbn [within_mag] in Hx;
    try contradiction;
    destruct y as [sy | sy | | sy my ey]; cbn [within_mag] in Hy;
    try contradiction.
  - assert (E : exists s, add (S754_zero sx) (S754_zero sy) = S754_zero s)
      by (destruct sx, sy; eexists; reflexivity).
    destruct E as [s ->]. cbn [within_mag nonzero]. tauto.
  - change (add (S754_zero sx) (S754_finite sy my ey))
      with (S754_finite sy my ey).
    destruct Hy as (Hs & Hd & Hm).
    cbn [within_mag nonzero fmag].
    split; [repeat split; try assumption; lia |].
    split; [intros [] |].
    split; [intros _; split; [exact I | lia] |].
    intros _. right. split; [exact I | lia].
  - change (add (S754_finite sx mx ex) (S754_zero sy))
      with (S754_finite sx mx ex).
    destruct Hx as (Hs & Hd & Hm).
    cbn [within_mag nonzero fmag].
    split; [repeat split; try assumption; lia |].
    split; [intros _; split; [exact I | lia] |].
    split; [intros [] |].
    intros _. left. split; [exact I | lia].
  - destruct Hx as (-> & Hdx & Hmx), Hy as (-> & Hdy & Hmy).
    destruct (add_positive mx my ex ey) as (m & e & -> & Hd & Hge & Hle);
      try lia.
    cbn [within_mag nonzero fmag].
    split; [repeat split; try assumption; lia |].
    split; [intros _; split; [exact I | lia] |].
    split; [intros _; split; [exact I | lia] |].
    intros _.
    destruct (Z_le_gt_dec (Zdigits2 (Zpos my) + ey) (Zdigits2 (Zpos mx) + ex)).
    + left. split; [exact I | lia].
    + right. split; [exact I | lia].
Qed.

(** [sum], step by step. *)
Lemma fold_add_within (xs : list float) :
  forall (acc : float) (lo hi : Z),
    -1073 <= lo -> hi + 2 * Z.of_nat (List.length xs) < 1024 ->
    within_mag lo hi acc -> Forall (within_mag lo hi) xs ->
    let s := fold_left add xs acc in
    within_mag lo (hi + 2 * Z.of_nat (List.length xs)) s /\
    (nonzero acc -> nonzero s /\ fmag acc <= fmag s) /\
    (forall x, In x xs -> nonzero x -> nonzero s /\ fmag x <= fmag s) /\
    (nonzero s ->
     (nonzero acc /\ fmag s <= fmag acc + 2 * Z.of_nat (List.length xs)) \/
     exists x, In x xs /\ nonzero x /\
               fmag s <= fmag x + 2 * Z.of_nat (List.length xs)).
Proof.
  induction xs as [| x xs IH]; intros acc lo hi Hlo Hhi Hacc Hxs; cbv zeta.
  - cbn [fold_left List.length]. rewrite Z.mul_0_r, Z.add_0_r.
    split; [exact Hacc |]. split; [intros H; split; [exact H | lia] |].
    split; [intros x [] |]. intros H. left. split; [exact H | lia].
  - cbn [fold_left]. rewrite Forall_cons_iff in Hxs. destruct Hxs as [Hx Hxs].
    cbn [List.length] in *. rewrite Nat2Z.inj_succ in *.
    destruct (add_within lo hi acc x Hlo ltac:(lia) Hacc Hx)
      as (Hw & Hna & Hnx & Hback).
    specialize (IH (add acc x) lo (hi + 2) Hlo ltac:(lia) Hw).
    assert (Hxs' : Forall (within_mag lo (hi + 2)) xs).
    { apply (Forall_impl _ (fun a => within_mag_weaken lo hi (hi + 2) a
                                       ltac:(lia)) Hxs). }
    specialize (IH Hxs'). cbv zeta in IH.
    destruct IH as (Hws & Hfa & Hfx & Hfb).
    split; [eapply within_mag_weaken; [| exact Hws]; lia |].
    split.
    { intros H. destruct (Hna H) as [H1 H2].
      destruct (Hfa H1) as [H3 H4]. split; [exact H3 | lia]. }
    split.
    { intros y [<- | Hy] Hny.
      - destruct (Hnx Hny) as [H1 H2].
        destruct (Hfa H1) as [H3 H4]. split; [exact H3 | lia].
      - exact (Hfx y Hy Hny). }
    intros Hs. destruct (Hfb Hs) as [[Hn Hle] | (y & Hy & Hny & Hle)].
    + destruct (Hback Hn) as [[Ha Hle'] | [Hb Hle']].
      * left. split; [exact Ha | lia].
      * right. exists x. split; [left; reflexivity |]. split; [exact Hb | lia].
    + right. exists y. split; [right; exact Hy |]. split; [exact Hny | lia].
Qed.

Lemma sum_within (lo hi : Z) (w : array4) :
  -1073 <= lo -> lo <= hi -> hi + 8 < 1024 ->
  Forall (within_mag lo hi) (items w) ->
  within_mag lo (hi + 8) (sum w) /\
  (forall x, In x (items w) -> nonzero x ->
             nonzero (sum w) /\ fmag x <= fmag (sum w)) /\
  (nonzero (sum w) ->
   exists x, In x (items w) /\ nonzero x /\ fmag (sum w) <= fmag x + 8).
Proof.
  intros Hlo Hlh Hhi Hall.
  assert (Hlen : List.length (items w) = 4%nat)
    by (destruct w as [[[a b] c] d]; reflexivity).
  pose proof (fold_add_within (items w) zero lo hi Hlo
                ltac:(rewrite Hlen; lia) I Hall) as H.
  cbv zeta in H. rewrite Hlen in H. change (2 * Z.of_nat 4) with 8 in H.
  destruct H as (Hw & _ & Hx & Hb).
  split; [exact Hw |]. split; [exact Hx |].
  intros Hs. destruct (Hb Hs) as [[[] _] | H]. exact H.
Qed.

(** The quotient of two positive floats is a positive float, of the
    difference of the magnitudes or up to two more. *)
Lemma div_positive (mx my : positive) (ex ey : Z) :
  Zdigits2 (Zpos mx) <= 53 ->
  -1020 <= Zdigits2 (Zpos mx) + ex - (Zdigits2 (Zpos my) + ey) <= 1020 ->
  exists m e,
    SFdiv prec64 emax64 (S754_finite false mx ex) (S754_finite false my ey)
      = S754_finite false m e /\
    Zdigits2 (Zpos m) <= 53 /\
    Zdigits2 (Zpos mx) + ex - (Zdigits2 (Zpos my) + ey)
      <= Zdigits2 (Zpos m) + e /\
    Zdigits2 (Zpos m) + e
      <= Zdigits2 (Zpos mx) + ex - (Zdigits2 (Zpos my) + ey) + 2.
Proof.
  intros Hdx Hdm.
  destruct (Zdigits2_bounds (Zpos mx) ltac:(lia)) as (Hd1 & _ & _).
  destruct (Zdigits2_bounds (Zpos my) ltac:(lia)) as (Hd2 & _ & _).
  unfold SFdiv, SFdiv_core_binary. cbv zeta. cbn [xorb].
  rewrite fexp64_eq.
  set (d1 := Zdigits2 (Zpos mx)) in *. set (d2 := Zdigits2 (Zpos my)) in *.
  replace (Z.min (Z.max (d1 + ex - (d2 + ey) - 53) (-1074)) (ex - ey))
    with (d1 + ex - (d2 + ey) - 53) by lia.
  replace (ex - ey - (d1 + ex - (d2 + ey) - 53)) with (53 - d1 + d2) by lia.
  destruct (53 - d1 + d2) as [| s | s] eqn:Es; try lia.
  rewrite Z.shiftl_mul_pow2 by lia.
  assert (Hnum : Zdigits2 (Zpos mx * 2 ^ Zpos s) = d2 + 53).
  { rewrite Zdigits2_mul_pow2 by lia. fold d1. lia. }
  assert (Hnpos : 0 < Zpos mx * 2 ^ Zpos s).
  { assert (0 < 2 ^ Zpos s) by (apply Z.pow_pos_nonneg; lia). lia. }
  pose proof (Zdigits2_quotient (Zpos mx * 2 ^ Zpos s) (Zpos my) 53
                ltac:(lia) Hnpos ltac:(lia) Hnum) as Hq.
  assert (Hqnn : 0 <= Zpos mx * 2 ^ Zpos s / Zpos my)
    by (apply Z.div_pos; lia).
  assert (Hdiv : fst (Z.div_eucl (Zpos mx * 2 ^ Zpos s) (Zpos my))
                 = Zpos mx * 2 ^ Zpos s / Zpos my) by reflexivity.
  destruct (Z.div_eucl (Zpos mx * 2 ^ Zpos s) (Zpos my)) as [q r].
  cbn [fst] in Hdiv. rewrite <- Hdiv in Hq, Hqnn. clear Hdiv.
  destruct q as [| q | q]; cbn [Zdigits2] in Hq; try lia.
  change (Zpos (digits2_pos q)) with (Zdigits2 (Zpos q)) in Hq.
  pose proof (binary_round_aux_magnitude prec64 emax64 false q
                (d1 + ex - (d2 + ey) - 53) (new_location (Zpos my) r)
                ltac:(unfold prec64; lia) ltac:(unfold emax64; lia)) as H.
  rewrite fexp64_eq in H. specialize (H ltac:(lia)).
  unfold prec64, emax64 in *.
  destruct (binary_round_aux 53 1024 false (Zpos q)
              (d1 + ex - (d2 + ey) - 53)
              (new_location (Zpos my) r)) as [s' | s' | | s' m e].
  - exfalso. lia.
  - exfalso. lia.
  - destruct H.
  - destruct H as (-> & Hd & Hlo & Hhi & _).
    exists m, e. split; [reflexivity |]. split; [exact Hd |]. lia.
Qed.

(** Packing a positive float. *)
Lemma pack_unpack_positive (m : positive) (e : Z) (y : float) :
  pack_unpack (S754_finite false m e) = Ok y ->
  within_mag (-148) (Z.min 129 (Z.max (Zdigits2 (Zpos m) + e) (-149) + 2)) y /\
  (-148 <= Zdigits2 (Zpos m) + e ->
   nonzero y /\ Zdigits2 (Zpos m) + e <= fmag y).
Proof.
  unfold pack_unpack, to_binary32.
  pose proof (binary_round_magnitude prec32 emax32 false m e
                ltac:(unfold prec32; lia) ltac:(unfold emax32; lia)) as H32.
  destruct (binary_round prec32 emax32 false m e) as [s | s | | s m' e'].
  - intros [= <-]. cbn [of_binary32 within_mag nonzero].
    unfold prec32, emax32 in H32. split; [exact I | lia].
  - discriminate.
  - destruct H32.
  - destruct H32 as (-> & Hd & Hlo & Hhi & Hemin).
    unfold prec32, emax32 in *.
    destruct (Zdigits2_bounds (Zpos m') ltac:(lia)) as (Hd1 & _ & _).
    intros [= <-]. cbn [of_binary32].
    pose proof (binary_round_magnitude prec64 emax64 false m' e'
                  ltac:(unfold prec64; lia) ltac:(unfold emax64; lia)) as H64.
    unfold prec64, emax64 in *.
    destruct (binary_round 53 1024 false m' e') as [s | s | | s m2 e2].
    + exfalso. lia.
    + exfalso. lia.
    + destruct H64.
    + destruct H64 as (-> & Hd2 & Hlo2 & Hhi2 & _).
      cbn [within_mag nonzero fmag].
      split; [repeat split; lia |]. intros _. split; [exact I | lia].
Qed.

Lemma pack_unpack_fits (m : positive) (e : Z) :
  Zdigits2 (Zpos m) + e < 128 ->
  exists y, pack_unpack (S754_finite false m e) = Ok y.
Proof.
  intros Hm. unfold pack_unpack, to_binary32.
  pose proof (binary_round_magnitude prec32 emax32 false m e
                ltac:(unfold prec32; lia) ltac:(unfold emax32; lia)) as H32.
  destruct (binary_round prec32 emax32 false m e) as [s | s | | s m' e'].
  - eexists. reflexivity.
  - exfalso. unfold emax32 in H32. lia.
  - destruct H32.
  - eexists. reflexivity.
Qed.

Lemma pack_unpack_nonnegative (x y : float) :
  is_nonnegative x = true -> pack_unpack x = Ok y ->
  within_mag (-148) 129 y.
Proof.
  destruct x as [s | s | | s m e]; cbn [is_nonnegative]; try discriminate.
  - intros _ [= <-]. exact I.
  - intros Hs. apply negb_true_iff in Hs. subst s. intros Hp.
    destruct (pack_unpack_positive m e y Hp) as [H _].
    eapply within_mag_weaken; [| exact H]. lia.
Qed.

(** *** [math.fsum] on such floats *)

Lemma within_mag_plain (lo hi : Z) (xs : list float) :
  Forall (within_mag lo hi) xs ->
  existsb (is_inf false) xs = false /\
  existsb (is_inf true) xs = false /\
  existsb is_nan xs = false.
Proof.
  induction 1 as [| x xs Hx _ IH]; [repeat split |].
  cbn [existsb]. destruct IH as (-> & -> & ->).
  destruct x as [s | s | | s m e]; try destruct Hx; repeat split.
Qed.

Lemma exact_within (lo hi : Z) (x : float) :
  within_mag lo hi x ->
  0 <= fst (exact x) /\
  (fst (exact x) = 0 \/
   (0 < fst (exact x) /\ Zdigits2 (fst (exact x)) + snd (exact x) <= hi)).
Proof.
  destruct x as [s | s | | s m e]; cbn [within_mag exact fst snd];
    try contradiction.
  - intros _. split; [lia | left; reflexivity].
  - intros (-> & _ & Hm). cbn [cond_Zopp]. split; [lia |]. right. lia.
Qed.

Lemma exact_add_magnitude (a b : Z * Z) (B : Z) :
  0 <= fst a -> (fst a = 0 \/ (0 < fst a /\ Zdigits2 (fst a) + snd a <= B)) ->
  0 <= fst b -> (fst b = 0 \/ (0 < fst b /\ Zdigits2 (fst b) + snd b <= B)) ->
  0 <= fst (exact_add a b) /\
  (fst (exact_add a b) = 0 \/
   (0 < fst (exact_add a b) /\
    Zdigits2 (fst (exact_add a b)) + snd (exact_add a b) <= B + 1)).
Proof.
  destruct a as [ma ea], b as [mb eb]. cbn [fst snd]. intros Ha Ha' Hb Hb'.
  unfold exact_add.
  destruct (Z.eqb_spec ma 0) as [-> | Hna].
  { cbn [fst snd]. split; [exact Hb |].
    destruct Hb' as [-> | [H1 H2]]; [left; reflexivity | right; lia]. }
  destruct (Z.eqb_spec mb 0) as [-> | Hnb].
  { cbn [fst snd]. split; [exact Ha |].
    destruct Ha' as [E | [H1 H2]]; [contradiction | right; lia]. }
  cbn [fst snd].
  destruct Ha' as [E | [Hpa Hma]]; [contradiction |].
  destruct Hb' as [E | [Hpb Hmb]]; [contradiction |].
  set (e := Z.min ea eb).
  assert (Hxa : 0 < 2 ^ (ea - e)) by (apply Z.pow_pos_nonneg; unfold e; lia).
  assert (Hxb : 0 < 2 ^ (eb - e)) by (apply Z.pow_pos_nonneg; unfold e; lia).
  assert (Hda : Zdigits2 (ma * 2 ^ (ea - e)) = Zdigits2 ma + (ea - e))
    by (apply Zdigits2_mul_pow2; unfold e; lia).
  assert (Hdb : Zdigits2 (mb * 2 ^ (eb - e)) = Zdigits2 mb + (eb - e))
    by (apply Zdigits2_mul_pow2; unfold e; lia).
  assert (Hpa' : 0 < ma * 2 ^ (ea - e)) by lia.
  assert (Hpb' : 0 < mb * 2 ^ (eb - e)) by lia.
  pose proof (Zdigits2_add _ _ Hpa' Hpb') as Hsum.
  split; [lia |]. right. split; lia.
Qed.

Lemma round_exact_finite (a : Z * Z) (B : Z) :
  0 <= fst a -> (fst a = 0 \/ (0 < fst a /\ Zdigits2 (fst a) + snd a <= B)) ->
  B < 1024 ->
  forall s, round_exact a <> S754_infinity s.
Proof.
  destruct a as [m e]. cbn [fst snd]. intros Hm Hmag HB s.
  unfold round_exact, float_of. cbn [fst snd].
  destruct m as [| p | p]; cbn [binary_normalize]; try lia.
  - discriminate.
  - pose proof (binary_round_magnitude prec64 emax64 false p e
                  ltac:(unfold prec64; lia) ltac:(unfold emax64; lia)) as H.
    destruct (binary_round prec64 emax64 false p e); try discriminate.
    unfold emax64 in H. lia.
Qed.

Lemma exact_sum_within (lo : Z) (xs : list float) :
  forall (acc : Z * Z) (B : Z),
    0 <= fst acc ->
    (fst acc = 0 \/ (0 < fst acc /\ Zdigits2 (fst acc) + snd acc <= B)) ->
    Forall (within_mag lo B) xs ->
    B + Z.of_nat (List.length xs) < 1024 ->
    exists s, exact_sum acc xs = Ok s.
Proof.
  induction xs as [| x xs IH]; intros acc B Hacc Hmag Hall HB.
  - eexists. reflexivity.
  - rewrite Forall_cons_iff in Hall. destruct Hall as [Hx Hxs].
    cbn [List.length] in HB. rewrite Nat2Z.inj_succ in HB.
    destruct (exact_within lo B x Hx) as [Hx0 Hx1].
    destruct (exact_add_magnitude acc (exact x) B Hacc Hmag Hx0 Hx1)
      as [Hs0 Hs1].
    pose proof (round_exact_finite _ (B + 1) Hs0 Hs1 ltac:(lia)) as Hfin.
    assert (Hxs' : Forall (within_mag lo (B + 1)) xs).
    { apply (Forall_impl _ (fun a => within_mag_weaken lo B (B + 1) a
                                       ltac:(lia)) Hxs). }
    destruct (IH (exact_add acc (exact x)) (B + 1) Hs0 Hs1 Hxs' ltac:(lia))
      as [s Hs].
    exists s. cbn [exact_sum].
    destruct (round_exact (exact_add acc (exact x))) as [s0 | s0 | | s0 m e];
      try exact Hs.
    exfalso. exact (Hfin s0 eq_refl).
Qed.

Lemma sum_error_within (lo hi : Z) (w : array4) :
  hi + 4 < 1024 ->
  Forall (within_mag lo hi) (items w) ->
  exists err, sum_error w = Ok err.
Proof.
  intros Hhi Hall. unfold sum_error, fsum.
  destruct (within_mag_plain lo hi (items w) Hall) as (-> & -> & ->).
  cbn [andb].
  assert (Hlen : List.length (items w) = 4%nat)
    by (destruct w as [[[a b] c] d]; reflexivity).
  destruct (exact_sum_within lo (items w) (0, 0) hi ltac:(cbn; lia)
              ltac:(left; reflexivity) Hall ltac:(rewrite Hlen; lia))
    as [s ->].
  eexists. reflexivity.
Qed.

(** *** A round of the refinement on non-negative weights *)

(** One weight of the next tuple: the quotient by the sum, packed. *)
Lemma quotient_packs (x S : float) :
  within_mag (-148) 129 x ->
  within_mag (-148) 137 S -> nonzero S ->
  (nonzero x -> fmag x <= fmag S) ->
  exists q n,
    truediv x S = Ok q /\ pack_unpack q = Ok n /\
    within_mag (-148) 129 n /\
    (nonzero x -> fmag S <= fmag x + 8 -> nonzero n).
Proof.
  intros Hx HS HnS Hle.
  destruct S as [ss | ss | | ss ms es]; try destruct HnS.
  cbn [within_mag] in HS. destruct HS as (-> & HdS & HmS).
  unfold truediv. cbn [is_zero].
  destruct x as [sx | sx | | sx mx ex]; cbn [within_mag] in Hx;
    try contradiction.
  - eexists. eexists. split; [reflexivity |].
    cbn [SFdiv]. split; [reflexivity |]. split; [exact I |].
    intros [].
  - destruct Hx as (-> & Hdx & Hmx).
    specialize (Hle I). cbn [fmag] in Hle.
    destruct (div_positive mx ms ex es Hdx ltac:(lia))
      as (m & e & Hq & Hd & Hlo & Hhi).
    destruct (pack_unpack_fits m e ltac:(lia)) as [n Hn].
    exists (S754_finite false m e), n.
    split; [rewrite Hq; reflexivity |]. split; [exact Hn |].
    destruct (pack_unpack_positive m e n Hn) as [Hw Hnz].
    split; [eapply within_mag_weaken; [| exact Hw]; lia |].
    intros _ Hnear. cbn [fmag] in Hnear.
    exact (proj1 (Hnz ltac:(lia))).
Qed.

Lemma refine_round_workable (w : array4) :
  workable w ->
  exists step,
    refine_round w = Ok step /\
    forall next_weights, step = Some next_weights -> workable next_weights.
Proof.
  intros [Hall Hsome].
  destruct (sum_within (-148) 129 w ltac:(lia) ltac:(lia) ltac:(lia) Hall)
    as (HS & Hbelow & Hnear).
  change (129 + 8) with 137 in HS.
  assert (HnS : nonzero (sum w)).
  { apply Exists_exists in Hsome. destruct Hsome as (x & Hx & Hnx).
    exact (proj1 (Hbelow x Hx Hnx)). }
  destruct (Hnear HnS) as (x0 & Hx0 & Hnx0 & Hclose).
  destruct (sum_error_within (-148) 129 w ltac:(lia) Hall) as [err Herr].
  unfold refine_round, quotients, to_gl_float.
  destruct w as [[[a b] c] d].
  set (S := sum (a, b, c, d)) in *.
  cbn [items] in Hall, Hbelow, Hx0.
  apply Forall_cons_iff in Hall. destruct Hall as [Ha Hall].
  apply Forall_cons_iff in Hall. destruct Hall as [Hb Hall].
  apply Forall_cons_iff in Hall. destruct Hall as [Hc Hall].
  apply Forall_cons_iff in Hall. destruct Hall as [Hd _].
  destruct (quotient_packs a S Ha HS HnS
              (fun H => proj2 (Hbelow a ltac:(cbn; tauto) H)))
    as (qa & na & Hqa & Hna & Hwa & Hza).
  destruct (quotient_packs b S Hb HS HnS
              (fun H => proj2 (Hbelow b ltac:(cbn; tauto) H)))
    as (qb & nb & Hqb & Hnb & Hwb & Hzb).
  destruct (quotient_packs c S Hc HS HnS
              (fun H => proj2 (Hbelow c ltac:(cbn; tauto) H)))
    as (qc & nc & Hqc & Hnc & Hwc & Hzc).
  destruct (quotient_packs d S Hd HS HnS
              (fun H => proj2 (Hbelow d ltac:(cbn; tauto) H)))
    as (qd & nd & Hqd & Hnd & Hwd & Hzd).
  rewrite Hqa, Hqb, Hqc, Hqd. cbn [bind].
  rewrite Hna, Hnb, Hnc, Hnd. cbn [bind].
  assert (Hnext : workable (na, nb, nc, nd)).
  { split.
    - cbn [items]. repeat (apply Forall_cons; [assumption |]).
      apply Forall_nil.
    - cbn [items]. cbn [In] in Hx0.
      destruct Hx0 as [<- | [<- | [<- | [<- | []]]]].
      + apply Exists_cons_hd. exact (Hza Hnx0 Hclose).
      + apply Exists_cons_tl, Exists_cons_hd. exact (Hzb Hnx0 Hclose).
      + do 2 apply Exists_cons_tl. apply Exists_cons_hd.
        exact (Hzc Hnx0 Hclose).
      + do 3 apply Exists_cons_tl. apply Exists_cons_hd.
        exact (Hzd Hnx0 Hclose). }
  rewrite Herr. cbn [bind].
  destruct (sum_error_within (-148) 129 (na, nb, nc, nd) ltac:(lia)
              (proj1 Hnext)) as [nerr ->].
  cbn [bind].
  destruct (ge err epsilon && gt err nerr); eexists; (split; [reflexivity |]).
  - intros n [= <-]. exact Hnext.
  - intros n H. discriminate H.
Qed.

Lemma refine_workable (rounds : nat) :
  forall w, workable w -> exists r, refine rounds w = Ok r.
Proof.
  induction rounds as [| rounds IH]; intros w Hw; cbn [refine].
  - eexists. reflexivity.
  - destruct (refine_round_workable w Hw) as (step & -> & Hstep).
    cbn [bind]. destruct step as [n |].
    + apply IH. apply Hstep. reflexivity.
    + eexists. reflexivity.
Qed.

(** Packing non-negative weights leaves weights the loop can work on,
    unless they all become zero. *)
Lemma to_gl_float_workable (w w32 : array4) :
  nonnegative w = true -> to_gl_float w = Ok w32 ->
  is_zero (sum w32) = false -> workable w32.
Proof.
  intros Hnn Hpack Hsum.
  assert (Hall : Forall (within_mag (-148) 129) (items w32)).
  { destruct w as [[[a b] c] d]. unfold nonnegative in Hnn.
    cbn [items forallb] in Hnn.
    apply andb_prop in Hnn. destruct Hnn as [Ha Hnn].
    apply andb_prop in Hnn. destruct Hnn as [Hb Hnn].
    apply andb_prop in Hnn. destruct Hnn as [Hc Hnn].
    apply andb_prop in Hnn. destruct Hnn as [Hd _].
    unfold to_gl_float in Hpack.
    destruct (pack_unpack a) as [a' |] eqn:Ea; [| discriminate].
    destruct (pack_unpack b) as [b' |] eqn:Eb; [| discriminate].
    destruct (pack_unpack c) as [c' |] eqn:Ec; [| discriminate].
    destruct (pack_unpack d) as [d' |] eqn:Ed; [| discriminate].
    cbn [bind] in Hpack. injection Hpack as <-. cbn [items].
    repeat (apply Forall_cons;
            [eapply pack_unpack_nonnegative; [| eassumption]; assumption |]).
    apply Forall_nil. }
  split; [exact Hall |].
  destruct (sum_within (-148) 129 w32 ltac:(lia) ltac:(lia) ltac:(lia) Hall)
    as (HS & _ & Hnear).
  assert (HnS : nonzero (sum w32)).
  { destruct (sum w32) as [s | s | | s m e]; try destruct HS;
      try discriminate Hsum. exact I. }
  destruct (Hnear HnS) as (x & Hx & Hnx & _).
  apply Exists_exists. exists x. split; assumption.
Qed.

(** C4 (amended).  The normalisation returns a value, without raising,
    on the weights it is meant for: it returns its argument when the sum
    is within epsilon of 1, and it returns for every tuple of weights
    that are zero or positive, fit the 32-bit format, and do not all
    round to zero in it.  It does raise: [OverflowError] when a weight
    does not fit the 32-bit format, [ZeroDivisionError] when the weights
    as rounded to 32 bits sum to zero; and whatever it raises, on any
    tuple, is [ZeroDivisionError], [OverflowError] or [ValueError]. *)
Theorem normalize_error_paths (w : array4) :
  (sums_to_one w = true ->
   normalize_weights_compatible_with_gl_float w = Ok w) /\
  (nonnegative w = true ->
   forall w32, to_gl_float w = Ok w32 -> is_zero (sum w32) = false ->
   exists r, normalize_weights_compatible_with_gl_float w = Ok r) /\
  (sums_to_one w = false ->
   forall e, to_gl_float w = Err e ->
   e = OverflowError /\
   normalize_weights_compatible_with_gl_float w = Err OverflowError) /\
  (sums_to_one w = false ->
   forall w32, to_gl_float w = Ok w32 -> is_zero (sum w32) = true ->
   normalize_weights_compatible_with_gl_float w = Err ZeroDivisionError) /\
  (forall e, normalize_weights_compatible_with_gl_float w = Err e ->
   sums_to_one w = false /\ arithmetic_error e).
Proof.
  unfold normalize_weights_compatible_with_gl_float.
  split; [| split; [| split; [| split]]].
  - intros ->. reflexivity.
  - intros Hnn w32 Hpack Hsum.
    destruct (sums_to_one w); [eexists; reflexivity |].
    rewrite Hpack. cbn [bind].
    apply refine_workable.
    exact (to_gl_float_workable w w32 Hnn Hpack Hsum).
  - intros -> e He. pose proof (to_gl_float_errors w e He) as ->.
    rewrite He. split; reflexivity.
  - intros -> w32 Hpack Hz. rewrite Hpack. cbn [bind refine].
    rewrite (refine_round_by_zero w32 Hz). reflexivity.
  - intros e. destruct (sums_to_one w); [discriminate |].
    intros H. split; [reflexivity |].
    destruct (to_gl_float w) as [w32 | e1] eqn:E1; cbn [bind] in H.
    + exact (refine_errors 10 w32 e H).
    + injection H as <-. right. left. exact (to_gl_float_errors w e1 E1).
Qed.

Lemma normalize_halves_returns :
  sums_to_one w_halves = false /\
  nonnegative w_halves = true /\
  exists r, normalize_weights_compatible_with_gl_float w_halves = Ok r.
Proof.
  split; [vm_compute; reflexivity |].
  split; [reflexivity |].
  apply (proj1 (proj2 (normalize_error_paths w_halves)) eq_refl w_halves);
    vm_compute; reflexivity.
Defined.

End GlFloatFacts.
